(** * util/net/http_transport_win.cc: HTTPTransportWin::ExecuteSynchronously

    A shallow embedding of the WinHTTP transport of Crashpad.  The one
    function of the file, [ExecuteSynchronously], is written as a computation
    in a small state-and-exit monad: the state holds the log of WinHTTP calls
    made so far, the stack buffer [buf] of the send loop, the running
    [total_written] counter and the caller's [response_body] string; a
    computation either goes on, leaves the function with [return b], or
    stops the process (a failed CHECK/DCHECK, a store outside [buf]).

    WinHTTP, the request body stream and the string-to-number conversion are
    collaborators of the file: their answers are taken from an oracle record
    and from scripts, so every theorem holds for every behaviour they can
    show. *)

From Stdlib Require Import String Ascii Strings.Byte.
From Stdlib Require Import Floats.
From Stdlib Require Import ZArith NArith Bool Lia List.
Import ListNotations.
Open Scope Z_scope.
Open Scope list_scope.

(** ** Bytes and characters *)

Definition CR : byte := "013"%byte.
Definition LF : byte := "010"%byte.
Definition NUL : byte := "000"%byte.
Definition char_0 : byte := "0"%byte.

Definition byte_val (c : byte) : Z := Z.of_N (Byte.to_N c).

(** ** The stack buffer of the send loop (lines 221-231)

    [struct { char size[8]; char crlf0[2]; uint8_t data[32 * 1024];
    char crlf1[2]; } buf], with the [static_assert] that the struct has no
    padding: the four fields follow one another.  The buffer is a byte array
    and the fields are offset ranges of it. *)

Definition sizeof_size : Z := 8.
Definition sizeof_crlf0 : Z := 2.
Definition sizeof_data : Z := 32 * 1024.
Definition sizeof_crlf1 : Z := 2.

(** The [static_assert]: [sizeof(buf)] is the sum of the field sizes. *)
Definition sizeof_buf : Z :=
  sizeof_size + sizeof_crlf0 + sizeof_data + sizeof_crlf1.

Definition offsetof_size : Z := 0.
Definition offsetof_crlf0 : Z := offsetof_size + sizeof_size.
Definition offsetof_data : Z := offsetof_crlf0 + sizeof_crlf0.
Definition offsetof_crlf1 : Z := offsetof_data + sizeof_data.

Inductive buf_field : Type :=
| field_size
| field_crlf0
| field_data
| field_crlf1.

(** The field an offset of [buf] falls in; [None] outside the struct. *)
Definition field_of_offset (off : Z) : option buf_field :=
  if off <? offsetof_size then None
  else if off <? offsetof_crlf0 then Some field_size
  else if off <? offsetof_data then Some field_crlf0
  else if off <? offsetof_crlf1 then Some field_data
  else if off <? sizeof_buf then Some field_crlf1
  else None.

(** Reading and writing the byte array.  A store of [bytes] at offset [off]
    is defined when it stays inside the array. *)
Definition load (b : list byte) (off : Z) : byte :=
  nth (Z.to_nat off) b NUL.

Definition store_bytes (b : list byte) (off : Z) (bytes : list byte)
  : option (list byte) :=
  if (0 <=? off) && (off + Z.of_nat (length bytes) <=? Z.of_nat (length b))
  then Some (firstn (Z.to_nat off) b ++ bytes
             ++ skipn (Z.to_nat off + length bytes) b)
  else None.

(** The bytes [WinHttpWriteData] is handed: [size] bytes from [start]. *)
Definition sub_bytes (b : list byte) (start size : Z) : list byte :=
  firstn (Z.to_nat size) (skipn (Z.to_nat start) b).

(** ** [_snprintf(buf.size, sizeof(buf.size), "%08x", data_bytes_ui)]

    [%08x] prints an [unsigned int] in lowercase hexadecimal, zero-padded to
    width 8; a 32-bit value never needs more than 8 digits. *)

Definition hex_digits : list byte :=
  ["0"; "1"; "2"; "3"; "4"; "5"; "6"; "7";
   "8"; "9"; "a"; "b"; "c"; "d"; "e"; "f"]%byte.

Definition hex_digit (d : Z) : byte := nth (Z.to_nat d) hex_digits char_0.

Fixpoint format_08x_digits (width : nat) (v : Z) : list byte :=
  match width with
  | O => []
  | S w => format_08x_digits w (v / 16) ++ [hex_digit (v mod 16)]
  end.

Definition format_08x (v : Z) : list byte := format_08x_digits 8 v.

(** [_snprintf] with [count] equal to the formatted length stores the
    characters without a terminating NUL and returns their number; with a
    longer output it stores [count] characters and returns a negative
    value; with a shorter one it appends the NUL. *)
Definition _snprintf_08x (count : Z) (v : Z) : Z * list byte :=
  let s := format_08x v in
  let len := Z.of_nat (length s) in
  if len =? count then (len, s)
  else if len <? count then (len, s ++ [NUL])
  else (-1, firstn (Z.to_nat count) s).

(** ** Skip leading zeroes in the chunk size (lines 263-269)

    [for (size_len = sizeof(buf.size); size_len > 1; --size_len)
       if (buf.size[sizeof(buf.size) - size_len] != '0') break;] *)
Fixpoint skip_leading_zeroes (size_len : nat) (b : list byte) : nat :=
  match size_len with
  | S (S _ as n) =>
      if Byte.eqb (load b (offsetof_size + (sizeof_size - Z.of_nat size_len)))
                  char_0
      then skip_leading_zeroes n b
      else size_len
  | _ => size_len
  end.

(** ** Collaborators *)

(** [URL_COMPONENTS] as [WinHttpCrackUrl] fills it: the scheme, and the host
    name, path and extra info as (pointer, length) views of the URL. *)
Definition INTERNET_SCHEME_HTTP : Z := 1.
Definition INTERNET_SCHEME_HTTPS : Z := 2.

Record URL_COMPONENTS : Type := {
  nScheme : Z;
  lpszHostName : string;
  nPort : Z;
  lpszUrlPath : string;
  lpszExtraInfo : string
}.

(** The three [ScopedHINTERNET] handles of the function. *)
Inductive HINTERNET : Type :=
| session
| connect
| request.

(** What leaves the function: every WinHTTP call with its arguments (and,
    for the two response queries, its answer), and every [LOG(ERROR)]. *)
Inductive event : Type :=
| Called_WinHttpOpen
| Called_WinHttpSetTimeouts (timeout_in_ms : Z)
| Called_WinHttpCrackUrl (url_wide : string)
| Called_WinHttpConnect (host_name : string) (port : Z)
| Called_WinHttpOpenRequest (verb url_path : string) (secure : bool)
| Called_WinHttpAddRequestHeaders (header_string : string)
| Called_WinHttpSendRequest (total_length : Z)
| Called_WinHttpWriteData (bytes : list byte)
| Called_WinHttpReceiveResponse
| Called_WinHttpQueryHeaders (status_code : option Z)
| Called_WinHttpReadData (bytes : option (list byte))
| Called_WinHttpCloseHandle (handle : HINTERNET)
| LOG_ERROR_WinHttpMessage (extra : string)
| LOG_ERROR_HTTP_status (status_code : Z).

(** WinHTTP answers as it likes: each answer may depend on everything that
    happened before.  [false] and [None] are the failure returns (a null
    handle, a [FALSE] result).  [WinHttpWriteData] reports the number of
    bytes written; the response body arrives as a script of
    [WinHttpReadData] results, after which the stream stays at its end. *)
Record WinHttp : Type := {
  WinHttpOpen_result : list event -> bool;
  WinHttpSetTimeouts_result : list event -> bool;
  WinHttpCrackUrl_result : list event -> string -> option URL_COMPONENTS;
  WinHttpConnect_result : list event -> bool;
  WinHttpOpenRequest_result : list event -> bool;
  WinHttpAddRequestHeaders_result : list event -> string -> bool;
  WinHttpSendRequest_result : list event -> bool;
  WinHttpWriteData_result : list event -> list byte -> option Z;
  WinHttpReceiveResponse_result : list event -> bool;
  WinHttpQueryHeaders_result : list event -> option Z;
  WinHttpCloseHandle_result : list event -> bool;
  WinHttpReadData_script : list (option (list byte))
}.

(** One [HTTPBodyStream::GetBytesBuffer] result: [-1], or the bytes copied
    into the buffer (their number is the return value, [0] at the end of the
    stream). *)
Inductive read_result : Type :=
| read_failed
| read_bytes (data : list byte).

(** The members of the [HTTPTransport] base class the function reads.
    [headers()] is a [std::map]: the list is its iteration sequence, so the
    names in it are distinct.  [body_stream()] is the script of the reads it
    will answer; once the script is used up the stream is at its end. *)
Record HTTPTransport : Type := {
  url : string;
  method : string;
  timeout : float;
  headers : list (string * string);
  body_stream : list read_result
}.

(** Modelled from the spec: the constant [kContentLength] of
    util/net/http_headers.h, the header name "Content-Length". *)
Definition kContentLength : string := "Content-Length"%string.

Definition WINHTTP_IGNORE_REQUEST_TOTAL_LENGTH : Z := 0.
Definition UINT32_MAX : Z := 2 ^ 32 - 1.

(** ** The monad *)

Inductive fatal : Type :=
| check_failed       (* a CHECK or DCHECK that does not hold: LOG(FATAL) *)
| out_of_bounds.     (* a store outside [buf] *)

Inductive result (A : Type) : Type :=
| Continue (a : A)
| Return (b : bool)
| Fatal (f : fatal).

Arguments Continue {A} a.
Arguments Return {A} b.
Arguments Fatal {A} f.

(** The state a call runs in.  [buf] is declared in the body of the send
    loop without an initialiser: a pass starts with whatever the stack slot
    holds, which here is what the pass before left in it. *)
Record world : Type := {
  trace : list event;
  buf : list byte;
  total_written : Z;
  response_body : option (list byte)
}.

Definition set_trace (w : world) (t : list event) : world :=
  {| trace := t; buf := buf w; total_written := total_written w;
     response_body := response_body w |}.

Definition set_buf (w : world) (b : list byte) : world :=
  {| trace := trace w; buf := b; total_written := total_written w;
     response_body := response_body w |}.

Definition set_total (w : world) (v : Z) : world :=
  {| trace := trace w; buf := buf w; total_written := v;
     response_body := response_body w |}.

Definition set_response_body (w : world) (rb : option (list byte)) : world :=
  {| trace := trace w; buf := buf w; total_written := total_written w;
     response_body := rb |}.

Definition M (A : Type) : Type := world -> result A * world.

Definition ret {A : Type} (a : A) : M A := fun w => (Continue a, w).

Definition bind {A B : Type} (m : M A) (k : A -> M B) : M B :=
  fun w =>
    match m w with
    | (Continue a, w') => k a w'
    | (Return b, w') => (Return b, w')
    | (Fatal f, w') => (Fatal f, w')
    end.

Notation "x <- m ;; k" := (bind m (fun x => k))
  (at level 61, m at next level, right associativity).
Notation "m ;; k" := (bind m (fun _ => k))
  (at level 61, right associativity).

Definition return_ {A : Type} (b : bool) : M A := fun w => (Return b, w).
Definition stop {A : Type} (f : fatal) : M A := fun w => (Fatal f, w).

Definition emit (e : event) : M unit :=
  fun w => (Continue tt, set_trace w (trace w ++ [e])).

Definition history : M (list event) := fun w => (Continue (trace w), w).

Definition LOG_ERROR (extra : string) : M unit :=
  emit (LOG_ERROR_WinHttpMessage extra).

(** [base::checked_cast<unsigned int>] / [<DWORD>]: a CHECK that the value
    is representable in 32 bits. *)
Definition checked_cast_uint32 (v : Z) : M Z :=
  if (0 <=? v) && (v <=? UINT32_MAX) then ret v else stop check_failed.

(** Stores into, and loads from, the stack buffer. *)
Definition store (off : Z) (bytes : list byte) : M unit :=
  fun w =>
    match store_bytes (buf w) off bytes with
    | Some b => (Continue tt, set_buf w b)
    | None => (Fatal out_of_bounds, w)
    end.

Definition the_buf : M (list byte) := fun w => (Continue (buf w), w).

Definition set_total_written (v : Z) : M unit :=
  fun w => (Continue tt, set_total w v).

Definition get_total_written : M Z :=
  fun w => (Continue (total_written w), w).

(** [response_body->clear()] and [response_body->append(read_buffer,
    bytes_read)]; both are reached with a non-null [response_body] only. *)
Definition response_body_clear : M unit :=
  fun w => (Continue tt,
            set_response_body w (option_map (fun _ => []) (response_body w))).

Definition response_body_append (bytes : list byte) : M unit :=
  fun w => (Continue tt,
            set_response_body w
              (option_map (fun s => s ++ bytes) (response_body w))).

Definition response_body_is_null : M bool :=
  fun w => (Continue (match response_body w with
                      | Some _ => false
                      | None => true
                      end), w).

(** The world a call starts in: nothing has happened yet, the stack slot of
    [buf] holds whatever it holds, and [response_body] is the caller's
    string ([None] for a null pointer). *)
Definition initial_world (stack : list byte) (rb : option (list byte))
  : world :=
  {| trace := []; buf := stack; total_written := 0; response_body := rb |}.

(** [static_cast<int>(timeout() * 1000)].  [timeout()] is a [double], an
    IEEE 754 binary64 number, and so is the product, rounded to nearest as
    the multiplication of doubles rounds it.  The cast drops the fraction of
    the product.  For a product that no [int] holds, a NaN or an infinity,
    the cast is undefined in C++; the conversion the x86 builds of the file
    run gives the least [int] then, and so does this function. *)
Definition INT_MIN : Z := - 2 ^ 31.
Definition INT_MAX : Z := 2 ^ 31 - 1.

Definition truncate (d : float) : option Z :=
  match Prim2SF d with
  | S754_zero _ => Some 0
  | S754_finite negative mantissa exponent =>
      let magnitude :=
        if 0 <=? exponent then Zpos mantissa * 2 ^ exponent
        else Zpos mantissa / 2 ^ (- exponent) in
      Some (if negative then - magnitude else magnitude)
  | S754_infinity _ => None
  | S754_nan => None
  end.

Definition static_cast_int (d : float) : Z :=
  match truncate d with
  | Some z => if (INT_MIN <=? z) && (z <=? INT_MAX) then z else INT_MIN
  | None => INT_MIN
  end.

Definition timeout_in_ms_of (t : float) : Z :=
  static_cast_int (PrimFloat.mul t 1000%float).

(** [base::UTF8ToUTF16]: the wide strings handed to WinHTTP are the same
    texts; they are kept as the strings they were converted from. *)
Definition UTF8ToUTF16 (s : string) : string := s.

Definition CRLF_string : string :=
  String (ascii_of_nat 13) (String (ascii_of_nat 10) EmptyString).

Definition kTransferEncodingHeader : string :=
  ("Transfer-Encoding: chunked" ++ CRLF_string)%string.

(** The header line of a caller entry (lines 177-178). *)
Definition header_string_of (header : string * string) : string :=
  (UTF8ToUTF16 (fst header) ++ ": " ++ UTF8ToUTF16 (snd header)
   ++ CRLF_string)%string.

(** ** The wire format, read back

    What the output is measured against: RFC 7230 §4.1 chunked transfer
    coding as a receiver reads it, and the minimal lowercase hexadecimal
    numeral of a number. *)

(** HEXDIG, either case, and its value. *)
Definition hex_value (c : byte) : option Z :=
  let n := byte_val c in
  if (48 <=? n) && (n <=? 57) then Some (n - 48)
  else if (97 <=? n) && (n <=? 102) then Some (n - 87)
  else if (65 <=? n) && (n <=? 70) then Some (n - 55)
  else None.

Definition is_lower_hex (c : byte) : bool :=
  existsb (Byte.eqb c) hex_digits.

(** The number a string of hex digits denotes. *)
Definition hex_number (ds : list byte) : Z :=
  fold_left (fun acc c => acc * 16 + match hex_value c with
                                     | Some d => d
                                     | None => 0
                                     end) ds 0.

(** [ds] is the minimal-digit lowercase hexadecimal numeral of [n]: at least
    one digit, lowercase hex digits only, denoting [n], and no leading zero
    unless the numeral is the single digit 0. *)
Definition minimal_hex (n : Z) (ds : list byte) : Prop :=
  (1 <= length ds)%nat /\
  forallb is_lower_hex ds = true /\
  hex_number ds = n /\
  ((1 < length ds)%nat -> hd NUL ds <> char_0).

(** [chunk-size = 1*HEXDIG]: the digits at the head of the input. *)
Fixpoint read_chunk_size (acc : Z) (input : list byte) : Z * list byte :=
  match input with
  | c :: rest =>
      match hex_value c with
      | Some d => read_chunk_size (acc * 16 + d) rest
      | None => (acc, input)
      end
  | [] => (acc, [])
  end.

Definition expect_CRLF (input : list byte) : option (list byte) :=
  match input with
  | c1 :: c2 :: rest =>
      if Byte.eqb c1 CR && Byte.eqb c2 LF then Some rest else None
  | _ => None
  end.

(** [chunked-body = *chunk last-chunk trailer-part CRLF], without chunk
    extensions and with an empty trailer.  The result is the data of the
    chunks before the last-chunk, and the input left after the final CRLF. *)
Fixpoint decode_chunked (fuel : nat) (input : list byte)
  : option (list (list byte) * list byte) :=
  match fuel with
  | O => None
  | S fuel' =>
      match input with
      | [] => None
      | c :: _ =>
          match hex_value c with
          | None => None
          | Some _ =>
              let '(size, after_size) := read_chunk_size 0 input in
              match expect_CRLF after_size with
              | None => None
              | Some after_line =>
                  if size =? 0 then
                    match expect_CRLF after_line with
                    | Some rest => Some ([], rest)
                    | None => None
                    end
                  else if Z.of_nat (length after_line) <? size then None
                  else
                    let data := firstn (Z.to_nat size) after_line in
                    match expect_CRLF (skipn (Z.to_nat size) after_line) with
                    | None => None
                    | Some rest =>
                        match decode_chunked fuel' rest with
                        | Some (chunks, unread) => Some (data :: chunks, unread)
                        | None => None
                        end
                    end
              end
          end
      end
  end.

(** Every chunk takes at least one byte of input, so the length of the
    input is fuel enough. *)
Definition chunked_decode (input : list byte)
  : option (list (list byte) * list byte) :=
  decode_chunked (S (length input)) input.

(** The last-chunk as this transport sends it: [0 CR LF CR LF]. *)
Definition terminal_chunk : list byte := [char_0; CR; LF; CR; LF].

(** The size field as it is emitted: the eight digits without the leading
    zeroes the loop skips. *)
Definition chunk_size_field (n : Z) : list byte :=
  let digits := format_08x n in
  skipn (8 - skip_leading_zeroes 8 digits) digits.

(** One framed chunk. *)
Definition chunk_frame (data : list byte) : list byte :=
  chunk_size_field (Z.of_nat (length data)) ++ [CR; LF] ++ data ++ [CR; LF].

(** The reads a stream delivers before it reports its end with a read of
    zero bytes, and the body they make up. *)
Fixpoint reads_until_eof (reads : list (list byte)) : list (list byte) :=
  match reads with
  | [] => []
  | [] :: _ => []
  | data :: rest => data :: reads_until_eof rest
  end.

Definition delivered_body (reads : list (list byte)) : list byte :=
  concat (reads_until_eof reads).

(** What a log of events put on the wire, write by write and in all. *)
Fixpoint written_blocks (t : list event) : list (list byte) :=
  match t with
  | [] => []
  | Called_WinHttpWriteData bytes :: rest => bytes :: written_blocks rest
  | _ :: rest => written_blocks rest
  end.

Definition wire_bytes (t : list event) : list byte :=
  concat (written_blocks t).

(** The header lines a log of events handed to WinHTTP. *)
Fixpoint added_headers (t : list event) : list string :=
  match t with
  | [] => []
  | Called_WinHttpAddRequestHeaders line :: rest => line :: added_headers rest
  | _ :: rest => added_headers rest
  end.

(** The response bytes a log of events received. *)
Fixpoint received_bytes (t : list event) : list byte :=
  match t with
  | [] => []
  | Called_WinHttpReadData (Some bytes) :: rest => bytes ++ received_bytes rest
  | _ :: rest => received_bytes rest
  end.

(** A response body that can be read to its end: no read fails before the
    read of zero bytes that ends it. *)
Fixpoint readable (script : list (option (list byte))) : bool :=
  match script with
  | [] => true
  | None :: _ => false
  | Some [] :: _ => true
  | Some _ :: rest => readable rest
  end.

(** Header names compared without regard to letter case. *)
Definition ascii_lower (c : ascii) : ascii :=
  let n := nat_of_ascii c in
  if ((65 <=? n) && (n <=? 90))%nat then ascii_of_nat (n + 32) else c.

Fixpoint string_lower (s : string) : string :=
  match s with
  | EmptyString => EmptyString
  | String c rest => String (ascii_lower c) (string_lower rest)
  end.

Definition equal_ignoring_case (a b : string) : bool :=
  String.eqb (string_lower a) (string_lower b).

(** The caller's entries other than Content-Length, as header lines. *)
Definition is_content_length (header : string * string) : bool :=
  String.eqb (fst header) kContentLength.

Definition literal_lines (hs : list (string * string)) : list string :=
  map header_string_of (filter (fun h => negb (is_content_length h)) hs).

(** Modelled from the spec: a literal "Name: Value" header line, written
    out character by character: the name, a colon, a space, the value, and
    the CR LF that ends a header line. *)
Definition name_value_line (name value : string) : string :=
  (name ++ String ":" (String " "
             (value ++ String "013" (String "010" EmptyString))))%string.

(** Modelled from the spec: the lines of the entries whose name is not
    Content-Length, in the order of the entries. *)
Definition forwarded_lines (hs : list (string * string)) : list string :=
  map (fun h => name_value_line (fst h) (snd h))
      (filter (fun h => negb (String.eqb (fst h) "Content-Length")) hs).

(** A header line read back, as a receiver splits it: the text before the
    first colon is the name, a space follows the colon, and the rest,
    without the CR LF that ends the line, is the value. *)
Fixpoint without_CRLF (s : string) : option string :=
  match s with
  | EmptyString => None
  | String c rest =>
      if String.eqb s (String "013" (String "010" EmptyString))
      then Some EmptyString
      else option_map (String c) (without_CRLF rest)
  end.

Fixpoint read_header_line (line : string) : option (string * string) :=
  match line with
  | EmptyString => None
  | String c rest =>
      if Ascii.eqb c ":" then
        match rest with
        | String sp value =>
            if Ascii.eqb sp " "
            then option_map (fun v => (EmptyString, v)) (without_CRLF value)
            else None
        | EmptyString => None
        end
      else option_map (fun nv => (String c (fst nv), snd nv))
                      (read_header_line rest)
  end.

Fixpoint has_colon (s : string) : bool :=
  match s with
  | EmptyString => false
  | String c rest => Ascii.eqb c ":" || has_colon rest
  end.

(** A WinHTTP that takes every block it is handed, whole. *)
Definition takes_every_write (wh : WinHttp) : Prop :=
  forall (h : list event) (bytes : list byte),
    WinHttpWriteData_result wh h bytes = Some (Z.of_nat (length bytes)).

(** The events the header loop and the Transfer-Encoding step may add:
    lines of entries other than Content-Length, the Transfer-Encoding line,
    and the report of a line WinHTTP refused. *)
Definition header_event (hs : list (string * string)) (e : event) : Prop :=
  match e with
  | Called_WinHttpAddRequestHeaders line =>
      line = kTransferEncodingHeader \/ In line (literal_lines hs)
  | LOG_ERROR_WinHttpMessage extra =>
      extra = "WinHttpAddRequestHeaders"%string
  | _ => False
  end.

(** The events of the send loop: writes, and the report of a failed one. *)
Definition send_event (e : event) : Prop :=
  match e with
  | Called_WinHttpWriteData _ => True
  | LOG_ERROR_WinHttpMessage extra => extra = "WinHttpWriteData"%string
  | _ => False
  end.

(** The events that can come before the status code is asked for, or when
    the handles are closed: anything but the status query, a read of the
    response, and the reports of a bad status or of a failed read. *)
Definition before_status (e : event) : Prop :=
  match e with
  | Called_WinHttpQueryHeaders _ => False
  | Called_WinHttpReadData _ => False
  | LOG_ERROR_HTTP_status _ => False
  | LOG_ERROR_WinHttpMessage extra =>
      extra <> "WinHttpReadData"%string /\
      extra <> "WinHttpQueryHeaders"%string
  | _ => True
  end.

(** The events of the steps that lead to an open request handle, and of
    the closing of the handles. *)
Definition setup_event (e : event) : Prop :=
  match e with
  | Called_WinHttpOpen => True
  | Called_WinHttpSetTimeouts _ => True
  | Called_WinHttpCrackUrl _ => True
  | Called_WinHttpConnect _ _ => True
  | Called_WinHttpOpenRequest _ _ _ => True
  | Called_WinHttpCloseHandle _ => True
  | LOG_ERROR_WinHttpMessage extra =>
      In extra ["WinHttpOpen"; "WinHttpSetTimeouts"; "WinHttpCrackUrl";
                "WinHttpConnect"; "WinHttpOpenRequest";
                "WinHttpCloseHandle"]%string
  | _ => False
  end.

Definition closing_event (e : event) : Prop :=
  match e with
  | Called_WinHttpCloseHandle _ => True
  | LOG_ERROR_WinHttpMessage extra => extra = "WinHttpCloseHandle"%string
  | _ => False
  end.

(** The events of the loop that reads the response body. *)
Definition read_event (e : event) : Prop :=
  match e with
  | Called_WinHttpReadData _ => True
  | LOG_ERROR_WinHttpMessage extra => extra = "WinHttpReadData"%string
  | _ => False
  end.

(** The answers a log of events holds to the status query. *)
Fixpoint status_codes (t : list event) : list (option Z) :=
  match t with
  | [] => []
  | Called_WinHttpQueryHeaders status_code :: rest =>
      status_code :: status_codes rest
  | _ :: rest => status_codes rest
  end.

(** How the steps from [WinHttpReceiveResponse] on can go, for a caller's
    string [rb] and a script of response reads: the events they add, the
    result, and the caller's string afterwards. *)
Inductive response_outcome (rb : option (list byte))
                           (script : list (option (list byte)))
  : list event -> result unit -> option (list byte) -> Prop :=
| receive_failed :
    response_outcome rb script
      [Called_WinHttpReceiveResponse;
       LOG_ERROR_WinHttpMessage "WinHttpReceiveResponse"]
      (Return false) rb
| status_query_failed :
    response_outcome rb script
      [Called_WinHttpReceiveResponse;
       Called_WinHttpQueryHeaders None;
       LOG_ERROR_WinHttpMessage "WinHttpQueryHeaders"]
      (Return false) rb
| status_not_200 (status_code : Z) :
    status_code <> 200 ->
    response_outcome rb script
      [Called_WinHttpReceiveResponse;
       Called_WinHttpQueryHeaders (Some status_code);
       LOG_ERROR_HTTP_status status_code]
      (Return false) rb
| status_200_no_capture :
    rb = None ->
    response_outcome rb script
      [Called_WinHttpReceiveResponse; Called_WinHttpQueryHeaders (Some 200)]
      (Return true) None
| status_200_body_read (s : list byte) (reads : list event) :
    rb = Some s ->
    Forall read_event reads ->
    readable script = true ->
    ~ In (LOG_ERROR_WinHttpMessage "WinHttpReadData") reads ->
    response_outcome rb script
      (Called_WinHttpReceiveResponse
       :: Called_WinHttpQueryHeaders (Some 200) :: reads)
      (Return true) (Some (received_bytes reads))
| status_200_read_failed (s : list byte) (reads : list event) :
    rb = Some s ->
    Forall read_event reads ->
    readable script = false ->
    In (LOG_ERROR_WinHttpMessage "WinHttpReadData") reads ->
    response_outcome rb script
      (Called_WinHttpReceiveResponse
       :: Called_WinHttpQueryHeaders (Some 200) :: reads)
      (Return false) (Some (received_bytes reads)).

(** Header lines short enough for the DWORD their length is cast to. *)
Definition lines_fit (hs : list (string * string)) : Prop :=
  Forall (fun h => Z.of_nat (String.length (header_string_of h))
                   <= UINT32_MAX) hs.

(** A WinHTTP that accepts every header line. *)
Definition accepts_every_header (wh : WinHttp) : Prop :=
  forall (h : list event) (line : string),
    WinHttpAddRequestHeaders_result wh h line = true.

(** A WinHTTP that carries a request through to the status query: no step
    before the query fails, and the URL it cracks is of the HTTP or the
    HTTPS scheme. *)
Definition serves_request (wh : WinHttp) : Prop :=
  (forall h, WinHttpOpen_result wh h = true) /\
  (forall h, WinHttpSetTimeouts_result wh h = true) /\
  (forall h u, exists uc,
      WinHttpCrackUrl_result wh h u = Some uc /\
      (nScheme uc = INTERNET_SCHEME_HTTP \/
       nScheme uc = INTERNET_SCHEME_HTTPS)) /\
  (forall h, WinHttpConnect_result wh h = true) /\
  (forall h, WinHttpOpenRequest_result wh h = true) /\
  accepts_every_header wh /\
  (forall h, WinHttpSendRequest_result wh h = true) /\
  takes_every_write wh /\
  (forall h, WinHttpReceiveResponse_result wh h = true).

(** The request without its Content-Length entry. *)
Definition without_content_length (this : HTTPTransport) : HTTPTransport :=
  {| url := url this;
     method := method this;
     timeout := timeout this;
     headers := filter (fun h => negb (is_content_length h)) (headers this);
     body_stream := body_stream this |}.

(** ** Handles, reports and phases in a log of events *)

(** The handles a log of events closed, in the order it closed them. *)
Fixpoint closed_handles (t : list event) : list HINTERNET :=
  match t with
  | [] => []
  | Called_WinHttpCloseHandle h :: rest => h :: closed_handles rest
  | _ :: rest => closed_handles rest
  end.

(** The handles a log of events acquired, in the order it acquired them:
    [WinHttpOpen], [WinHttpConnect] and [WinHttpOpenRequest] give a handle
    when WinHTTP, asked with what had happened [before], answers with one. *)
Fixpoint acquired_handles (wh : WinHttp) (before t : list event)
  : list HINTERNET :=
  match t with
  | [] => []
  | e :: rest =>
      match e with
      | Called_WinHttpOpen =>
          if WinHttpOpen_result wh before then [session] else []
      | Called_WinHttpConnect _ _ =>
          if WinHttpConnect_result wh before then [connect] else []
      | Called_WinHttpOpenRequest _ _ _ =>
          if WinHttpOpenRequest_result wh before then [request] else []
      | _ => []
      end ++ acquired_handles wh (before ++ [e]) rest
  end.

(** The events that close the handles [hs] at the end of a call with result
    [r]: the destructors run on a [return], not on a fatal stop. *)
Definition closes (r : result unit) (hs : list HINTERNET)
                  (evs : list event) : Prop :=
  match r with
  | Fatal _ => evs = []
  | _ => Forall closing_event evs /\ closed_handles evs = hs
  end.

(** The events of the steps that lead to an open request handle: the five
    calls, and the report of the one that failed. *)
Definition opening_event (e : event) : Prop :=
  match e with
  | Called_WinHttpOpen => True
  | Called_WinHttpSetTimeouts _ => True
  | Called_WinHttpCrackUrl _ => True
  | Called_WinHttpConnect _ _ => True
  | Called_WinHttpOpenRequest _ _ _ => True
  | LOG_ERROR_WinHttpMessage extra =>
      In extra ["WinHttpOpen"; "WinHttpSetTimeouts"; "WinHttpCrackUrl";
                "WinHttpConnect"; "WinHttpOpenRequest"]%string
  | _ => False
  end.

(** An event that neither acquires nor closes a handle. *)
Definition handle_free (e : event) : Prop :=
  match e with
  | Called_WinHttpOpen => False
  | Called_WinHttpConnect _ _ => False
  | Called_WinHttpOpenRequest _ _ _ => False
  | Called_WinHttpCloseHandle _ => False
  | _ => True
  end.

(** An event that reports a failed step: a [LOG(ERROR)] other than that of a
    handle that would not close. *)
Definition failure_report (e : event) : Prop :=
  match e with
  | LOG_ERROR_WinHttpMessage extra => extra <> "WinHttpCloseHandle"%string
  | LOG_ERROR_HTTP_status _ => True
  | _ => False
  end.

(** A computation that stops at the first failure it reports: either it
    reports none, and then returns false only under the excuse [F], or it
    returns false and the report is followed by nothing but the closing of
    handles. *)
Definition aborts {A : Type} (F : Prop) (m : M A) : Prop :=
  forall (w : world) (r : result A) (w' : world),
    m w = (r, w') ->
    exists evs,
      trace w' = trace w ++ evs /\
      ((Forall (fun e => ~ failure_report e) evs /\ (r = Return false -> F))
       \/
       (r = Return false /\
        exists pre e post,
          evs = pre ++ e :: post /\
          Forall (fun e => ~ failure_report e) pre /\
          failure_report e /\
          Forall closing_event post)).

(** The events of [WinHttpSendRequest]: the call, and the report of its
    failure. *)
Definition send_request_event (e : event) : Prop :=
  match e with
  | Called_WinHttpSendRequest _ => True
  | LOG_ERROR_WinHttpMessage extra => extra = "WinHttpSendRequest"%string
  | _ => False
  end.

(** The events of the steps from [WinHttpReceiveResponse] on. *)
Definition response_event (e : event) : Prop :=
  match e with
  | Called_WinHttpReceiveResponse => True
  | Called_WinHttpQueryHeaders _ => True
  | Called_WinHttpReadData _ => True
  | LOG_ERROR_HTTP_status _ => True
  | LOG_ERROR_WinHttpMessage extra =>
      In extra ["WinHttpReceiveResponse"; "WinHttpQueryHeaders";
                "WinHttpReadData"]%string
  | _ => False
  end.

(** The total lengths a log of events declared to [WinHttpSendRequest]. *)
Fixpoint declared_lengths (t : list event) : list Z :=
  match t with
  | [] => []
  | Called_WinHttpSendRequest total_length :: rest =>
      total_length :: declared_lengths rest
  | _ :: rest => declared_lengths rest
  end.

(** The bytes of a response body as its reads deliver it, up to the read
    of zero bytes (or the read that fails). *)
Fixpoint script_bytes (script : list (option (list byte))) : list byte :=
  match script with
  | [] => []
  | None :: _ => []
  | Some [] :: _ => []
  | Some bytes :: rest => bytes ++ script_bytes rest
  end.

(** The blocks the send loop writes for the reads of a body, the last
    read of zero bytes included. *)
Definition body_blocks (chunked : bool) (reads : list (list byte))
  : list (list byte) :=
  if chunked
  then map chunk_frame (reads_until_eof reads) ++ [terminal_chunk]
  else reads_until_eof reads.

(** The events of the set-up steps of a call, as far as they go when no
    step fails: up to the cracking of the URL, up to the connection, up to
    the opening of the request. *)
Definition cracked_events (this : HTTPTransport) : list event :=
  [Called_WinHttpOpen;
   Called_WinHttpSetTimeouts (timeout_in_ms_of (timeout this));
   Called_WinHttpCrackUrl (UTF8ToUTF16 (url this))].

Definition connected_events (this : HTTPTransport) (uc : URL_COMPONENTS)
  : list event :=
  cracked_events this
  ++ [Called_WinHttpConnect (lpszHostName uc) (nPort uc)].

Definition requested_events (this : HTTPTransport) (uc : URL_COMPONENTS)
  : list event :=
  connected_events this uc
  ++ [Called_WinHttpOpenRequest
        (UTF8ToUTF16 (method this)) (lpszUrlPath uc)
        (nScheme uc =? INTERNET_SCHEME_HTTPS)].

(** ** Collaborators to run the function with *)

(** A WinHTTP that never fails: it answers the given status code and the
    given response reads, and writes every block whole. *)
Definition willing_winhttp (status_code : Z)
                           (reads : list (option (list byte))) : WinHttp :=
  {| WinHttpOpen_result := fun _ => true;
     WinHttpSetTimeouts_result := fun _ => true;
     WinHttpCrackUrl_result := fun _ _ =>
       Some {| nScheme := INTERNET_SCHEME_HTTP;
               lpszHostName := "host";
               nPort := 80;
               lpszUrlPath := "/upload";
               lpszExtraInfo := "" |};
     WinHttpConnect_result := fun _ => true;
     WinHttpOpenRequest_result := fun _ => true;
     WinHttpAddRequestHeaders_result := fun _ _ => true;
     WinHttpSendRequest_result := fun _ => true;
     WinHttpWriteData_result := fun _ bytes => Some (Z.of_nat (length bytes));
     WinHttpReceiveResponse_result := fun _ => true;
     WinHttpQueryHeaders_result := fun _ => Some status_code;
     WinHttpCloseHandle_result := fun _ => true;
     WinHttpReadData_script := reads |}.

(** A WinHTTP that never fails either, but cracks every URL to one of the
    FTP scheme. *)
Definition INTERNET_SCHEME_FTP : Z := 3.

Definition ftp_winhttp : WinHttp :=
  {| WinHttpOpen_result := fun _ => true;
     WinHttpSetTimeouts_result := fun _ => true;
     WinHttpCrackUrl_result := fun _ _ =>
       Some {| nScheme := INTERNET_SCHEME_FTP;
               lpszHostName := "host";
               nPort := 21;
               lpszUrlPath := "/upload";
               lpszExtraInfo := "" |};
     WinHttpConnect_result := fun _ => true;
     WinHttpOpenRequest_result := fun _ => true;
     WinHttpAddRequestHeaders_result := fun _ _ => true;
     WinHttpSendRequest_result := fun _ => true;
     WinHttpWriteData_result := fun _ bytes => Some (Z.of_nat (length bytes));
     WinHttpReceiveResponse_result := fun _ => true;
     WinHttpQueryHeaders_result := fun _ => Some 200;
     WinHttpCloseHandle_result := fun _ => true;
     WinHttpReadData_script := [] |}.

(** A conversion that accepts plain decimal numerals. *)
Fixpoint decimal_value (acc : N) (s : string) : option N :=
  match s with
  | EmptyString => Some acc
  | String c rest =>
      let n := N_of_ascii c in
      if ((48 <=? n) && (n <=? 57))%N
      then decimal_value (acc * 10 + (n - 48))%N rest
      else None
  end.

Definition decimal_StringToSizeT (s : string) : option N :=
  match s with
  | EmptyString => None
  | _ => decimal_value 0%N s
  end.

Definition upload (hs : list (string * string)) (body : list read_result)
  : HTTPTransport :=
  {| url := "http://host/upload";
     method := "POST";
     timeout := 15%float;
     headers := hs;
     body_stream := body |}.

Definition blank_stack : list byte := repeat NUL (Z.to_nat sizeof_buf).

Definition sample_world : world := initial_world blank_stack None.

Definition sample_reads : list (list byte) := [["h"; "i"]; ["!"]]%byte.

Definition sample_block : list byte := repeat "x"%byte 26.

Definition sample_headers : list (string * string) :=
  [("Content-Length", "10"); ("Content-Type", "text/plain")]%string.

Definition lowercase_headers : list (string * string) :=
  [("content-length", "10")]%string.

Definition unconverted_headers : list (string * string) :=
  [("Content-Length", "abc")]%string.

(** ** The function *)

Section ExecuteSynchronously.

(** Whether DCHECKs are compiled in (debug builds) or compiled out. *)
Variable DCHECK_IS_ON : bool.

(** [base::StringToSizeT]: [Some n] when it returns [true] and stores [n],
    [None] when it returns [false].  What it stores when it fails is never
    read: [content_length] is used only when [chunked] is [false], that
    is, after a conversion that succeeded. *)
Variable StringToSizeT : string -> option N.

(** The width of [size_t], in bits. *)
Variable size_t_bits : Z.

Variable winhttp : WinHttp.

Definition DCHECK (c : bool) : M unit :=
  if DCHECK_IS_ON then (if c then ret tt else stop check_failed) else ret tt.

Definition WinHttpOpen : M bool :=
  h <- history ;;
  emit Called_WinHttpOpen ;;
  ret (WinHttpOpen_result winhttp h).

Definition WinHttpSetTimeouts (timeout_in_ms : Z) : M bool :=
  h <- history ;;
  emit (Called_WinHttpSetTimeouts timeout_in_ms) ;;
  ret (WinHttpSetTimeouts_result winhttp h).

Definition WinHttpCrackUrl (url_wide : string) : M (option URL_COMPONENTS) :=
  h <- history ;;
  emit (Called_WinHttpCrackUrl url_wide) ;;
  ret (WinHttpCrackUrl_result winhttp h url_wide).

Definition WinHttpConnect (host_name : string) (port : Z) : M bool :=
  h <- history ;;
  emit (Called_WinHttpConnect host_name port) ;;
  ret (WinHttpConnect_result winhttp h).

Definition WinHttpOpenRequest (verb url_path : string) (secure : bool)
  : M bool :=
  h <- history ;;
  emit (Called_WinHttpOpenRequest verb url_path secure) ;;
  ret (WinHttpOpenRequest_result winhttp h).

Definition WinHttpAddRequestHeaders (header_string : string) : M bool :=
  h <- history ;;
  emit (Called_WinHttpAddRequestHeaders header_string) ;;
  ret (WinHttpAddRequestHeaders_result winhttp h header_string).

Definition WinHttpSendRequest (total_length : Z) : M bool :=
  h <- history ;;
  emit (Called_WinHttpSendRequest total_length) ;;
  ret (WinHttpSendRequest_result winhttp h).

Definition WinHttpWriteData (bytes : list byte) : M (option Z) :=
  h <- history ;;
  emit (Called_WinHttpWriteData bytes) ;;
  ret (WinHttpWriteData_result winhttp h bytes).

Definition WinHttpReceiveResponse : M bool :=
  h <- history ;;
  emit Called_WinHttpReceiveResponse ;;
  ret (WinHttpReceiveResponse_result winhttp h).

Definition WinHttpQueryHeaders : M (option Z) :=
  h <- history ;;
  let status_code := WinHttpQueryHeaders_result winhttp h in
  emit (Called_WinHttpQueryHeaders status_code) ;;
  ret status_code.

Definition WinHttpReadData (r : option (list byte)) : M (option (list byte)) :=
  emit (Called_WinHttpReadData r) ;;
  ret r.

(** [ScopedHINTERNET]: the handle is closed, and a failure to close it
    logged, when the scope is left by [return]; a fatal stop runs no
    destructor. *)
Definition ScopedHINTERNETTraits_Free (h : HINTERNET) : M unit :=
  hist <- history ;;
  emit (Called_WinHttpCloseHandle h) ;;
  if negb (WinHttpCloseHandle_result winhttp hist)
  then LOG_ERROR "WinHttpCloseHandle"
  else ret tt.

Definition ScopedHINTERNET {A : Type} (h : HINTERNET) (body : M A) : M A :=
  fun w =>
    match body w with
    | (Fatal f, w') => (Fatal f, w')
    | (r, w') => (r, snd (ScopedHINTERNETTraits_Free h w'))
    end.

(** *** Add headers to the request (lines 170-188)

    [for (const auto& pair : headers())]: the Content-Length entry is kept
    back and decides [chunked]; every other entry is added as a header
    line. *)
Fixpoint add_headers (hs : list (string * string))
                     (chunked : bool) (content_length : Z) : M (bool * Z) :=
  match hs with
  | [] => ret (chunked, content_length)
  | header :: rest =>
      if String.eqb (fst header) kContentLength then
        let converted := StringToSizeT (snd header) in
        let chunked' := match converted with
                        | Some _ => false
                        | None => true
                        end in
        let content_length' := match converted with
                               | Some n => Z.of_N n
                               | None => content_length
                               end in
        DCHECK (negb chunked') ;;
        add_headers rest chunked' content_length'
      else
        let header_string := header_string_of header in
        size <- checked_cast_uint32
                  (Z.of_nat (String.length header_string)) ;;
        ok <- WinHttpAddRequestHeaders header_string ;;
        if negb ok then
          LOG_ERROR "WinHttpAddRequestHeaders" ;;
          return_ false
        else add_headers rest chunked content_length
  end.

(** Lines 190-205: the Transfer-Encoding header in chunked mode, and the
    total length [WinHttpSendRequest] is given. *)
Definition AssignIfInRange_DWORD (source : Z) : option Z :=
  if (0 <=? source) && (source <=? UINT32_MAX) then Some source else None.

Definition declare_length (chunked : bool) (content_length : Z) : M Z :=
  if chunked then
    size <- checked_cast_uint32
              (Z.of_nat (String.length kTransferEncodingHeader)) ;;
    ok <- WinHttpAddRequestHeaders kTransferEncodingHeader ;;
    if negb ok then
      LOG_ERROR "WinHttpAddRequestHeaders" ;;
      return_ false
    else ret WINHTTP_IGNORE_REQUEST_TOTAL_LENGTH
  else
    match AssignIfInRange_DWORD content_length with
    | Some content_length_dword => ret content_length_dword
    | None => ret WINHTTP_IGNORE_REQUEST_TOTAL_LENGTH
    end.

(** Lines 170-205 together: the transfer mode ([chunked],
    [content_length]) and the length declared to WinHTTP. *)
Definition attach_headers (hs : list (string * string)) : M (bool * Z * Z) :=
  mode <- add_headers hs true 0 ;;
  let '(chunked, content_length) := mode in
  content_length_dword <- declare_length chunked content_length ;;
  ret (chunked, content_length, content_length_dword).

(** *** The body of the send loop (lines 221-293) *)

(** [body_stream()->GetBytesBuffer(buf.data, sizeof(buf.data))]: the stream
    copies its bytes to [buf.data] and returns their number, or [-1]. *)
Definition GetBytesBuffer (r : read_result) (buffer : Z) : M Z :=
  match r with
  | read_failed => ret (-1)
  | read_bytes data => store buffer data ;; ret (Z.of_nat (length data))
  end.

(** Lines 244-273: the chunk is framed in place.  The result is
    [(write_start, write_size)], [write_start] as an offset into [buf]. *)
Definition frame_chunk (data_bytes : Z) : M (Z * Z) :=
  data_bytes_ui <- checked_cast_uint32 data_bytes ;;
  let '(rv, digits) := _snprintf_08x sizeof_size data_bytes_ui in
  store offsetof_size digits ;;
  DCHECK (0 <=? rv) ;;
  DCHECK (rv =? sizeof_size) ;;
  b <- the_buf ;;
  DCHECK (negb (Byte.eqb (load b (offsetof_size + (sizeof_size - 1))) NUL)) ;;
  store offsetof_crlf0 [CR] ;;
  store (offsetof_crlf0 + 1) [LF] ;;
  store (offsetof_data + data_bytes) [CR] ;;
  store (offsetof_data + (data_bytes + 1)) [LF] ;;
  b <- the_buf ;;
  let size_len :=
    Z.of_nat (skip_leading_zeroes (Z.to_nat sizeof_size) b) in
  write_size <- checked_cast_uint32
                  (size_len + sizeof_crlf0 + data_bytes + sizeof_crlf1) ;;
  ret (offsetof_crlf0 - size_len, write_size).

(** Lines 274-278: without chunked encoding only [buf.data] is used. *)
Definition frame_identity (data_bytes : Z) : M (Z * Z) :=
  write_size <- checked_cast_uint32 data_bytes ;;
  ret (offsetof_data, write_size).

(** Lines 280-293: the write, skipped when there is nothing to write. *)
Definition write_range (write_start write_size : Z) : M unit :=
  if negb (write_size =? 0) then
    b <- the_buf ;;
    written <- WinHttpWriteData (sub_bytes b write_start write_size) ;;
    match written with
    | None =>
        LOG_ERROR "WinHttpWriteData" ;;
        return_ false
    | Some written =>
        DCHECK (written =? write_size) ;;
        total <- get_total_written ;;
        set_total_written ((total + written) mod 2 ^ size_t_bits)
    end
  else ret tt.

(** What the write of a block [payload] comes to, in one step: the call is
    logged; a failed call is reported and ends the function; a short count
    trips the DCHECK; otherwise the count is added to [total_written]. *)
Definition one_write (w : world) (payload : list byte) : result unit * world :=
  let w1 := set_trace w (trace w ++ [Called_WinHttpWriteData payload]) in
  match WinHttpWriteData_result winhttp (trace w) payload with
  | None =>
      (Return false,
       set_trace w1
         (trace w1 ++ [LOG_ERROR_WinHttpMessage "WinHttpWriteData"]))
  | Some written =>
      if DCHECK_IS_ON && negb (written =? Z.of_nat (length payload))
      then (Fatal check_failed, w1)
      else (Continue tt,
            set_total w1 ((total_written w + written) mod 2 ^ size_t_bits))
  end.

(** One pass through the loop body, for the read the stream answers with;
    the result is [data_bytes], which the loop condition tests. *)
Definition send_block (chunked : bool) (r : read_result) : M Z :=
  data_bytes <- GetBytesBuffer r offsetof_data ;;
  if data_bytes =? -1 then return_ false
  else
    DCHECK (0 <=? data_bytes) ;;
    DCHECK (data_bytes <=? sizeof_data) ;;
    range <- (if chunked then frame_chunk data_bytes
              else frame_identity data_bytes) ;;
    let '(write_start, write_size) := range in
    write_range write_start write_size ;;
    ret data_bytes.

(** [do { ... } while (data_bytes > 0)] over the reads of the stream; a
    stream whose script is used up answers [0]. *)
Fixpoint send_loop (chunked : bool) (stream : list read_result) : M unit :=
  match stream with
  | [] =>
      send_block chunked (read_bytes []) ;;
      ret tt
  | r :: rest =>
      data_bytes <- send_block chunked r ;;
      if data_bytes >? 0 then send_loop chunked rest else ret tt
  end.

(** Lines 218-298: the loop and the check that follows it. *)
Definition send_body (chunked : bool) (content_length : Z)
                     (stream : list read_result) : M unit :=
  set_total_written 0 ;;
  send_loop chunked stream ;;
  if negb chunked then
    total_written <- get_total_written ;;
    DCHECK (total_written =? content_length)
  else ret tt.

(** *** Reading the response body (lines 331-341)

    [do { ... } while (bytes_read > 0)] over the reads WinHTTP answers. *)
Fixpoint read_loop (script : list (option (list byte))) : M unit :=
  match script with
  | [] =>
      r <- WinHttpReadData (Some []) ;;
      match r with
      | None =>
          LOG_ERROR "WinHttpReadData" ;;
          return_ false
      | Some read_buffer => response_body_append read_buffer
      end
  | r :: rest =>
      r <- WinHttpReadData r ;;
      match r with
      | None =>
          LOG_ERROR "WinHttpReadData" ;;
          return_ false
      | Some read_buffer =>
          response_body_append read_buffer ;;
          if Z.of_nat (length read_buffer) >? 0 then read_loop rest
          else ret tt
      end
  end.

(** Lines 300-344: the response. *)
Definition receive_response : M unit :=
  ok <- WinHttpReceiveResponse ;;
  if negb ok then
    LOG_ERROR "WinHttpReceiveResponse" ;;
    return_ false
  else
    status <- WinHttpQueryHeaders ;;
    match status with
    | None =>
        LOG_ERROR "WinHttpQueryHeaders" ;;
        return_ false
    | Some status_code =>
        if negb (status_code =? 200) then
          emit (LOG_ERROR_HTTP_status status_code) ;;
          return_ false
        else
          null <- response_body_is_null ;;
          (if negb null then
             response_body_clear ;;
             read_loop (WinHttpReadData_script winhttp)
           else ret tt) ;;
          return_ true
    end.

(** Lines 160-344: what is done with the request handle, once it is
    open. *)
Definition request_steps (this : HTTPTransport) : M unit :=
  plan <- attach_headers (headers this) ;;
  let '(chunked, content_length, content_length_dword) := plan in
  ok <- WinHttpSendRequest content_length_dword ;;
  if negb ok then
    LOG_ERROR "WinHttpSendRequest" ;;
    return_ false
  else
    send_body chunked content_length (body_stream this) ;;
    receive_response.

(** *** [bool HTTPTransportWin::ExecuteSynchronously(std::string*
    response_body)] (lines 95-345) *)
Definition ExecuteSynchronously (this : HTTPTransport) : M unit :=
  ok <- WinHttpOpen ;;
  if negb ok then
    LOG_ERROR "WinHttpOpen" ;;
    return_ false
  else ScopedHINTERNET session (
    let timeout_in_ms := timeout_in_ms_of (timeout this) in
    ok <- WinHttpSetTimeouts timeout_in_ms ;;
    if negb ok then
      LOG_ERROR "WinHttpSetTimeouts" ;;
      return_ false
    else
      let url_wide := UTF8ToUTF16 (url this) in
      cracked <- WinHttpCrackUrl url_wide ;;
      match cracked with
      | None =>
          LOG_ERROR "WinHttpCrackUrl" ;;
          return_ false
      | Some url_components =>
          DCHECK ((nScheme url_components =? INTERNET_SCHEME_HTTP)
                  || (nScheme url_components =? INTERNET_SCHEME_HTTPS)) ;;
          let host_name := lpszHostName url_components in
          let url_path := lpszUrlPath url_components in
          let extra_info := lpszExtraInfo url_components in
          ok <- WinHttpConnect host_name (nPort url_components) ;;
          if negb ok then
            LOG_ERROR "WinHttpConnect" ;;
            return_ false
          else ScopedHINTERNET connect (
            ok <- WinHttpOpenRequest
                    (UTF8ToUTF16 (method this)) url_path
                    (nScheme url_components =? INTERNET_SCHEME_HTTPS) ;;
            if negb ok then
              LOG_ERROR "WinHttpOpenRequest" ;;
              return_ false
            else ScopedHINTERNET request (request_steps this))
      end).


(** [total_written] after a run of writes, with the wrap-around of
    [size_t]. *)
Definition total_after (start : Z) (blocks : list (list byte)) : Z :=
  fold_left (fun t b => (t + Z.of_nat (length b)) mod 2 ^ size_t_bits)
            blocks start.

(** The transfer mode the header loop ends with, as a function of the
    entries alone. *)
Fixpoint mode_after (hs : list (string * string))
                    (chunked : bool) (content_length : Z) : bool * Z :=
  match hs with
  | [] => (chunked, content_length)
  | header :: rest =>
      if is_content_length header then
        match StringToSizeT (snd header) with
        | Some n => mode_after rest false (Z.of_N n)
        | None => mode_after rest true content_length
        end
      else mode_after rest chunked content_length
  end.

(** Every Content-Length value among the entries converts. *)
Definition lengths_convert (hs : list (string * string)) : Prop :=
  Forall (fun h => is_content_length h = true ->
                   StringToSizeT (snd h) <> None) hs.

(** A request the checks of the function let through: its header lines are
    short enough for the DWORD their length is cast to, its body stream
    fails no read and delivers at most [sizeof(buf.data)] bytes a read, and,
    for a build with DCHECKs, a Content-Length among its headers converts
    and is the number of bytes the body comes to. *)
Definition passes_checks (this : HTTPTransport) (reads : list (list byte))
  : Prop :=
  lines_fit (headers this) /\
  body_stream this = map read_bytes reads /\
  Forall (fun d => Z.of_nat (length d) <= sizeof_data) reads /\
  (DCHECK_IS_ON = true ->
   lengths_convert (headers this) /\
   (fst (mode_after (headers this) true 0) = false ->
    total_after 0 (reads_until_eof reads)
    = snd (mode_after (headers this) true 0))).

(** A computation that only adds events satisfying [P] to the log, leaves
    [response_body] alone and does not end the function with
    [return true]. *)
Definition quiet {A : Type} (P : event -> Prop) (m : M A) : Prop :=
  forall (w : world) (r : result A) (w' : world),
    m w = (r, w') ->
    r <> Return true /\
    response_body w' = response_body w /\
    exists evs, trace w' = trace w ++ evs /\ Forall P evs.

(** The total length [WinHttpSendRequest] is to be given for a set of
    headers (lines 190-205): the Content-Length when there is one and it
    fits a DWORD, and otherwise the sign to ignore the total length. *)
Definition length_to_declare (hs : list (string * string)) : Z :=
  let '(chunked, content_length) := mode_after hs true 0 in
  if chunked then WINHTTP_IGNORE_REQUEST_TOTAL_LENGTH
  else match AssignIfInRange_DWORD content_length with
       | Some content_length_dword => content_length_dword
       | None => WINHTTP_IGNORE_REQUEST_TOTAL_LENGTH
       end.

(** A computation that leaves the stack buffer as it is. *)
Definition keeps_buf {A : Type} (m : M A) : Prop :=
  forall (w : world) (r : result A) (w' : world),
    m w = (r, w') -> buf w' = buf w.

(** How a call started in [w] can end: at the step of the set-up that
    fails, with the handles acquired until then closed, or as the request
    steps end, with all three handles closed behind them. *)
Inductive call_ends (this : HTTPTransport) (w : world)
  : result unit -> world -> Prop :=
| ends_at_open (w' : world) :
    WinHttpOpen_result winhttp (trace w) = false ->
    trace w' = trace w ++ [Called_WinHttpOpen;
                           LOG_ERROR_WinHttpMessage "WinHttpOpen"] ->
    response_body w' = response_body w ->
    call_ends this w (Return false) w'
| ends_at_timeouts (w' : world) (closing : list event) :
    WinHttpOpen_result winhttp (trace w) = true ->
    WinHttpSetTimeouts_result winhttp (trace w ++ [Called_WinHttpOpen])
    = false ->
    trace w' = trace w
               ++ [Called_WinHttpOpen;
                   Called_WinHttpSetTimeouts
                     (timeout_in_ms_of (timeout this));
                   LOG_ERROR_WinHttpMessage "WinHttpSetTimeouts"]
               ++ closing ->
    closes (Return false) [session] closing ->
    response_body w' = response_body w ->
    call_ends this w (Return false) w'
| ends_at_crack (w' : world) (closing : list event) :
    WinHttpOpen_result winhttp (trace w) = true ->
    trace w' = trace w ++ cracked_events this
               ++ [LOG_ERROR_WinHttpMessage "WinHttpCrackUrl"] ++ closing ->
    closes (Return false) [session] closing ->
    response_body w' = response_body w ->
    WinHttpSetTimeouts_result winhttp (trace w ++ [Called_WinHttpOpen])
    = true ->
    WinHttpCrackUrl_result winhttp
      (trace w ++ [Called_WinHttpOpen;
                   Called_WinHttpSetTimeouts
                     (timeout_in_ms_of (timeout this))])
      (UTF8ToUTF16 (url this)) = None ->
    call_ends this w (Return false) w'
| ends_at_scheme (w' : world) (uc : URL_COMPONENTS) :
    WinHttpOpen_result winhttp (trace w) = true ->
    DCHECK_IS_ON = true ->
    nScheme uc <> INTERNET_SCHEME_HTTP ->
    nScheme uc <> INTERNET_SCHEME_HTTPS ->
    trace w' = trace w ++ cracked_events this ->
    response_body w' = response_body w ->
    WinHttpSetTimeouts_result winhttp (trace w ++ [Called_WinHttpOpen])
    = true ->
    WinHttpCrackUrl_result winhttp
      (trace w ++ [Called_WinHttpOpen;
                   Called_WinHttpSetTimeouts
                     (timeout_in_ms_of (timeout this))])
      (UTF8ToUTF16 (url this)) = Some uc ->
    call_ends this w (Fatal check_failed) w'
| ends_at_connect (w' : world) (uc : URL_COMPONENTS)
                  (closing : list event) :
    WinHttpOpen_result winhttp (trace w) = true ->
    WinHttpCrackUrl_result winhttp
      (trace w ++ [Called_WinHttpOpen;
                   Called_WinHttpSetTimeouts
                     (timeout_in_ms_of (timeout this))])
      (UTF8ToUTF16 (url this)) = Some uc ->
    WinHttpConnect_result winhttp (trace w ++ cracked_events this) = false ->
    trace w' = trace w ++ connected_events this uc
               ++ [LOG_ERROR_WinHttpMessage "WinHttpConnect"] ++ closing ->
    closes (Return false) [session] closing ->
    response_body w' = response_body w ->
    (DCHECK_IS_ON = true ->
     nScheme uc = INTERNET_SCHEME_HTTP \/
     nScheme uc = INTERNET_SCHEME_HTTPS) ->
    call_ends this w (Return false) w'
| ends_at_open_request (w' : world) (uc : URL_COMPONENTS)
                       (closing : list event) :
    WinHttpOpen_result winhttp (trace w) = true ->
    WinHttpCrackUrl_result winhttp
      (trace w ++ [Called_WinHttpOpen;
                   Called_WinHttpSetTimeouts
                     (timeout_in_ms_of (timeout this))])
      (UTF8ToUTF16 (url this)) = Some uc ->
    WinHttpConnect_result winhttp (trace w ++ cracked_events this) = true ->
    WinHttpOpenRequest_result winhttp (trace w ++ connected_events this uc)
    = false ->
    trace w' = trace w ++ requested_events this uc
               ++ [LOG_ERROR_WinHttpMessage "WinHttpOpenRequest"]
               ++ closing ->
    closes (Return false) [connect; session] closing ->
    response_body w' = response_body w ->
    (DCHECK_IS_ON = true ->
     nScheme uc = INTERNET_SCHEME_HTTP \/
     nScheme uc = INTERNET_SCHEME_HTTPS) ->
    call_ends this w (Return false) w'
| ends_in_request (r : result unit) (w2 w' : world) (uc : URL_COMPONENTS)
                  (closing : list event) :
    WinHttpOpen_result winhttp (trace w) = true ->
    WinHttpCrackUrl_result winhttp
      (trace w ++ [Called_WinHttpOpen;
                   Called_WinHttpSetTimeouts
                     (timeout_in_ms_of (timeout this))])
      (UTF8ToUTF16 (url this)) = Some uc ->
    WinHttpConnect_result winhttp (trace w ++ cracked_events this) = true ->
    WinHttpOpenRequest_result winhttp (trace w ++ connected_events this uc)
    = true ->
    request_steps this (set_trace w (trace w ++ requested_events this uc))
    = (r, w2) ->
    trace w' = trace w2 ++ closing ->
    closes r [request; connect; session] closing ->
    response_body w' = response_body w2 ->
    (DCHECK_IS_ON = true ->
     nScheme uc = INTERNET_SCHEME_HTTP \/
     nScheme uc = INTERNET_SCHEME_HTTPS) ->
    call_ends this w r w'.

(** ** Lists of bytes, cut in segments *)

Lemma store_bytes_seg (pre old new post : list byte) (off : Z) :
  off = Z.of_nat (length pre) ->
  length old = length new ->
  store_bytes (pre ++ old ++ post) off new = Some (pre ++ new ++ post).
Proof.
  intros -> Hlen. unfold store_bytes.
  rewrite !length_app, Nat2Z.id.
  replace ((0 <=? Z.of_nat (length pre)) &&
           (Z.of_nat (length pre) + Z.of_nat (length new) <=?
            Z.of_nat (length pre + (length old + length post))))
    with true by (symmetry; apply andb_true_iff; split; apply Z.leb_le; lia).
  f_equal.
  rewrite firstn_app, firstn_all, Nat.sub_diag, firstn_O, app_nil_r.
  f_equal. f_equal.
  rewrite skipn_app, skipn_all2 by lia.
  replace (length pre + length new - length pre)%nat with (length old) by lia.
  rewrite skipn_app, skipn_all, Nat.sub_diag. reflexivity.
Qed.

Lemma sub_bytes_seg (pre mid post : list byte) (start size : Z) :
  start = Z.of_nat (length pre) ->
  size = Z.of_nat (length mid) ->
  sub_bytes (pre ++ mid ++ post) start size = mid.
Proof.
  intros -> ->. unfold sub_bytes. rewrite !Nat2Z.id.
  rewrite skipn_app, skipn_all, Nat.sub_diag. cbn [skipn app].
  rewrite firstn_app, firstn_all, Nat.sub_diag, firstn_O, app_nil_r.
  reflexivity.
Qed.

Lemma load_seg (pre : list byte) (c : byte) (post : list byte) (off : Z) :
  off = Z.of_nat (length pre) ->
  load (pre ++ c :: post) off = c.
Proof.
  intros ->. unfold load. rewrite Nat2Z.id.
  rewrite app_nth2, Nat.sub_diag by lia. reflexivity.
Qed.

Lemma split_at (b : list byte) (n : nat) :
  (n <= length b)%nat ->
  exists l1 l2, b = l1 ++ l2 /\ length l1 = n.
Proof.
  intros Hn. exists (firstn n b), (skipn n b). split.
  - symmetry. apply firstn_skipn.
  - apply firstn_length_le. exact Hn.
Qed.

(** A buffer of the size of [buf] is its four fields in a row, the data
    field cut after [n] bytes. *)
Lemma buf_fields (b : list byte) (n : Z) :
  Z.of_nat (length b) = sizeof_buf ->
  0 <= n <= sizeof_data ->
  exists s0 c0 c1 d0 t0 t1 rest,
    b = s0 ++ [c0; c1] ++ d0 ++ [t0; t1] ++ rest /\
    Z.of_nat (length s0) = sizeof_size /\
    Z.of_nat (length d0) = n /\
    Z.of_nat (length rest) = sizeof_data - n.
Proof.
  unfold sizeof_buf, sizeof_size, sizeof_crlf0, sizeof_data, sizeof_crlf1.
  intros Hb Hn.
  destruct (split_at b 8) as (s0 & b1 & -> & Hs0); [lia|].
  rewrite length_app in Hb.
  destruct b1 as [|c0 [|c1 b2]]; cbn [length] in Hb; try lia.
  destruct (split_at b2 (Z.to_nat n)) as (d0 & b3 & -> & Hd0); [lia|].
  rewrite length_app in Hb.
  destruct b3 as [|t0 [|t1 rest]]; cbn [length] in Hb; try lia.
  exists s0, c0, c1, d0, t0, t1, rest. cbn [app].
  repeat split; lia.
Qed.

(** ** Hexadecimal digits *)

Lemma format_08x_digits_length (w : nat) (v : Z) :
  length (format_08x_digits w v) = w.
Proof.
  revert v. induction w as [|w IH]; intros v; cbn [format_08x_digits].
  - reflexivity.
  - rewrite length_app, IH. cbn [length]. lia.
Qed.

Lemma hex_digit_cases (d : Z) :
  0 <= d < 16 ->
  is_lower_hex (hex_digit d) = true /\
  hex_value (hex_digit d) = Some d /\
  hex_digit d <> NUL.
Proof.
  intros Hd.
  assert (H : d = 0 \/ d = 1 \/ d = 2 \/ d = 3 \/ d = 4 \/ d = 5 \/ d = 6 \/
              d = 7 \/ d = 8 \/ d = 9 \/ d = 10 \/ d = 11 \/ d = 12 \/
              d = 13 \/ d = 14 \/ d = 15) by lia.
  repeat (destruct H as [-> | H]; [repeat split; discriminate |]).
  subst d. repeat split; discriminate.
Qed.

Lemma hex_number_snoc (ds : list byte) (c : byte) :
  hex_number (ds ++ [c]) =
  hex_number ds * 16 + match hex_value c with Some d => d | None => 0 end.
Proof.
  unfold hex_number. rewrite fold_left_app. reflexivity.
Qed.

Lemma hex_number_leading_zero (ds : list byte) :
  hex_number (char_0 :: ds) = hex_number ds.
Proof. reflexivity. Qed.

Lemma hex_number_format (w : nat) (v : Z) :
  0 <= v ->
  hex_number (format_08x_digits w v) = v mod 16 ^ Z.of_nat w.
Proof.
  revert v. induction w as [|w IH]; intros v Hv.
  - cbn [format_08x_digits]. change (16 ^ Z.of_nat 0) with 1.
    rewrite Z.mod_1_r. reflexivity.
  - cbn [format_08x_digits]. rewrite hex_number_snoc.
    destruct (hex_digit_cases (v mod 16)) as (_ & -> & _).
    { apply Z.mod_pos_bound. lia. }
    rewrite IH by (apply Z.div_pos; lia).
    rewrite Nat2Z.inj_succ, Z.pow_succ_r by lia.
    rewrite Z.rem_mul_r by lia. lia.
Qed.

Lemma format_lower_hex (w : nat) (v : Z) :
  forallb is_lower_hex (format_08x_digits w v) = true.
Proof.
  revert v. induction w as [|w IH]; intros v; cbn [format_08x_digits].
  - reflexivity.
  - rewrite forallb_app, IH. cbn [forallb andb].
    destruct (hex_digit_cases (v mod 16)) as (-> & _).
    + apply Z.mod_pos_bound. lia.
    + reflexivity.
Qed.

Lemma format_08x_last_not_NUL (v : Z) (tail : list byte) :
  load (format_08x v ++ tail) (offsetof_size + (sizeof_size - 1)) <> NUL.
Proof.
  unfold format_08x.
  change (format_08x_digits 8 v)
    with (format_08x_digits 7 (v / 16) ++ [hex_digit (v mod 16)]).
  rewrite <- app_assoc. cbn [app].
  rewrite load_seg.
  - destruct (hex_digit_cases (v mod 16)) as (_ & _ & H); [|exact H].
    apply Z.mod_pos_bound. lia.
  - rewrite format_08x_digits_length. reflexivity.
Qed.

Lemma forallb_skipn {A : Type} (f : A -> bool) (k : nat) (l : list A) :
  forallb f l = true -> forallb f (skipn k l) = true.
Proof.
  revert l. induction k as [|k IH]; intros [|x l] H; cbn; auto.
  cbn in H. apply andb_true_iff in H. apply IH, H.
Qed.

Lemma skipn_nth_cons (k : nat) (l : list byte) :
  (k < length l)%nat ->
  skipn k l = nth k l NUL :: skipn (S k) l.
Proof.
  revert l. induction k as [|k IH]; intros [|x l] H; cbn [length] in H;
    try lia.
  - reflexivity.
  - cbn [nth]. rewrite !skipn_cons. apply IH. lia.
Qed.

(** ** The loop that skips leading zeroes *)

Lemma skip_leading_zeroes_step (m : nat) (b : list byte) :
  skip_leading_zeroes (S (S m)) b =
  if Byte.eqb (load b (offsetof_size + (sizeof_size - Z.of_nat (S (S m)))))
              char_0
  then skip_leading_zeroes (S m) b
  else S (S m).
Proof. reflexivity. Qed.

Lemma load_size_digit (ds tail : list byte) (k : nat) :
  length ds = 8%nat ->
  (1 <= k <= 8)%nat ->
  load (ds ++ tail) (offsetof_size + (sizeof_size - Z.of_nat k)) =
  nth (8 - k) ds NUL.
Proof.
  intros Hds Hk. unfold load, offsetof_size, sizeof_size.
  replace (Z.to_nat (0 + (8 - Z.of_nat k))) with (8 - k)%nat by lia.
  apply app_nth1. lia.
Qed.

Lemma skip_leading_zeroes_spec (ds tail : list byte) (k : nat) :
  length ds = 8%nat ->
  (1 <= k <= 8)%nat ->
  let r := skip_leading_zeroes k (ds ++ tail) in
  (1 <= r <= k)%nat /\
  hex_number (skipn (8 - r) ds) = hex_number (skipn (8 - k) ds) /\
  ((1 < r)%nat -> nth (8 - r) ds NUL <> char_0).
Proof.
  intros Hds. induction k as [|[|m] IH]; intros Hk.
  - lia.
  - cbn. repeat split; lia.
  - cbv zeta. rewrite skip_leading_zeroes_step.
    rewrite load_size_digit by (auto; lia).
    destruct (Byte.eqb (nth (8 - S (S m)) ds NUL) char_0) eqn:E.
    + destruct IH as (Hr & Hv & Hnz); [lia|].
      repeat split; try lia; [|exact Hnz].
      rewrite Hv.
      rewrite (skipn_nth_cons (8 - S (S m))) by lia.
      apply Byte.byte_dec_bl in E. rewrite E.
      rewrite hex_number_leading_zero. f_equal. f_equal. lia.
    + repeat split; try lia.
      intros _. apply Byte.eqb_false. exact E.
Qed.

Lemma skipped_are_zeroes (ds tail : list byte) (k : nat) :
  length ds = 8%nat ->
  (1 <= k <= 8)%nat ->
  forall i,
    (8 - k <= i < 8 - skip_leading_zeroes k (ds ++ tail))%nat ->
    nth i ds NUL = char_0.
Proof.
  intros Hds. induction k as [|[|m] IH]; intros Hk i Hi.
  - lia.
  - cbn in Hi. lia.
  - rewrite skip_leading_zeroes_step in Hi.
    rewrite load_size_digit in Hi by (auto; lia).
    destruct (Byte.eqb (nth (8 - S (S m)) ds NUL) char_0) eqn:E; [|lia].
    destruct (Nat.eq_dec i (8 - S (S m))) as [-> | Hne].
    + apply Byte.byte_dec_bl, E.
    + apply IH; lia.
Qed.

Lemma skip_leading_zeroes_ext (ds tail1 tail2 : list byte) (k : nat) :
  length ds = 8%nat ->
  (k <= 8)%nat ->
  skip_leading_zeroes k (ds ++ tail1) = skip_leading_zeroes k (ds ++ tail2).
Proof.
  intros Hds. induction k as [|[|m] IH]; intros Hk; try reflexivity.
  rewrite !skip_leading_zeroes_step.
  rewrite !load_size_digit by (auto; lia).
  rewrite IH by lia. reflexivity.
Qed.

Lemma skip_leading_zeroes_prefix (ds tail : list byte) (k : nat) :
  length ds = 8%nat ->
  (k <= 8)%nat ->
  skip_leading_zeroes k (ds ++ tail) = skip_leading_zeroes k ds.
Proof.
  intros Hds Hk.
  rewrite (skip_leading_zeroes_ext ds tail []) by assumption.
  rewrite app_nil_r. reflexivity.
Qed.

(** The emitted size field is the minimal hexadecimal numeral of the
    length. *)
Lemma chunk_size_field_length (n : Z) :
  length (chunk_size_field n) = skip_leading_zeroes 8 (format_08x n).
Proof.
  unfold chunk_size_field.
  pose proof (skip_leading_zeroes_spec (format_08x n) [] 8) as H.
  rewrite app_nil_r in H. cbv zeta in H.
  destruct H as (Hr & _); [apply format_08x_digits_length | lia |].
  rewrite length_skipn. unfold format_08x at 1.
  rewrite format_08x_digits_length. lia.
Qed.

Lemma chunk_size_field_minimal (n : Z) :
  0 <= n <= UINT32_MAX ->
  minimal_hex n (chunk_size_field n).
Proof.
  intros Hn.
  pose proof (chunk_size_field_length n) as Hlen.
  pose proof (skip_leading_zeroes_spec (format_08x n) [] 8) as H.
  rewrite app_nil_r in H. cbv zeta in H.
  destruct H as (Hr & Hv & Hnz); [apply format_08x_digits_length | lia |].
  unfold minimal_hex. rewrite Hlen. repeat split.
  - lia.
  - unfold chunk_size_field. apply forallb_skipn, format_lower_hex.
  - unfold chunk_size_field. rewrite Hv. cbn [Nat.sub skipn].
    unfold format_08x. rewrite hex_number_format by lia.
    apply Z.mod_small. unfold UINT32_MAX in Hn.
    change (16 ^ Z.of_nat 8) with (2 ^ 32). lia.
  - intros H1. unfold chunk_size_field.
    rewrite skipn_nth_cons.
    + cbn [hd]. apply Hnz, H1.
    + unfold format_08x at 2. rewrite format_08x_digits_length. lia.
Qed.

Lemma chunk_size_field_skips_zeroes (n : Z) :
  Forall (fun c => c = char_0)
         (firstn (8 - length (chunk_size_field n)) (format_08x n)).
Proof.
  assert (Hdig : length (format_08x n) = 8%nat)
    by apply format_08x_digits_length.
  apply Forall_forall. intros c Hin.
  apply (In_nth _ _ NUL) in Hin. destruct Hin as (i & Hi & <-).
  rewrite length_firstn in Hi. rewrite nth_firstn.
  replace (i <? 8 - length (chunk_size_field n))%nat with true
    by (symmetry; apply Nat.ltb_lt; lia).
  apply (skipped_are_zeroes (format_08x n) [] 8 Hdig); [lia|].
  rewrite app_nil_r, <- chunk_size_field_length. lia.
Qed.

(** ** Running the primitives *)

Lemma run_ret {A B : Type} (a : A) (k : A -> M B) (w : world) :
  bind (ret a) k w = k a w.
Proof. reflexivity. Qed.

Lemma run_bind_assoc {A B C : Type} (m : M A) (f : A -> M B) (g : B -> M C)
                     (w : world) :
  bind (bind m f) g w = bind m (fun a => bind (f a) g) w.
Proof. unfold bind. destruct (m w) as [[a|b|f0] w']; reflexivity. Qed.

Lemma run_DCHECK_true {B : Type} (k : unit -> M B) (w : world) :
  bind (DCHECK true) k w = k tt w.
Proof. unfold DCHECK. destruct DCHECK_IS_ON; reflexivity. Qed.

Lemma run_checked_cast_uint32 {B : Type} (v : Z) (k : Z -> M B) (w : world) :
  0 <= v <= UINT32_MAX ->
  bind (checked_cast_uint32 v) k w = k v w.
Proof.
  intros Hv. unfold checked_cast_uint32.
  replace ((0 <=? v) && (v <=? UINT32_MAX)) with true; [reflexivity|].
  symmetry. apply andb_true_iff. split; apply Z.leb_le; lia.
Qed.

Lemma run_the_buf {B : Type} (k : list byte -> M B) (w : world) :
  bind the_buf k w = k (buf w) w.
Proof. reflexivity. Qed.

Lemma run_store_seg {B : Type} (pre old new post : list byte) (off : Z)
                    (k : unit -> M B) (w : world) :
  buf w = pre ++ old ++ post ->
  off = Z.of_nat (length pre) ->
  length old = length new ->
  bind (store off new) k w = k tt (set_buf w (pre ++ new ++ post)).
Proof.
  intros Hb Hoff Hlen. unfold bind, store.
  rewrite Hb, (store_bytes_seg pre old new post off Hoff Hlen).
  reflexivity.
Qed.

Lemma _snprintf_08x_exact (v : Z) :
  _snprintf_08x sizeof_size v = (sizeof_size, format_08x v).
Proof.
  unfold _snprintf_08x, format_08x. rewrite format_08x_digits_length.
  reflexivity.
Qed.

(** ** The chunk framer (lines 244-273) *)

(** On a buffer whose data field holds [d0], the framer leaves the eight
    digits, CR LF, [d0], CR LF in the buffer, and hands the range from the
    first significant digit to the last LF to the write. *)
Lemma frame_chunk_run (w : world) (s0 d0 rest : list byte)
                      (c0 c1 t0 t1 : byte) (n : Z) :
  buf w = s0 ++ [c0; c1] ++ d0 ++ [t0; t1] ++ rest ->
  Z.of_nat (length s0) = sizeof_size ->
  Z.of_nat (length d0) = n ->
  n <= sizeof_data ->
  frame_chunk n w =
  (Continue (offsetof_crlf0 - Z.of_nat (length (chunk_size_field n)),
             Z.of_nat (length (chunk_size_field n))
             + sizeof_crlf0 + n + sizeof_crlf1),
   set_buf w (format_08x n ++ [CR; LF] ++ d0 ++ [CR; LF] ++ rest)).
Proof.
  intros Hb Hs0 Hd0 Hn.
  assert (Hdig : length (format_08x n) = 8%nat)
    by apply format_08x_digits_length.
  assert (Hn32 : 0 <= n <= UINT32_MAX)
    by (unfold UINT32_MAX, sizeof_data in *; lia).
  unfold frame_chunk.
  rewrite run_checked_cast_uint32 by exact Hn32.
  rewrite _snprintf_08x_exact.
  rewrite (run_store_seg [] s0 (format_08x n) ([c0; c1] ++ d0 ++ [t0; t1] ++ rest));
    [ | exact Hb | reflexivity | unfold sizeof_size in Hs0; lia ].
  cbn [app].
  rewrite run_DCHECK_true.
  change (sizeof_size =? sizeof_size) with true. rewrite run_DCHECK_true.
  rewrite run_the_buf. cbn [buf set_buf].
  replace (negb (Byte.eqb
             (load (format_08x n ++ c0 :: c1 :: d0 ++ t0 :: t1 :: rest)
                   (offsetof_size + (sizeof_size - 1))) NUL)) with true.
  2:{ symmetry. apply negb_true_iff.
      destruct (Byte.eqb _ NUL) eqn:E; [|reflexivity].
      apply Byte.byte_dec_bl in E.
      exfalso. exact (format_08x_last_not_NUL _ _ E). }
  rewrite run_DCHECK_true.
  rewrite (run_store_seg (format_08x n) [c0] [CR] (c1 :: d0 ++ t0 :: t1 :: rest));
    [ | reflexivity | rewrite Hdig; reflexivity | reflexivity ].
  rewrite (run_store_seg (format_08x n ++ [CR]) [c1] [LF]
             (d0 ++ t0 :: t1 :: rest));
    [ | cbn [buf set_buf]; rewrite <- app_assoc; reflexivity
      | rewrite length_app, Hdig; reflexivity | reflexivity ].
  rewrite (run_store_seg (format_08x n ++ [CR; LF] ++ d0) [t0] [CR]
             (t1 :: rest));
    [ | cbn [buf set_buf]; rewrite <- !app_assoc; reflexivity
      | rewrite !length_app, Hdig; cbn [length];
        unfold offsetof_data, offsetof_crlf0, offsetof_size, sizeof_size,
          sizeof_crlf0; lia
      | reflexivity ].
  rewrite (run_store_seg (format_08x n ++ [CR; LF] ++ d0 ++ [CR]) [t1] [LF]
             rest);
    [ | cbn [buf set_buf]; rewrite <- !app_assoc; reflexivity
      | rewrite !length_app, Hdig; cbn [length];
        unfold offsetof_data, offsetof_crlf0, offsetof_size, sizeof_size,
          sizeof_crlf0; lia
      | reflexivity ].
  rewrite run_the_buf. cbn [buf set_buf].
  change (Z.to_nat sizeof_size) with 8%nat.
  rewrite <- !app_assoc.
  rewrite skip_leading_zeroes_prefix by (auto; lia).
  rewrite <- chunk_size_field_length.
  pose proof (chunk_size_field_length n) as Hk.
  pose proof (skip_leading_zeroes_spec (format_08x n) [] 8 Hdig) as Hr.
  rewrite app_nil_r in Hr. cbv zeta in Hr.
  destruct Hr as (Hr & _); [lia|]. rewrite <- Hk in Hr.
  rewrite run_checked_cast_uint32.
  2:{ unfold UINT32_MAX, sizeof_crlf0, sizeof_crlf1, sizeof_data in *. lia. }
  unfold ret. f_equal.
Qed.

(** ** One pass of the send loop *)

Lemma write_range_run (w : world) (write_start write_size : Z)
                      (payload : list byte) :
  sub_bytes (buf w) write_start write_size = payload ->
  write_size = Z.of_nat (length payload) ->
  write_size <> 0 ->
  write_range write_start write_size w = one_write w payload.
Proof.
  intros Hp Hsize Hnz. unfold write_range, one_write.
  apply Z.eqb_neq in Hnz. rewrite Hnz. cbn [negb].
  unfold bind at 1. unfold the_buf. rewrite Hp.
  unfold WinHttpWriteData, bind, history, emit, ret. cbn [trace set_trace].
  destruct (WinHttpWriteData_result winhttp (trace w) payload) as [written|].
  - unfold DCHECK. rewrite <- Hsize.
    destruct DCHECK_IS_ON; cbn [andb].
    + destruct (written =? write_size); reflexivity.
    + reflexivity.
  - reflexivity.
Qed.

Lemma chunk_frame_in_buf (data rest : list byte) :
  let n := Z.of_nat (length data) in
  let k := Z.of_nat (length (chunk_size_field n)) in
  sub_bytes (format_08x n ++ [CR; LF] ++ data ++ [CR; LF] ++ rest)
            (offsetof_crlf0 - k) (k + sizeof_crlf0 + n + sizeof_crlf1)
  = chunk_frame data.
Proof.
  intros n k.
  assert (Hdig : length (format_08x n) = 8%nat)
    by apply format_08x_digits_length.
  pose proof (chunk_size_field_length n) as Hk.
  pose proof (skip_leading_zeroes_spec (format_08x n) [] 8 Hdig) as Hr.
  rewrite app_nil_r in Hr. cbv zeta in Hr.
  destruct Hr as (Hr & _); [lia|]. rewrite <- Hk in Hr.
  rewrite <- (firstn_skipn (8 - length (chunk_size_field n)) (format_08x n))
    at 1.
  fold (chunk_size_field n) in *.
  change (skipn (8 - skip_leading_zeroes 8 (format_08x n)) (format_08x n))
    with (chunk_size_field n).
  rewrite Hk at 2.
  change (skipn (8 - skip_leading_zeroes 8 (format_08x n)) (format_08x n))
    with (chunk_size_field n).
  rewrite <- app_assoc.
  replace (chunk_size_field n ++ [CR; LF] ++ data ++ [CR; LF] ++ rest)
    with (chunk_frame data ++ rest)
    by (unfold chunk_frame; fold n; rewrite <- !app_assoc; reflexivity).
  apply sub_bytes_seg.
  - rewrite firstn_length_le by lia.
    unfold offsetof_crlf0, offsetof_size, sizeof_size, k. lia.
  - unfold chunk_frame. fold n. rewrite !length_app. cbn [length].
    unfold k, n, sizeof_crlf0, sizeof_crlf1. lia.
Qed.

Lemma send_block_chunked_run (w : world) (data : list byte) :
  Z.of_nat (length (buf w)) = sizeof_buf ->
  Z.of_nat (length data) <= sizeof_data ->
  exists rest,
    Z.of_nat (length rest) = sizeof_data - Z.of_nat (length data) /\
    send_block true (read_bytes data) w =
    bind (fun w0 => one_write w0 (chunk_frame data))
         (fun _ => ret (Z.of_nat (length data)))
         (set_buf w (format_08x (Z.of_nat (length data)) ++ [CR; LF]
                     ++ data ++ [CR; LF] ++ rest)).
Proof.
  intros Hb Hn.
  destruct (buf_fields (buf w) (Z.of_nat (length data)) Hb)
    as (s0 & c0 & c1 & d0 & t0 & t1 & rest & Hbuf & Hs0 & Hd0 & Hrest);
    [lia|].
  exists rest. split; [exact Hrest|].
  unfold send_block, GetBytesBuffer.
  rewrite run_bind_assoc.
  rewrite (run_store_seg (s0 ++ [c0; c1]) d0 data ([t0; t1] ++ rest));
    [ | rewrite <- app_assoc; exact Hbuf
      | rewrite length_app; cbn [length];
        unfold offsetof_data, offsetof_crlf0, offsetof_size, sizeof_size,
          sizeof_crlf0 in *; lia
      | lia ].
  rewrite run_ret.
  replace (Z.of_nat (length data) =? -1) with false
    by (symmetry; apply Z.eqb_neq; lia).
  replace (0 <=? Z.of_nat (length data)) with true
    by (symmetry; apply Z.leb_le; lia).
  replace (Z.of_nat (length data) <=? sizeof_data) with true
    by (symmetry; apply Z.leb_le; lia).
  rewrite !run_DCHECK_true.
  unfold bind at 1.
  rewrite (frame_chunk_run _ s0 data rest c0 c1 t0 t1);
    [ | cbn [buf set_buf]; rewrite <- app_assoc; reflexivity
      | exact Hs0 | reflexivity | exact Hn ].
  unfold bind at 1.
  rewrite (write_range_run _ _ _ (chunk_frame data)).
  - reflexivity.
  - cbn [buf set_buf]. apply chunk_frame_in_buf.
  - unfold chunk_frame. rewrite !length_app. cbn [length].
    unfold sizeof_crlf0, sizeof_crlf1. lia.
  - unfold sizeof_crlf0, sizeof_crlf1. lia.
Qed.

Lemma send_block_identity_run (w : world) (data : list byte) :
  Z.of_nat (length (buf w)) = sizeof_buf ->
  Z.of_nat (length data) <= sizeof_data ->
  exists b,
    Z.of_nat (length b) = sizeof_buf /\
    send_block false (read_bytes data) w =
    match data with
    | [] => (Continue 0, set_buf w b)
    | _ => bind (fun w0 => one_write w0 data)
                (fun _ => ret (Z.of_nat (length data))) (set_buf w b)
    end.
Proof.
  intros Hb Hn.
  destruct (buf_fields (buf w) (Z.of_nat (length data)) Hb)
    as (s0 & c0 & c1 & d0 & t0 & t1 & rest & Hbuf & Hs0 & Hd0 & Hrest);
    [lia|].
  exists ((s0 ++ [c0; c1]) ++ data ++ [t0; t1] ++ rest). split.
  { rewrite Hbuf in Hb. rewrite !length_app in *. cbn [length] in *. lia. }
  unfold send_block, GetBytesBuffer.
  rewrite run_bind_assoc.
  rewrite (run_store_seg (s0 ++ [c0; c1]) d0 data ([t0; t1] ++ rest));
    [ | rewrite <- app_assoc; exact Hbuf
      | rewrite length_app; cbn [length];
        unfold offsetof_data, offsetof_crlf0, offsetof_size, sizeof_size,
          sizeof_crlf0 in *; lia
      | lia ].
  rewrite run_ret.
  replace (Z.of_nat (length data) =? -1) with false
    by (symmetry; apply Z.eqb_neq; lia).
  replace (0 <=? Z.of_nat (length data)) with true
    by (symmetry; apply Z.leb_le; lia).
  replace (Z.of_nat (length data) <=? sizeof_data) with true
    by (symmetry; apply Z.leb_le; lia).
  rewrite !run_DCHECK_true.
  unfold frame_identity. rewrite run_bind_assoc.
  rewrite run_checked_cast_uint32
    by (unfold UINT32_MAX, sizeof_data in *; lia).
  rewrite run_ret.
  destruct data as [|x data'].
  - reflexivity.
  - unfold bind at 1.
    rewrite (write_range_run _ _ _ (x :: data')).
    + reflexivity.
    + cbn [buf set_buf]. apply sub_bytes_seg.
      * rewrite length_app; cbn [length].
        unfold offsetof_data, offsetof_crlf0, offsetof_size, sizeof_size,
          sizeof_crlf0 in *; lia.
      * reflexivity.
    + reflexivity.
    + cbn [length]. lia.
Qed.

(** ** Reading the chunks back *)

Lemma lower_hex_value (c : byte) :
  is_lower_hex c = true -> exists d, hex_value c = Some d.
Proof.
  unfold is_lower_hex, hex_digits. cbn [existsb]. intros H.
  repeat (apply orb_true_iff in H;
          destruct H as [H | H];
          [apply Byte.byte_dec_bl in H; subst c; eexists; reflexivity |]).
  discriminate H.
Qed.

Lemma read_chunk_size_digits (ds rest : list byte) (acc : Z) :
  forallb is_lower_hex ds = true ->
  match rest with
  | c :: _ => hex_value c = None
  | [] => True
  end ->
  read_chunk_size acc (ds ++ rest) =
  (fold_left (fun a c => a * 16 + match hex_value c with
                                  | Some d => d
                                  | None => 0
                                  end) ds acc, rest).
Proof.
  revert acc. induction ds as [|c ds IH]; intros acc Hds Hrest.
  - cbn [app fold_left]. destruct rest as [|c rest]; [reflexivity|].
    cbn [read_chunk_size]. rewrite Hrest. reflexivity.
  - cbn [forallb] in Hds. apply andb_true_iff in Hds. destruct Hds as [Hc Hds].
    destruct (lower_hex_value c Hc) as [d Hd].
    cbn [app read_chunk_size fold_left]. rewrite Hd. apply IH; assumption.
Qed.

Lemma decode_terminal_chunk (fuel : nat) (rest : list byte) :
  decode_chunked (S fuel) (terminal_chunk ++ rest) = Some ([], rest).
Proof. reflexivity. Qed.

Lemma decode_chunk_frame (fuel : nat) (data rest : list byte) :
  data <> [] ->
  Z.of_nat (length data) <= UINT32_MAX ->
  decode_chunked (S fuel) (chunk_frame data ++ rest) =
  match decode_chunked fuel rest with
  | Some (chunks, unread) => Some (data :: chunks, unread)
  | None => None
  end.
Proof.
  intros Hne Hn.
  destruct (chunk_size_field_minimal (Z.of_nat (length data)))
    as (Hlen & Hhex & Hval & _); [lia|].
  unfold chunk_frame. rewrite <- !app_assoc.
  remember (chunk_size_field (Z.of_nat (length data))) as field eqn:Hf.
  destruct field as [|c field']; [cbn [length] in Hlen; lia|].
  pose proof Hhex as Hhex'.
  cbn [forallb] in Hhex'. apply andb_true_iff in Hhex'.
  destruct Hhex' as [Hc _]. destruct (lower_hex_value c Hc) as [d Hd].
  cbn [decode_chunked app]. rewrite Hd.
  change (c :: field' ++ CR :: LF :: data ++ CR :: LF :: rest)
    with ((c :: field') ++ CR :: LF :: data ++ CR :: LF :: rest).
  rewrite (read_chunk_size_digits (c :: field') _ 0 Hhex) by reflexivity.
  fold (hex_number (c :: field')). rewrite Hval.
  cbn [expect_CRLF]. change (Byte.eqb CR CR && Byte.eqb LF LF) with true.
  cbv iota.
  replace (Z.of_nat (length data) =? 0) with false.
  2:{ symmetry. apply Z.eqb_neq. destruct data; [congruence|].
      cbn [length]. lia. }
  replace (Z.of_nat (length (data ++ CR :: LF :: rest)) <?
           Z.of_nat (length data)) with false.
  2:{ symmetry. apply Z.ltb_ge. rewrite length_app. lia. }
  rewrite Nat2Z.id.
  rewrite firstn_app, firstn_all, Nat.sub_diag, firstn_O, app_nil_r.
  rewrite skipn_app, skipn_all, Nat.sub_diag. cbn [app skipn].
  change (Byte.eqb CR CR && Byte.eqb LF LF) with true. cbv iota.
  reflexivity.
Qed.

Lemma decode_frames (chunks : list (list byte)) (rest : list byte)
                    (fuel : nat) :
  Forall (fun d => d <> [] /\ Z.of_nat (length d) <= UINT32_MAX) chunks ->
  (length chunks < fuel)%nat ->
  decode_chunked fuel
    (concat (map chunk_frame chunks) ++ terminal_chunk ++ rest)
  = Some (chunks, rest).
Proof.
  revert fuel. induction chunks as [|d chunks IH]; intros fuel Hall Hfuel.
  - destruct fuel as [|fuel]; [cbn [length] in Hfuel; lia|].
    apply decode_terminal_chunk.
  - destruct fuel as [|fuel]; [lia|].
    inversion Hall as [|? ? [Hne Hn] Hall']; subst.
    cbn [map concat]. rewrite <- app_assoc.
    rewrite decode_chunk_frame by assumption.
    rewrite IH; [reflexivity | assumption | cbn [length] in Hfuel; lia].
Qed.

Lemma chunk_frame_not_nil (data : list byte) : (1 <= length (chunk_frame data))%nat.
Proof.
  unfold chunk_frame. rewrite !length_app. cbn [length]. lia.
Qed.

Lemma concat_frames_length (chunks : list (list byte)) :
  (length chunks <= length (concat (map chunk_frame chunks)))%nat.
Proof.
  induction chunks as [|d chunks IH]; cbn [map concat length]; [lia|].
  rewrite length_app. pose proof (chunk_frame_not_nil d). lia.
Qed.

(** A body framed chunk by chunk and closed by the last-chunk decodes to
    its chunks, with nothing left over. *)
Lemma chunked_decode_frames (chunks : list (list byte)) :
  Forall (fun d => d <> [] /\ Z.of_nat (length d) <= UINT32_MAX) chunks ->
  chunked_decode (concat (map chunk_frame chunks ++ [terminal_chunk]))
  = Some (chunks, []).
Proof.
  intros Hall. unfold chunked_decode.
  rewrite concat_app. cbn [concat].
  rewrite (app_nil_r terminal_chunk).
  rewrite <- (app_nil_r terminal_chunk) at 2.
  apply decode_frames; [exact Hall|].
  rewrite length_app. pose proof (concat_frames_length chunks). lia.
Qed.

(** ** The send loop *)

Lemma one_write_whole (w : world) (payload : list byte) :
  takes_every_write winhttp ->
  one_write w payload =
  (Continue tt,
   set_total (set_trace w (trace w ++ [Called_WinHttpWriteData payload]))
     ((total_written w + Z.of_nat (length payload)) mod 2 ^ size_t_bits)).
Proof.
  intros Hw. unfold one_write. rewrite Hw, Z.eqb_refl. cbn [negb].
  rewrite andb_false_r. reflexivity.
Qed.

Lemma chunk_frame_nil : chunk_frame [] = terminal_chunk.
Proof. reflexivity. Qed.

Lemma framed_buf_length (data rest : list byte) :
  Z.of_nat (length rest) = sizeof_data - Z.of_nat (length data) ->
  Z.of_nat (length (format_08x (Z.of_nat (length data)) ++ [CR; LF]
                    ++ data ++ [CR; LF] ++ rest)) = sizeof_buf.
Proof.
  intros H. rewrite !length_app. unfold format_08x.
  rewrite format_08x_digits_length. cbn [length].
  unfold sizeof_buf, sizeof_size, sizeof_crlf0, sizeof_crlf1 in *. lia.
Qed.

Lemma send_loop_chunked_run (reads : list (list byte)) (w : world) :
  takes_every_write winhttp ->
  Z.of_nat (length (buf w)) = sizeof_buf ->
  Forall (fun d => Z.of_nat (length d) <= sizeof_data) reads ->
  exists w',
    send_loop true (map read_bytes reads) w = (Continue tt, w') /\
    trace w' = trace w ++ map Called_WinHttpWriteData
                 (map chunk_frame (reads_until_eof reads)
                  ++ [terminal_chunk]) /\
    Z.of_nat (length (buf w')) = sizeof_buf /\
    response_body w' = response_body w.
Proof.
  intros Hw. revert w. induction reads as [|d reads IH]; intros w Hb Hall.
  - cbn [map send_loop reads_until_eof app].
    destruct (send_block_chunked_run w [] Hb) as (rest & Hrest & Hrun).
    { cbn [length]. unfold sizeof_data. lia. }
    unfold bind at 1. rewrite Hrun. unfold bind at 1.
    rewrite one_write_whole by exact Hw.
    eexists. split; [reflexivity|]. cbn [trace buf response_body set_trace
      set_total set_buf]. rewrite chunk_frame_nil.
    repeat split. apply (framed_buf_length [] rest Hrest).
  - inversion Hall as [|? ? Hd Hall']; subst.
    cbn [map send_loop].
    destruct (send_block_chunked_run w d Hb Hd) as (rest & Hrest & Hrun).
    unfold bind at 1. rewrite Hrun. unfold bind at 1.
    rewrite one_write_whole by exact Hw. unfold ret at 1. cbv beta iota.
    destruct d as [|x d'].
    + cbn [length Z.of_nat Z.gtb Z.compare]. unfold ret.
      eexists. split; [reflexivity|].
      cbn [trace buf response_body set_trace set_total set_buf
           reads_until_eof map app].
      rewrite chunk_frame_nil.
      repeat split. apply (framed_buf_length [] rest Hrest).
    + replace (Z.of_nat (length (x :: d')) >? 0) with true
        by (symmetry; apply Z.gtb_lt; cbn [length]; lia).
      edestruct IH as (w' & Hloop & Htrace & Hbuf & Hrb);
        [ | exact Hall' | ].
      2:{ exists w'. split; [exact Hloop|]. split; [|split].
          - rewrite Htrace. cbn [trace set_trace set_total set_buf
              reads_until_eof map app]. rewrite <- app_assoc. reflexivity.
          - exact Hbuf.
          - rewrite Hrb. reflexivity. }
      cbn [buf set_total set_trace set_buf].
      apply (framed_buf_length (x :: d') rest Hrest).
Qed.

Lemma send_loop_identity_run (reads : list (list byte)) (w : world) :
  takes_every_write winhttp ->
  Z.of_nat (length (buf w)) = sizeof_buf ->
  Forall (fun d => Z.of_nat (length d) <= sizeof_data) reads ->
  exists w',
    send_loop false (map read_bytes reads) w = (Continue tt, w') /\
    trace w' = trace w ++ map Called_WinHttpWriteData
                 (reads_until_eof reads) /\
    total_written w' = total_after (total_written w) (reads_until_eof reads) /\
    Z.of_nat (length (buf w')) = sizeof_buf /\
    response_body w' = response_body w.
Proof.
  intros Hw. revert w. induction reads as [|d reads IH]; intros w Hb Hall.
  - cbn [map send_loop reads_until_eof].
    destruct (send_block_identity_run w [] Hb) as (b & Hlen & Hrun).
    { cbn [length]. unfold sizeof_data. lia. }
    unfold bind at 1. rewrite Hrun.
    eexists. split; [reflexivity|]. cbn [trace buf response_body
      total_written set_buf map]. rewrite app_nil_r.
    repeat split. exact Hlen.
  - inversion Hall as [|? ? Hd Hall']; subst.
    cbn [map send_loop].
    destruct (send_block_identity_run w d Hb Hd) as (b & Hlen & Hrun).
    unfold bind at 1. rewrite Hrun.
    destruct d as [|x d'].
    + cbn [Z.gtb Z.compare]. unfold ret.
      eexists. split; [reflexivity|]. cbn [trace buf response_body
        total_written set_buf map reads_until_eof]. rewrite app_nil_r.
      repeat split. exact Hlen.
    + unfold bind at 1.
      rewrite one_write_whole by exact Hw. unfold ret at 1.
      replace (Z.of_nat (length (x :: d')) >? 0) with true
        by (symmetry; apply Z.gtb_lt; cbn [length]; lia).
      edestruct IH as (w' & Hloop & Htrace & Htotal & Hbuf & Hrb);
        [ | exact Hall' | ].
      2:{ exists w'. split; [exact Hloop|]. repeat split.
          - rewrite Htrace. cbn [trace set_trace set_total set_buf
              reads_until_eof map]. rewrite <- app_assoc. reflexivity.
          - rewrite Htotal. reflexivity.
          - exact Hbuf.
          - rewrite Hrb. reflexivity. }
      exact Hlen.
Qed.

(** ** The framer and the send loop: results *)

Lemma written_blocks_app (t1 t2 : list event) :
  written_blocks (t1 ++ t2) = written_blocks t1 ++ written_blocks t2.
Proof.
  induction t1 as [|e t1 IH]; [reflexivity|].
  destruct e; cbn [app written_blocks]; rewrite IH; reflexivity.
Qed.

Lemma written_blocks_writes (blocks : list (list byte)) :
  written_blocks (map Called_WinHttpWriteData blocks) = blocks.
Proof.
  induction blocks as [|b blocks IH]; [reflexivity|].
  cbn [map written_blocks]. rewrite IH. reflexivity.
Qed.

Lemma reads_until_eof_nonempty (reads : list (list byte)) :
  Forall (fun d => d <> []) (reads_until_eof reads).
Proof.
  induction reads as [|d reads IH]; [constructor|].
  destruct d as [|x d']; cbn [reads_until_eof]; [constructor|].
  constructor; [discriminate | exact IH].
Qed.

Lemma reads_until_eof_bounded (P : list byte -> Prop)
                              (reads : list (list byte)) :
  Forall P reads -> Forall P (reads_until_eof reads).
Proof.
  induction 1 as [|d reads Hd Hall IH]; [constructor|].
  destruct d as [|x d']; cbn [reads_until_eof]; [constructor|].
  constructor; assumption.
Qed.

Lemma reads_until_eof_closed (reads : list (list byte)) :
  reads_until_eof (reads ++ [[]]) = reads_until_eof reads.
Proof.
  induction reads as [|d reads IH]; [reflexivity|].
  destruct d as [|x d']; cbn [app reads_until_eof]; [reflexivity|].
  rewrite IH. reflexivity.
Qed.

Lemma reads_until_eof_all (reads : list (list byte)) :
  Forall (fun d => d <> []) reads -> reads_until_eof reads = reads.
Proof.
  induction 1 as [|d reads Hd Hall IH]; [reflexivity|].
  destruct d as [|x d']; [congruence|].
  cbn [reads_until_eof]. rewrite IH. reflexivity.
Qed.

Lemma chunk_frame_is_not_terminal (data : list byte) :
  data <> [] -> chunk_frame data <> terminal_chunk.
Proof.
  intros Hne Heq. apply (f_equal (@length byte)) in Heq.
  unfold chunk_frame in Heq. rewrite !length_app in Heq.
  cbn [length terminal_chunk] in Heq.
  pose proof (chunk_size_field_length (Z.of_nat (length data))) as Hk.
  pose proof (skip_leading_zeroes_spec
                (format_08x (Z.of_nat (length data))) [] 8) as Hr.
  rewrite app_nil_r in Hr. cbv zeta in Hr.
  destruct Hr as (Hr & _); [apply format_08x_digits_length | lia |].
  destruct data; [congruence|]. cbn [length] in *. lia.
Qed.

Lemma count_occ_frames (chunks : list (list byte)) :
  Forall (fun d => d <> []) chunks ->
  count_occ (list_eq_dec Byte.byte_eq_dec)
            (map chunk_frame chunks ++ [terminal_chunk]) terminal_chunk
  = 1%nat.
Proof.
  induction 1 as [|d chunks Hd Hall IH].
  - cbn [map app]. apply count_occ_cons_eq. reflexivity.
  - cbn [map app]. rewrite count_occ_cons_neq; [exact IH|].
    apply chunk_frame_is_not_terminal, Hd.
Qed.

(** C1. For every body the stream delivers as reads of 0 to 32 KiB each, the
    last one of zero bytes, the blocks the chunked send loop writes, put
    end to end and read back as RFC 7230 chunked coding, give back exactly
    the reads the stream delivered before it reported its end (all the
    bytes of all the reads when none but the last is empty), with nothing
    left after the last-chunk; the frames written are those chunks, none
    of them empty, and then the last-chunk, once. *)
Theorem chunked_body_round_trip (reads : list (list byte)) (w : world) :
  takes_every_write winhttp ->
  Z.of_nat (length (buf w)) = sizeof_buf ->
  Forall (fun d => 0 <= Z.of_nat (length d) <= sizeof_data) reads ->
  exists w' sent chunks,
    send_loop true (map read_bytes (reads ++ [[]])) w = (Continue tt, w') /\
    trace w' = trace w ++ sent /\
    chunked_decode (wire_bytes sent) = Some (chunks, []) /\
    concat chunks = delivered_body (reads ++ [[]]) /\
    (Forall (fun d => d <> []) reads ->
     concat chunks = concat (reads ++ [[]])) /\
    written_blocks sent = map chunk_frame chunks ++ [terminal_chunk] /\
    Forall (fun d => d <> []) chunks /\
    count_occ (list_eq_dec Byte.byte_eq_dec)
              (written_blocks sent) terminal_chunk = 1%nat.
Proof.
  intros Hw Hb Hall.
  assert (Hall' : Forall (fun d => Z.of_nat (length d) <= sizeof_data)
                         (reads ++ [[]])).
  { apply Forall_app. split.
    - eapply Forall_impl; [|exact Hall]. cbv beta. intros d Hd. lia.
    - constructor; [cbn [length]; unfold sizeof_data; lia | constructor]. }
  destruct (send_loop_chunked_run (reads ++ [[]]) w Hw Hb Hall')
    as (w' & Hrun & Htrace & _ & _).
  rewrite reads_until_eof_closed in Htrace.
  pose proof (reads_until_eof_nonempty reads) as Hne.
  exists w', (map Called_WinHttpWriteData
                (map chunk_frame (reads_until_eof reads)
                 ++ [terminal_chunk])), (reads_until_eof reads).
  split; [exact Hrun|]. split; [exact Htrace|].
  unfold wire_bytes. rewrite written_blocks_writes.
  split; [|split; [|split; [|split; [|split]]]].
  - apply chunked_decode_frames.
    apply Forall_forall. intros d Hin. split.
    + rewrite Forall_forall in Hne. apply Hne, Hin.
    + pose proof (reads_until_eof_bounded _ _ Hall) as Hbd.
      rewrite Forall_forall in Hbd. specialize (Hbd d Hin). cbv beta in Hbd.
      unfold UINT32_MAX, sizeof_data in *. lia.
  - unfold delivered_body. rewrite reads_until_eof_closed. reflexivity.
  - intros Hfull. rewrite (reads_until_eof_all reads Hfull).
    rewrite concat_app. cbn [concat]. rewrite !app_nil_r. reflexivity.
  - reflexivity.
  - exact Hne.
  - apply count_occ_frames, Hne.
Qed.

Lemma one_write_trace (w : world) (payload : list byte) :
  exists later,
    trace (snd (one_write w payload)) =
    trace w ++ Called_WinHttpWriteData payload :: later /\
    written_blocks later = [] /\
    buf (snd (one_write w payload)) = buf w /\
    response_body (snd (one_write w payload)) = response_body w.
Proof.
  unfold one_write.
  destruct (WinHttpWriteData_result winhttp (trace w) payload) as [written|].
  - destruct (DCHECK_IS_ON && negb (written =? Z.of_nat (length payload)));
      exists []; cbn [snd trace buf response_body set_trace set_total];
      repeat split.
  - exists [LOG_ERROR_WinHttpMessage "WinHttpWriteData"].
    cbn [snd trace buf response_body set_trace].
    rewrite <- app_assoc. repeat split.
Qed.

(** C2. For every read of n bytes, 0 <= n <= 32768, the chunked framer
    leaves n in the size field as exactly 8 lowercase hexadecimal digits;
    the size field it emits, the digits left after the leading zeroes are
    skipped, is the minimal lowercase hexadecimal numeral of n; and the one
    block it writes for the chunk is that numeral, CR LF, the data, CR LF:
    (significant digits) + 2 + n + 2 bytes. *)
Theorem chunk_size_rendering (data : list byte) (w : world) :
  0 <= Z.of_nat (length data) <= sizeof_data ->
  Z.of_nat (length (buf w)) = sizeof_buf ->
  exists r w' digits field later,
    send_block true (read_bytes data) w = (r, w') /\
    sub_bytes (buf w') offsetof_size sizeof_size = digits /\
    length digits = 8%nat /\
    forallb is_lower_hex digits = true /\
    hex_number digits = Z.of_nat (length data) /\
    field = skipn (8 - length field) digits /\
    Forall (fun c => c = char_0) (firstn (8 - length field) digits) /\
    minimal_hex (Z.of_nat (length data)) field /\
    trace w' = trace w
               ++ Called_WinHttpWriteData (field ++ [CR; LF] ++ data
                                           ++ [CR; LF]) :: later /\
    written_blocks later = [] /\
    Z.of_nat (length (field ++ [CR; LF] ++ data ++ [CR; LF]))
    = Z.of_nat (length field) + 2 + Z.of_nat (length data) + 2.
Proof.
  intros Hn Hb.
  destruct (send_block_chunked_run w data Hb) as (rest & Hrest & Hrun);
    [lia|].
  set (n := Z.of_nat (length data)) in *.
  set (w1 := set_buf w (format_08x n ++ [CR; LF] ++ data ++ [CR; LF]
                        ++ rest)) in *.
  destruct (one_write_trace w1 (chunk_frame data))
    as (later & Htrace & Hlater & Hbuf & _).
  assert (Hdig : length (format_08x n) = 8%nat)
    by apply format_08x_digits_length.
  destruct (one_write w1 (chunk_frame data)) as [r1 w2] eqn:Hone.
  cbn [snd] in Htrace, Hbuf.
  exists (match r1 with
          | Continue _ => Continue n
          | Return b => Return b
          | Fatal f => Fatal f
          end), w2, (format_08x n), (chunk_size_field n), later.
  split.
  { rewrite Hrun. unfold bind. rewrite Hone. destruct r1; reflexivity. }
  split.
  { rewrite Hbuf. unfold w1. cbn [buf set_buf].
    apply (sub_bytes_seg [] (format_08x n)); [reflexivity|].
    rewrite Hdig. reflexivity. }
  split; [exact Hdig|].
  split; [apply format_lower_hex|].
  split.
  { unfold format_08x. rewrite hex_number_format by lia.
    apply Z.mod_small. change (16 ^ Z.of_nat 8) with (2 ^ 32).
    unfold sizeof_data in Hn. lia. }
  split.
  { rewrite chunk_size_field_length. reflexivity. }
  split; [apply chunk_size_field_skips_zeroes|].
  split.
  { apply chunk_size_field_minimal. unfold UINT32_MAX, sizeof_data in *.
    lia. }
  split; [exact Htrace|].
  split; [exact Hlater|].
  rewrite !length_app. cbn [length]. lia.
Qed.

(** C3. In chunked mode a read of zero bytes still writes a block, the
    last-chunk, and the block is the five bytes 0 CR LF CR LF; without
    chunked encoding a read of zero bytes writes nothing. *)
Theorem terminal_chunk_is_written (w : world) :
  Z.of_nat (length (buf w)) = sizeof_buf ->
  (exists r w' later,
     send_block true (read_bytes []) w = (r, w') /\
     trace w' = trace w
                ++ Called_WinHttpWriteData [char_0; CR; LF; CR; LF] :: later /\
     written_blocks later = []) /\
  (exists w',
     send_block false (read_bytes []) w = (Continue 0, w') /\
     trace w' = trace w).
Proof.
  intros Hb. split.
  - destruct (send_block_chunked_run w [] Hb) as (rest & Hrest & Hrun).
    { cbn [length]. unfold sizeof_data. lia. }
    match type of Hrun with
    | _ = bind _ _ ?w1 =>
        destruct (one_write_trace w1 (chunk_frame []))
          as (later & Htrace & Hlater & _);
        destruct (one_write w1 (chunk_frame [])) as [r1 w2] eqn:Hone
    end.
    cbn [snd] in Htrace.
    exists (match r1 with
            | Continue _ => Continue 0
            | Return b => Return b
            | Fatal f => Fatal f
            end), w2, later.
    split; [|split].
    + rewrite Hrun. unfold bind. rewrite Hone. destruct r1; reflexivity.
    + exact Htrace.
    + exact Hlater.
  - destruct (send_block_identity_run w [] Hb) as (b & Hlen & Hrun).
    { cbn [length]. unfold sizeof_data. lia. }
    eexists. split; [exact Hrun | reflexivity].
Qed.

Lemma total_after_no_wrap (blocks : list (list byte)) (start : Z) :
  0 <= start ->
  start + Z.of_nat (length (concat blocks)) < 2 ^ size_t_bits ->
  total_after start blocks = start + Z.of_nat (length (concat blocks)).
Proof.
  revert start. induction blocks as [|b blocks IH]; intros start H0 Hlt.
  - cbn [concat length Z.of_nat]. unfold total_after. cbn [fold_left]. lia.
  - cbn [concat] in *. rewrite length_app in *.
    unfold total_after in *. cbn [fold_left].
    rewrite Z.mod_small by lia.
    rewrite IH by lia. lia.
Qed.

(** C4. Without chunked encoding every read is written as it was read, the
    data and nothing else, and a read of zero bytes is not written at all;
    [total_written] is the sum of the sizes of the writes, and the check
    after the loop compares it with the declared Content-Length: with
    DCHECKs compiled in the send goes on exactly when the two are equal,
    and a difference stops on the DCHECK, never on a [return false]. *)
Theorem fixed_length_passthrough (reads : list (list byte)) (w : world)
                                 (content_length : Z) :
  takes_every_write winhttp ->
  Z.of_nat (length (buf w)) = sizeof_buf ->
  Forall (fun d => 0 <= Z.of_nat (length d) <= sizeof_data) reads ->
  Z.of_nat (length (concat (reads_until_eof reads))) < 2 ^ size_t_bits ->
  exists r w' blocks,
    send_body false content_length (map read_bytes (reads ++ [[]])) w
    = (r, w') /\
    blocks = reads_until_eof (reads ++ [[]]) /\
    trace w' = trace w ++ map Called_WinHttpWriteData blocks /\
    Forall (fun d => d <> []) blocks /\
    total_written w' = Z.of_nat (length (concat blocks)) /\
    (r = Continue tt \/ r = Fatal check_failed) /\
    (DCHECK_IS_ON = true ->
     (r = Continue tt <->
      Z.of_nat (length (concat blocks)) = content_length)) /\
    (DCHECK_IS_ON = false -> r = Continue tt).
Proof.
  intros Hw Hb Hall Hsum.
  assert (Hall' : Forall (fun d => Z.of_nat (length d) <= sizeof_data)
                         (reads ++ [[]])).
  { apply Forall_app. split.
    - eapply Forall_impl; [|exact Hall]. cbv beta. intros d Hd. lia.
    - constructor; [cbn [length]; unfold sizeof_data; lia | constructor]. }
  destruct (send_loop_identity_run (reads ++ [[]]) (set_total w 0) Hw Hb Hall')
    as (w' & Hrun & Htrace & Htotal & _ & _).
  rewrite reads_until_eof_closed in *.
  cbn [total_written set_total trace] in Htrace, Htotal.
  rewrite total_after_no_wrap in Htotal by lia.
  rewrite Z.add_0_l in Htotal.
  unfold send_body, set_total_written.
  unfold bind at 1. unfold bind at 1. rewrite Hrun. cbn [negb].
  unfold bind, get_total_written, DCHECK.
  exists (if DCHECK_IS_ON
          then if total_written w' =? content_length
               then Continue tt else Fatal check_failed
          else Continue tt), w', (reads_until_eof reads).
  split.
  { destruct DCHECK_IS_ON; [|reflexivity].
    destruct (total_written w' =? content_length); reflexivity. }
  split; [reflexivity|].
  split; [exact Htrace|].
  split; [apply reads_until_eof_nonempty|].
  split; [exact Htotal|].
  rewrite Htotal.
  destruct DCHECK_IS_ON.
  - destruct (Z.eqb_spec (Z.of_nat (length (concat (reads_until_eof reads))))
                         content_length) as [Heq|Hneq].
    + split; [left; reflexivity|]. split; [|discriminate].
      intros _. split; auto.
    + split; [right; reflexivity|]. split; [|discriminate].
      intros _. split; [discriminate | contradiction].
  - split; [left; reflexivity|]. split; [discriminate | reflexivity].
Qed.

(** C10. For every read length d, 0 <= d <= 32768, the framer runs through
    all its stores without one falling outside [buf]; the CR and LF it
    stores at [buf.data[d]] and [buf.data[d + 1]] are in the buffer, and
    when the data field is full they are the two bytes of [crlf1], which
    starts where [data] ends. *)
Theorem framer_stores_in_bounds (d : Z) (w : world) :
  0 <= d <= sizeof_data ->
  Z.of_nat (length (buf w)) = sizeof_buf ->
  exists range w',
    frame_chunk d w = (Continue range, w') /\
    Z.of_nat (length (buf w')) = sizeof_buf /\
    0 <= offsetof_data + d /\
    offsetof_data + (d + 1) < sizeof_buf /\
    load (buf w') (offsetof_data + d) = CR /\
    load (buf w') (offsetof_data + (d + 1)) = LF /\
    (d = sizeof_data ->
     offsetof_data + d = offsetof_crlf1 /\
     field_of_offset (offsetof_data + d) = Some field_crlf1 /\
     field_of_offset (offsetof_data + (d + 1)) = Some field_crlf1 /\
     sub_bytes (buf w') offsetof_crlf1 sizeof_crlf1 = [CR; LF]).
Proof.
  intros Hd Hb.
  destruct (buf_fields (buf w) d Hb Hd)
    as (s0 & c0 & c1 & d0 & t0 & t1 & rest & Hbuf & Hs0 & Hd0 & Hrest).
  assert (Hdig : length (format_08x d) = 8%nat)
    by apply format_08x_digits_length.
  eexists. eexists. split.
  { apply (frame_chunk_run w s0 d0 rest c0 c1 t0 t1 d Hbuf Hs0 Hd0). lia. }
  cbn [buf set_buf].
  split.
  { rewrite !length_app, Hdig. cbn [length].
    unfold sizeof_buf, sizeof_size, sizeof_crlf0, sizeof_crlf1 in *. lia. }
  split; [unfold offsetof_data, offsetof_crlf0, offsetof_size, sizeof_size,
            sizeof_crlf0; lia|].
  split; [unfold sizeof_buf, offsetof_data, offsetof_crlf0, offsetof_size,
            sizeof_size, sizeof_crlf0, sizeof_crlf1; lia|].
  split.
  { replace (format_08x d ++ [CR; LF] ++ d0 ++ [CR; LF] ++ rest)
      with ((format_08x d ++ [CR; LF] ++ d0) ++ CR :: LF :: rest)
      by (rewrite <- !app_assoc; reflexivity).
    apply load_seg. rewrite !length_app, Hdig. cbn [length].
    unfold offsetof_data, offsetof_crlf0, offsetof_size, sizeof_size,
      sizeof_crlf0. lia. }
  split.
  { replace (format_08x d ++ [CR; LF] ++ d0 ++ [CR; LF] ++ rest)
      with ((format_08x d ++ [CR; LF] ++ d0 ++ [CR]) ++ LF :: rest)
      by (rewrite <- !app_assoc; reflexivity).
    apply load_seg. rewrite !length_app, Hdig. cbn [length].
    unfold offsetof_data, offsetof_crlf0, offsetof_size, sizeof_size,
      sizeof_crlf0. lia. }
  intros ->. split; [reflexivity|]. split; [reflexivity|].
  split; [reflexivity|].
  replace (format_08x sizeof_data ++ [CR; LF] ++ d0 ++ [CR; LF] ++ rest)
    with ((format_08x sizeof_data ++ [CR; LF] ++ d0) ++ [CR; LF] ++ rest)
    by (rewrite <- !app_assoc; reflexivity).
  apply sub_bytes_seg; [|reflexivity].
  rewrite !length_app, Hdig. cbn [length].
  unfold offsetof_crlf1, offsetof_data, offsetof_crlf0, offsetof_size,
    sizeof_size, sizeof_crlf0 in *. lia.
Qed.

(** ** Computations that keep quiet *)

Lemma quiet_weaken {A : Type} (P Q : event -> Prop) (m : M A) :
  (forall e, P e -> Q e) -> quiet P m -> quiet Q m.
Proof.
  intros HPQ Hm w r w' Hrun.
  destruct (Hm w r w' Hrun) as (Hr & Hrb & evs & Ht & Hall).
  repeat split; try assumption.
  exists evs. split; [exact Ht|]. eapply Forall_impl; eauto.
Qed.

Lemma quiet_ret {A : Type} (P : event -> Prop) (a : A) : quiet P (ret a).
Proof.
  intros w r w' Hrun. inversion Hrun; subst.
  repeat split; [discriminate|]. exists []. rewrite app_nil_r. auto.
Qed.

Lemma quiet_return_false {A : Type} (P : event -> Prop) :
  quiet P (@return_ A false).
Proof.
  intros w r w' Hrun. inversion Hrun; subst.
  repeat split; [discriminate|]. exists []. rewrite app_nil_r. auto.
Qed.

Lemma quiet_stop {A : Type} (P : event -> Prop) (f : fatal) :
  quiet P (@stop A f).
Proof.
  intros w r w' Hrun. inversion Hrun; subst.
  repeat split; [discriminate|]. exists []. rewrite app_nil_r. auto.
Qed.

Lemma quiet_bind {A B : Type} (P : event -> Prop) (m : M A) (k : A -> M B) :
  quiet P m -> (forall a, quiet P (k a)) -> quiet P (bind m k).
Proof.
  intros Hm Hk w r w' Hrun. unfold bind in Hrun.
  destruct (m w) as [r1 w1] eqn:Hm1.
  destruct (Hm w r1 w1 Hm1) as (Hr1 & Hrb1 & evs1 & Ht1 & Hall1).
  destruct r1 as [a|b|f].
  - destruct (Hk a w1 r w' Hrun) as (Hr & Hrb & evs & Ht & Hall).
    repeat split; [exact Hr | congruence |].
    exists (evs1 ++ evs). split.
    + rewrite Ht, Ht1, app_assoc. reflexivity.
    + apply Forall_app. auto.
  - inversion Hrun; subst. repeat split; [congruence | exact Hrb1 |].
    exists evs1. auto.
  - inversion Hrun; subst. repeat split; [discriminate | exact Hrb1 |].
    exists evs1. auto.
Qed.

Lemma quiet_emit (P : event -> Prop) (e : event) : P e -> quiet P (emit e).
Proof.
  intros He w r w' Hrun. inversion Hrun; subst.
  repeat split; [discriminate|]. exists [e]. split; [reflexivity|].
  constructor; [exact He | constructor].
Qed.

Lemma quiet_history (P : event -> Prop) : quiet P history.
Proof.
  intros w r w' Hrun. inversion Hrun; subst.
  repeat split; [discriminate|]. exists []. rewrite app_nil_r. auto.
Qed.

Lemma quiet_the_buf (P : event -> Prop) : quiet P the_buf.
Proof.
  intros w r w' Hrun. inversion Hrun; subst.
  repeat split; [discriminate|]. exists []. rewrite app_nil_r. auto.
Qed.

Lemma quiet_get_total_written (P : event -> Prop) : quiet P get_total_written.
Proof.
  intros w r w' Hrun. inversion Hrun; subst.
  repeat split; [discriminate|]. exists []. rewrite app_nil_r. auto.
Qed.

Lemma quiet_set_total_written (P : event -> Prop) (v : Z) :
  quiet P (set_total_written v).
Proof.
  intros w r w' Hrun. inversion Hrun; subst.
  repeat split; [discriminate|]. exists []. cbn [trace set_total].
  rewrite app_nil_r. auto.
Qed.

Lemma quiet_store (P : event -> Prop) (off : Z) (bytes : list byte) :
  quiet P (store off bytes).
Proof.
  intros w r w' Hrun. unfold store in Hrun.
  destruct (store_bytes (buf w) off bytes); inversion Hrun; subst;
    (repeat split; [discriminate|]); exists [];
    cbn [trace set_buf]; rewrite app_nil_r; auto.
Qed.

Lemma quiet_DCHECK (P : event -> Prop) (c : bool) : quiet P (DCHECK c).
Proof.
  unfold DCHECK. destruct DCHECK_IS_ON; [destruct c|];
    auto using quiet_ret, quiet_stop.
Qed.

Lemma quiet_checked_cast_uint32 (P : event -> Prop) (v : Z) :
  quiet P (checked_cast_uint32 v).
Proof.
  unfold checked_cast_uint32.
  destruct ((0 <=? v) && (v <=? UINT32_MAX));
    auto using quiet_ret, quiet_stop.
Qed.

Lemma quiet_LOG_ERROR (P : event -> Prop) (extra : string) :
  P (LOG_ERROR_WinHttpMessage extra) -> quiet P (LOG_ERROR extra).
Proof. apply quiet_emit. Qed.

Create HintDb quiet.

#[local] Hint Resolve quiet_ret quiet_return_false quiet_stop quiet_history
  quiet_the_buf quiet_get_total_written quiet_set_total_written quiet_store
  quiet_DCHECK quiet_checked_cast_uint32 : quiet.

(** Breaks a computation into its steps. *)
Ltac quiet_steps :=
  repeat first
    [ apply quiet_bind; [|intros ?]
    | apply quiet_emit
    | apply quiet_LOG_ERROR
    | solve [auto with quiet]
    | match goal with
      | |- quiet _ (if ?c then _ else _) => destruct c
      | |- quiet _ (match ?x with _ => _ end) => destruct x
      end ].

(** ** The header loop *)

Lemma literal_lines_cons (h : string * string) (hs : list (string * string))
                         (line : string) :
  In line (literal_lines hs) -> In line (literal_lines (h :: hs)).
Proof.
  unfold literal_lines. cbn [filter].
  destruct (negb (is_content_length h)); cbn [map In]; auto.
Qed.

Lemma header_event_cons (h : string * string) (hs : list (string * string))
                        (e : event) :
  header_event hs e -> header_event (h :: hs) e.
Proof.
  destruct e; cbn [header_event]; auto.
  intros [H | H]; [left; exact H | right; apply literal_lines_cons, H].
Qed.

Lemma quiet_WinHttpAddRequestHeaders (P : event -> Prop) (line : string) :
  P (Called_WinHttpAddRequestHeaders line) ->
  quiet P (WinHttpAddRequestHeaders line).
Proof. intros HP. unfold WinHttpAddRequestHeaders. quiet_steps; exact HP. Qed.

Lemma quiet_add_headers (hs : list (string * string)) (chunked : bool)
                        (content_length : Z) :
  quiet (header_event hs) (add_headers hs chunked content_length).
Proof.
  revert chunked content_length.
  induction hs as [|h hs IH]; intros chunked content_length.
  - apply quiet_ret.
  - cbn [add_headers].
    destruct (String.eqb (fst h) kContentLength) eqn:Hname.
    + apply quiet_bind; [apply quiet_DCHECK|]. intros _.
      eapply quiet_weaken; [apply header_event_cons | apply IH].
    + apply quiet_bind; [apply quiet_checked_cast_uint32|]. intros _.
      apply quiet_bind.
      { apply quiet_WinHttpAddRequestHeaders. cbn [header_event]. right.
        unfold literal_lines, is_content_length. cbn [filter].
        rewrite Hname. cbn [negb map In]. left. reflexivity. }
      intros [|]; cbn [negb].
      * eapply quiet_weaken; [apply header_event_cons | apply IH].
      * quiet_steps; reflexivity.
Qed.

Lemma quiet_declare_length (hs : list (string * string)) (chunked : bool)
                           (content_length : Z) :
  quiet (header_event hs) (declare_length chunked content_length).
Proof.
  unfold declare_length. destruct chunked.
  - apply quiet_bind; [apply quiet_checked_cast_uint32|]. intros _.
    apply quiet_bind.
    { apply quiet_WinHttpAddRequestHeaders. cbn [header_event]. left.
      reflexivity. }
    intros [|]; cbn [negb]; quiet_steps; reflexivity.
  - destruct (AssignIfInRange_DWORD content_length); apply quiet_ret.
Qed.

Lemma quiet_attach_headers (hs : list (string * string)) :
  quiet (header_event hs) (attach_headers hs).
Proof.
  unfold attach_headers.
  apply quiet_bind; [apply quiet_add_headers|]. intros [chunked cl].
  apply quiet_bind; [apply quiet_declare_length|]. intros dword.
  apply quiet_ret.
Qed.

(** With a WinHTTP that accepts the lines, and Content-Length values that
    convert wherever a DCHECK would look, the loop adds the lines of the
    entries other than Content-Length and ends in the mode they fix. *)
Lemma add_headers_run (hs : list (string * string)) (chunked : bool)
                      (content_length : Z) (w : world) :
  accepts_every_header winhttp ->
  lines_fit hs ->
  (DCHECK_IS_ON = true -> lengths_convert hs) ->
  add_headers hs chunked content_length w =
  (Continue (mode_after hs chunked content_length),
   set_trace w (trace w ++ map Called_WinHttpAddRequestHeaders
                                (literal_lines hs))).
Proof.
  intros Hacc. revert chunked content_length w.
  induction hs as [|h hs IH]; intros chunked content_length w Hfit Hconv.
  - cbn [add_headers mode_after literal_lines filter map]. unfold ret.
    rewrite app_nil_r. destruct w; reflexivity.
  - inversion Hfit as [|? ? Hh Hfit']; subst.
    assert (Hconv' : DCHECK_IS_ON = true -> lengths_convert hs).
    { intros Hd. specialize (Hconv Hd). inversion Hconv; assumption. }
    cbn [add_headers mode_after]. unfold literal_lines, is_content_length.
    cbn [filter].
    destruct (String.eqb (fst h) kContentLength) eqn:Hname; cbn [negb].
    + assert (Hd : DCHECK (negb match StringToSizeT (snd h) with
                                | Some _ => false
                                | None => true
                                end) = ret tt).
      { unfold DCHECK. destruct DCHECK_IS_ON eqn:Hon; [|reflexivity].
        specialize (Hconv eq_refl). inversion Hconv as [|? ? Hc _]; subst.
        unfold is_content_length in Hc. specialize (Hc Hname).
        destruct (StringToSizeT (snd h)); [reflexivity | congruence]. }
      rewrite Hd, run_ret.
      destruct (StringToSizeT (snd h)); apply IH; assumption.
    + rewrite run_checked_cast_uint32
        by (split; [apply Nat2Z.is_nonneg | exact Hh]).
      unfold WinHttpAddRequestHeaders.
      unfold bind at 1. unfold bind at 1. unfold history, emit.
      cbv beta iota. unfold bind at 1, ret at 1. cbv beta iota.
      cbn [trace set_trace]. rewrite Hacc. cbn [negb].
      rewrite IH by assumption.
      cbn [trace set_trace map]. rewrite <- app_assoc. reflexivity.
Qed.

Lemma is_content_length_iff (h : string * string) :
  is_content_length h = true <-> fst h = kContentLength.
Proof. unfold is_content_length. apply String.eqb_eq. Qed.

Lemma NoDup_names_value (hs : list (string * string)) (k v1 v2 : string) :
  NoDup (map fst hs) -> In (k, v1) hs -> In (k, v2) hs -> v1 = v2.
Proof.
  induction hs as [|h hs IH]; intros Hnd H1 H2; [contradiction|].
  cbn [map] in Hnd. inversion Hnd as [|? ? Hnotin Hnd']; subst.
  destruct H1 as [H1 | H1], H2 as [H2 | H2].
  - congruence.
  - exfalso. apply Hnotin. subst h. apply (in_map fst _ _ H2).
  - exfalso. apply Hnotin. subst h. apply (in_map fst _ _ H1).
  - apply IH; assumption.
Qed.

Lemma mode_after_absent (hs : list (string * string)) (chunked : bool)
                        (content_length : Z) :
  (forall v, ~ In (kContentLength, v) hs) ->
  mode_after hs chunked content_length = (chunked, content_length) /\
  literal_lines hs = map header_string_of hs.
Proof.
  induction hs as [|h hs IH]; intros Habs; [split; reflexivity|].
  cbn [mode_after]. unfold literal_lines. cbn [filter].
  destruct (is_content_length h) eqn:Hcl.
  - exfalso. apply is_content_length_iff in Hcl. destruct h as [k v].
    cbn [fst] in Hcl. subst k. apply (Habs v). left. reflexivity.
  - cbn [negb map]. destruct IH as [Hmode Hlines].
    { intros v Hin. apply (Habs v). right. exact Hin. }
    unfold literal_lines in Hlines. rewrite Hmode, Hlines. split; reflexivity.
Qed.

Lemma mode_after_unique (hs : list (string * string)) (v : string)
                        (chunked : bool) (content_length : Z) :
  NoDup (map fst hs) ->
  In (kContentLength, v) hs ->
  mode_after hs chunked content_length =
  match StringToSizeT v with
  | Some n => (false, Z.of_N n)
  | None => (true, content_length)
  end.
Proof.
  revert chunked content_length.
  induction hs as [|h hs IH]; intros chunked content_length Hnd Hin;
    [contradiction|].
  cbn [map] in Hnd. inversion Hnd as [|? ? Hnotin Hnd']; subst.
  cbn [mode_after]. destruct (is_content_length h) eqn:Hcl.
  - apply is_content_length_iff in Hcl.
    assert (Hh : h = (kContentLength, v)).
    { destruct Hin as [Hin | Hin]; [auto|]. exfalso. apply Hnotin.
      rewrite Hcl. apply (in_map fst _ _ Hin). }
    subst h. cbn [snd].
    assert (Habs : forall v', ~ In (kContentLength, v') hs).
    { intros v' Hin'. apply Hnotin. apply (in_map fst _ _ Hin'). }
    destruct (StringToSizeT v) as [n|].
    + exact (proj1 (mode_after_absent hs false (Z.of_N n) Habs)).
    + exact (proj1 (mode_after_absent hs true content_length Habs)).
  - destruct Hin as [Hin | Hin].
    + subst h. unfold is_content_length in Hcl. cbn [fst] in Hcl.
      rewrite String.eqb_refl in Hcl. discriminate.
    + apply IH; assumption.
Qed.

Lemma lengths_convert_unique (hs : list (string * string)) (v : string)
                             (n : N) :
  NoDup (map fst hs) ->
  In (kContentLength, v) hs ->
  StringToSizeT v = Some n ->
  lengths_convert hs.
Proof.
  intros Hnd Hin Hconv. apply Forall_forall. intros [k v'] Hin' Hcl.
  apply is_content_length_iff in Hcl. cbn [fst snd] in *. subst k.
  rewrite (NoDup_names_value hs _ v' v Hnd Hin' Hin). congruence.
Qed.

Lemma declare_length_chunked_run (content_length : Z) (w : world) :
  accepts_every_header winhttp ->
  declare_length true content_length w =
  (Continue WINHTTP_IGNORE_REQUEST_TOTAL_LENGTH,
   set_trace w (trace w ++ [Called_WinHttpAddRequestHeaders
                              kTransferEncodingHeader])).
Proof.
  intros Hacc. unfold declare_length.
  rewrite run_checked_cast_uint32 by (split; discriminate).
  unfold WinHttpAddRequestHeaders.
  unfold bind at 1. unfold bind at 1. unfold history, emit.
  cbv beta iota. unfold bind at 1, ret at 1. cbv beta iota.
  cbn [trace set_trace]. rewrite Hacc. reflexivity.
Qed.

Lemma literal_lines_forwarded (hs : list (string * string)) :
  literal_lines hs = forwarded_lines hs.
Proof. reflexivity. Qed.

Lemma header_lines_name_value (hs : list (string * string)) :
  map header_string_of hs = map (fun h => name_value_line (fst h) (snd h)) hs.
Proof. reflexivity. Qed.

Lemma without_CRLF_line (value : string) :
  without_CRLF (value ++ String "013" (String "010" EmptyString))
  = Some value.
Proof.
  induction value as [|c value IH]; [reflexivity|].
  cbn [String.append without_CRLF]. rewrite IH. cbn [option_map].
  destruct (String.eqb _ _) eqn:E; [|reflexivity].
  apply String.eqb_eq in E. inversion E as [[Hc Hrest]].
  destruct value as [|c' [|c'' value]]; discriminate Hrest.
Qed.

Lemma read_header_line_name_value (name value : string) :
  has_colon name = false ->
  read_header_line (name_value_line name value) = Some (name, value).
Proof.
  unfold name_value_line. induction name as [|c name IH]; intros Hname.
  - cbn [String.append read_header_line]. cbn.
    rewrite without_CRLF_line. reflexivity.
  - cbn [has_colon] in Hname. apply orb_false_iff in Hname.
    destruct Hname as [Hc Hname].
    cbn [String.append read_header_line]. rewrite Hc, (IH Hname).
    reflexivity.
Qed.

(** C5. A Content-Length entry of the caller is kept back: whatever WinHTTP
    answers, every line the header step hands to it is the Transfer-Encoding:
    chunked line or the literal line Name: Value, closed by CR LF, of an
    entry whose name is not Content-Length.  When the value of the entry
    converts to a number n, the mode is fixed-length with that byte count,
    and the lines added are exactly the Name: Value lines of the other
    entries.  When there is no Content-Length entry, the mode is chunked,
    and the lines added are the Name: Value lines of all the entries,
    followed by one Transfer-Encoding: chunked line.  A Name: Value line
    reads back as its name and its value. *)
Theorem content_length_selects_mode (hs : list (string * string))
                                    (w : world) :
  accepts_every_header winhttp ->
  lines_fit hs ->
  NoDup (map fst hs) ->
  quiet (header_event hs) (attach_headers hs) /\
  (forall w0 r w1 line,
     attach_headers hs w0 = (r, w1) ->
     In (Called_WinHttpAddRequestHeaders line) (trace w1) ->
     In (Called_WinHttpAddRequestHeaders line) (trace w0) \/
     line = name_value_line "Transfer-Encoding" "chunked" \/
     exists name value,
       In (name, value) hs /\
       name <> "Content-Length"%string /\
       line = name_value_line name value) /\
  (forall v n,
     In (kContentLength, v) hs ->
     StringToSizeT v = Some n ->
     attach_headers hs w =
     (Continue (false, Z.of_N n,
                match AssignIfInRange_DWORD (Z.of_N n) with
                | Some content_length_dword => content_length_dword
                | None => WINHTTP_IGNORE_REQUEST_TOTAL_LENGTH
                end),
      set_trace w (trace w ++ map Called_WinHttpAddRequestHeaders
                                   (forwarded_lines hs)))) /\
  ((forall v, ~ In (kContentLength, v) hs) ->
   attach_headers hs w =
   (Continue (true, 0, WINHTTP_IGNORE_REQUEST_TOTAL_LENGTH),
    set_trace w (trace w ++ map Called_WinHttpAddRequestHeaders
                                 (map (fun h =>
                                         name_value_line (fst h) (snd h)) hs
                                  ++ [name_value_line "Transfer-Encoding"
                                                      "chunked"])))) /\
  (forall name value,
     has_colon name = false ->
     read_header_line (name_value_line name value) = Some (name, value)).
Proof.
  intros Hacc Hfit Hnd. split; [apply quiet_attach_headers|]. split.
  { intros w0 r w1 line Hrun Hin.
    destruct (quiet_attach_headers hs w0 r w1 Hrun)
      as (_ & _ & evs & Ht & Hev).
    rewrite Ht in Hin. apply in_app_or in Hin.
    destruct Hin as [Hin | Hin]; [left; exact Hin | right].
    rewrite Forall_forall in Hev. specialize (Hev _ Hin).
    cbn [header_event] in Hev. destruct Hev as [-> | Hline].
    - left. reflexivity.
    - right. rewrite literal_lines_forwarded in Hline.
      unfold forwarded_lines in Hline. apply in_map_iff in Hline.
      destruct Hline as ([name value] & <- & Hentry).
      apply filter_In in Hentry. destruct Hentry as [Hentry Hname].
      cbn [fst snd] in *. exists name, value.
      split; [exact Hentry|]. split; [|reflexivity].
      intros ->. rewrite String.eqb_refl in Hname. discriminate Hname. }
  split; [|split; [|exact read_header_line_name_value]].
  - intros v n Hin Hconv. unfold attach_headers. unfold bind at 1.
    rewrite add_headers_run;
      [ | exact Hacc | exact Hfit
        | intros _; exact (lengths_convert_unique hs v n Hnd Hin Hconv) ].
    rewrite (mode_after_unique hs v true 0 Hnd Hin), Hconv.
    rewrite literal_lines_forwarded.
    unfold declare_length.
    destruct (AssignIfInRange_DWORD (Z.of_N n)); reflexivity.
  - intros Habs. destruct (mode_after_absent hs true 0 Habs) as [Hmode Hlines].
    unfold attach_headers. unfold bind at 1.
    rewrite add_headers_run; [ | exact Hacc | exact Hfit | ].
    + rewrite Hmode, Hlines, header_lines_name_value. unfold bind at 1.
      rewrite declare_length_chunked_run by exact Hacc.
      unfold ret. cbn [trace set_trace]. rewrite map_app, <- app_assoc.
      reflexivity.
    + intros _. apply Forall_forall. intros [k v] Hin Hcl.
      apply is_content_length_iff in Hcl. cbn [fst] in Hcl. subst k.
      exfalso. exact (Habs v Hin).
Qed.

Lemma attach_headers_run (hs : list (string * string)) (w : world) :
  accepts_every_header winhttp ->
  lines_fit hs ->
  (DCHECK_IS_ON = true -> lengths_convert hs) ->
  exists content_length_dword,
    attach_headers hs w =
    (Continue (fst (mode_after hs true 0), snd (mode_after hs true 0),
               content_length_dword),
     set_trace w
       (trace w ++ map Called_WinHttpAddRequestHeaders
                     (literal_lines hs
                      ++ if fst (mode_after hs true 0)
                         then [kTransferEncodingHeader] else []))).
Proof.
  intros Hacc Hfit Hconv. unfold attach_headers. unfold bind at 1.
  rewrite add_headers_run by assumption.
  destruct (mode_after hs true 0) as [chunked cl]. cbn [fst snd].
  destruct chunked.
  - exists WINHTTP_IGNORE_REQUEST_TOTAL_LENGTH. unfold bind at 1.
    rewrite declare_length_chunked_run by exact Hacc.
    unfold ret. cbn [trace set_trace]. rewrite map_app, <- app_assoc.
    reflexivity.
  - unfold declare_length.
    destruct (AssignIfInRange_DWORD cl) as [d|];
      [exists d | exists WINHTTP_IGNORE_REQUEST_TOTAL_LENGTH];
      unfold bind, ret; rewrite app_nil_r; reflexivity.
Qed.

Lemma mode_after_fixed (hs : list (string * string)) (chunked : bool)
                       (content_length : Z) :
  fst (mode_after hs chunked content_length) = false ->
  chunked = false \/
  exists v n, In (kContentLength, v) hs /\ StringToSizeT v = Some n.
Proof.
  revert chunked content_length.
  induction hs as [|h hs IH]; intros chunked content_length Hmode.
  - left. exact Hmode.
  - cbn [mode_after] in Hmode. destruct (is_content_length h) eqn:Hcl.
    + apply is_content_length_iff in Hcl. destruct h as [k v].
      cbn [fst snd] in *. subst k.
      destruct (StringToSizeT v) as [n|] eqn:Hconv.
      * right. exists v, n. split; [left; reflexivity | exact Hconv].
      * destruct (IH _ _ Hmode) as [Habs | (v' & n' & Hin & Hc)];
          [discriminate|].
        right. exists v', n'. split; [right; exact Hin | exact Hc].
    + destruct (IH _ _ Hmode) as [Hc | (v' & n' & Hin & Hc)];
        [left; exact Hc|].
      right. exists v', n'. split; [right; exact Hin | exact Hc].
Qed.

Lemma literal_lines_in (hs : list (string * string)) (h : string * string) :
  In h hs ->
  fst h <> kContentLength ->
  In (header_string_of h) (literal_lines hs).
Proof.
  intros Hin Hname. unfold literal_lines. apply in_map, filter_In.
  split; [exact Hin|]. apply negb_true_iff.
  destruct (is_content_length h) eqn:Hcl; [|reflexivity].
  apply is_content_length_iff in Hcl. contradiction.
Qed.

(** C6, as the code has it.  The Content-Length rule looks for the name
    "Content-Length" character for character.  An entry with any other
    name, be it the same letters in another case, is handed to WinHTTP as
    its literal Name: Value line and has no say in the mode: the mode is
    fixed-length only when an entry named exactly "Content-Length" carries a
    value that converts, and an entry with that exact name is the only one
    that is kept back. *)
Theorem content_length_name_is_exact (hs : list (string * string))
                                     (w : world) :
  accepts_every_header winhttp ->
  lines_fit hs ->
  (DCHECK_IS_ON = true -> lengths_convert hs) ->
  exists chunked content_length content_length_dword w',
    attach_headers hs w =
    (Continue (chunked, content_length, content_length_dword), w') /\
    (forall h, In h hs -> fst h <> kContentLength ->
       In (Called_WinHttpAddRequestHeaders (header_string_of h))
          (trace w')) /\
    (chunked = false ->
     exists v n, In (kContentLength, v) hs /\ StringToSizeT v = Some n) /\
    ((forall v, ~ In (kContentLength, v) hs) ->
     chunked = true /\
     In (Called_WinHttpAddRequestHeaders kTransferEncodingHeader)
        (trace w')).
Proof.
  intros Hacc Hfit Hconv.
  destruct (attach_headers_run hs w Hacc Hfit Hconv) as [dword Hrun].
  eexists. eexists. eexists. eexists. split; [exact Hrun|].
  cbn [trace set_trace]. split; [|split].
  - intros h Hin Hname. apply in_or_app. right. apply in_map.
    apply in_or_app. left. apply literal_lines_in; assumption.
  - intros Hfixed.
    destruct (mode_after_fixed hs true 0 Hfixed) as [Habs | H];
      [discriminate | exact H].
  - intros Habs.
    rewrite (proj1 (mode_after_absent hs true 0 Habs)). cbn [fst].
    split; [reflexivity|]. apply in_or_app. right. apply in_map.
    apply in_or_app. right. left. reflexivity.
Qed.

(** ** The steps around the request *)

Lemma run_WinHttpOpen {B : Type} (k : bool -> M B) (w : world) :
  bind WinHttpOpen k w =
  k (WinHttpOpen_result winhttp (trace w))
    (set_trace w (trace w ++ [Called_WinHttpOpen])).
Proof. reflexivity. Qed.

Lemma run_WinHttpSetTimeouts {B : Type} (ms : Z) (k : bool -> M B)
                             (w : world) :
  bind (WinHttpSetTimeouts ms) k w =
  k (WinHttpSetTimeouts_result winhttp (trace w))
    (set_trace w (trace w ++ [Called_WinHttpSetTimeouts ms])).
Proof. reflexivity. Qed.

Lemma run_WinHttpCrackUrl {B : Type} (u : string)
                          (k : option URL_COMPONENTS -> M B) (w : world) :
  bind (WinHttpCrackUrl u) k w =
  k (WinHttpCrackUrl_result winhttp (trace w) u)
    (set_trace w (trace w ++ [Called_WinHttpCrackUrl u])).
Proof. reflexivity. Qed.

Lemma run_WinHttpConnect {B : Type} (host : string) (port : Z)
                         (k : bool -> M B) (w : world) :
  bind (WinHttpConnect host port) k w =
  k (WinHttpConnect_result winhttp (trace w))
    (set_trace w (trace w ++ [Called_WinHttpConnect host port])).
Proof. reflexivity. Qed.

Lemma run_WinHttpOpenRequest {B : Type} (verb path : string) (secure : bool)
                             (k : bool -> M B) (w : world) :
  bind (WinHttpOpenRequest verb path secure) k w =
  k (WinHttpOpenRequest_result winhttp (trace w))
    (set_trace w (trace w ++ [Called_WinHttpOpenRequest verb path secure])).
Proof. reflexivity. Qed.

Lemma run_LOG_return {B : Type} (extra : string) (w : world) :
  bind (LOG_ERROR extra) (fun _ => @return_ B false) w =
  (Return false,
   set_trace w (trace w ++ [LOG_ERROR_WinHttpMessage extra])).
Proof. reflexivity. Qed.

Lemma Free_run (h : HINTERNET) (w : world) :
  exists evs,
    ScopedHINTERNETTraits_Free h w = (Continue tt, set_trace w (trace w ++ evs))
    /\ Forall closing_event evs.
Proof.
  unfold ScopedHINTERNETTraits_Free, bind, history, emit, LOG_ERROR, ret.
  cbn [trace set_trace].
  destruct (WinHttpCloseHandle_result winhttp (trace w)); cbn [negb].
  - exists [Called_WinHttpCloseHandle h]. split; [reflexivity|].
    repeat constructor.
  - exists [Called_WinHttpCloseHandle h;
            LOG_ERROR_WinHttpMessage "WinHttpCloseHandle"]. split.
    + unfold emit. cbn [trace set_trace]. rewrite <- app_assoc. reflexivity.
    + repeat constructor.
Qed.

Lemma Scoped_cases {A : Type} (h : HINTERNET) (body : M A)
                   (w : world) (r : result A) (w' : world) :
  ScopedHINTERNET h body w = (r, w') ->
  exists w1 evs,
    body w = (r, w1) /\
    trace w' = trace w1 ++ evs /\
    Forall closing_event evs /\
    response_body w' = response_body w1.
Proof.
  unfold ScopedHINTERNET. intros H.
  destruct (body w) as [r1 w1]. destruct (Free_run h w1) as (evs & Hfree & Hc).
  rewrite Hfree in H. cbn [snd] in H.
  destruct r1; inversion H; subst r w'.
  - exists w1, evs. auto.
  - exists w1, evs. auto.
  - exists w1, []. rewrite app_nil_r. auto.
Qed.

Lemma closing_is_setup (e : event) : closing_event e -> setup_event e.
Proof.
  destruct e; cbn [closing_event setup_event]; auto.
  intros ->. cbn [In]. auto 10.
Qed.

Lemma DCHECK_cases (c : bool) (w : world) :
  DCHECK c w = (Continue tt, w) \/ DCHECK c w = (Fatal check_failed, w).
Proof.
  unfold DCHECK. destruct DCHECK_IS_ON; [destruct c|]; auto.
Qed.

(** A call either ends in the set-up steps, without success and with
    nothing but set-up events in the log, or it comes to the request steps
    with the connection made, and ends as they end, the handles closed
    behind them. *)
Lemma ExecuteSynchronously_cases (this : HTTPTransport) (w : world)
                                 (r : result unit) (w' : world) :
  ExecuteSynchronously this w = (r, w') ->
  (r <> Return true /\
   response_body w' = response_body w /\
   exists evs, trace w' = trace w ++ evs /\ Forall setup_event evs)
  \/
  (exists w1 w2 evs1 evs2,
     trace w1 = trace w ++ evs1 /\
     Forall setup_event evs1 /\
     (exists host port, In (Called_WinHttpConnect host port) evs1) /\
     response_body w1 = response_body w /\
     request_steps this w1 = (r, w2) /\
     trace w' = trace w2 ++ evs2 /\
     Forall closing_event evs2 /\
     response_body w' = response_body w2).
Proof.
  intros H. unfold ExecuteSynchronously in H.
  rewrite run_WinHttpOpen in H.
  destruct (WinHttpOpen_result winhttp (trace w)); cbn [negb] in H.
  2:{ rewrite run_LOG_return in H. inversion H; subst. left.
      cbn [trace set_trace response_body]. rewrite <- app_assoc.
      repeat split; [discriminate|]. eexists. split; [reflexivity|].
      cbn [app]. repeat (constructor; [cbn [setup_event In]; auto 10|]).
      constructor. }
  apply Scoped_cases in H. destruct H as (wa & evsa & H & Hta & Hca & Hrba).
  pose proof (Forall_impl _ closing_is_setup Hca) as Hsa.
  rewrite run_WinHttpSetTimeouts in H.
  destruct (WinHttpSetTimeouts_result winhttp _); cbn [negb] in H.
  2:{ rewrite run_LOG_return in H. inversion H; subst. left.
      cbn [trace set_trace response_body] in *. rewrite Hta, <- !app_assoc.
      repeat split; [discriminate | exact Hrba |].
      eexists. split; [reflexivity|].
      cbn [app]. repeat (constructor; [cbn [setup_event In]; auto 10|]).
      exact Hsa. }
  rewrite run_WinHttpCrackUrl in H.
  destruct (WinHttpCrackUrl_result winhttp _ _) as [uc|].
  2:{ rewrite run_LOG_return in H. inversion H; subst. left.
      cbn [trace set_trace response_body] in *. rewrite Hta, <- !app_assoc.
      repeat split; [discriminate | exact Hrba |].
      eexists. split; [reflexivity|].
      cbn [app]. repeat (constructor; [cbn [setup_event In]; auto 10|]).
      exact Hsa. }
  unfold bind at 1 in H.
  match type of H with
  | context [DCHECK ?c ?w0] => destruct (DCHECK_cases c w0) as [Hd | Hd]
  end; rewrite Hd in H.
  2:{ inversion H; subst. left.
      cbn [trace set_trace response_body] in *. rewrite Hta, <- !app_assoc.
      repeat split; [discriminate | exact Hrba |].
      eexists. split; [reflexivity|].
      cbn [app]. repeat (constructor; [cbn [setup_event In]; auto 10|]).
      exact Hsa. }
  rewrite run_WinHttpConnect in H.
  destruct (WinHttpConnect_result winhttp _); cbn [negb] in H.
  2:{ rewrite run_LOG_return in H. inversion H; subst. left.
      cbn [trace set_trace response_body] in *. rewrite Hta, <- !app_assoc.
      repeat split; [discriminate | exact Hrba |].
      eexists. split; [reflexivity|].
      cbn [app]. repeat (constructor; [cbn [setup_event In]; auto 10|]).
      exact Hsa. }
  apply Scoped_cases in H. destruct H as (wb & evsb & H & Htb & Hcb & Hrbb).
  pose proof (Forall_impl _ closing_is_setup Hcb) as Hsb.
  rewrite run_WinHttpOpenRequest in H.
  destruct (WinHttpOpenRequest_result winhttp _); cbn [negb] in H.
  2:{ rewrite run_LOG_return in H. inversion H; subst. left.
      cbn [trace set_trace response_body] in *.
      rewrite Hta, Htb, <- !app_assoc.
      repeat split; [discriminate | congruence |].
      eexists. split; [reflexivity|].
      cbn [app]. repeat (constructor; [cbn [setup_event In]; auto 10|]).
      apply Forall_app. split; assumption. }
  apply Scoped_cases in H. destruct H as (wc & evsc & H & Htc & Hcc & Hrbc).
  right.
  match type of H with
  | request_steps _ ?w1 = _ => exists w1
  end.
  exists wc. eexists. exists (evsc ++ evsb ++ evsa).
  split; [cbn [trace set_trace]; rewrite <- !app_assoc; reflexivity|].
  split; [cbn [app]; repeat (constructor; [cbn [setup_event]; auto|]);
          constructor|].
  split; [eexists; eexists; cbn [app In]; auto 10|].
  split; [reflexivity|].
  split; [exact H|].
  split; [rewrite Hta, Htb, Htc, <- !app_assoc; reflexivity|].
  split; [|congruence].
  apply Forall_app. split; [exact Hcc|]. apply Forall_app.
  split; assumption.
Qed.

(** ** The request steps before the response *)

Lemma quiet_GetBytesBuffer (P : event -> Prop) (r : read_result) (off : Z) :
  quiet P (GetBytesBuffer r off).
Proof. unfold GetBytesBuffer. destruct r; quiet_steps. Qed.

Lemma quiet_frame_chunk (P : event -> Prop) (n : Z) : quiet P (frame_chunk n).
Proof.
  unfold frame_chunk. apply quiet_bind; [auto with quiet|]. intros v.
  destruct (_snprintf_08x sizeof_size v) as [rv digits]. quiet_steps.
Qed.

Lemma quiet_frame_identity (P : event -> Prop) (n : Z) :
  quiet P (frame_identity n).
Proof. unfold frame_identity. quiet_steps. Qed.

Lemma quiet_write_range (start size : Z) : quiet send_event (write_range start size).
Proof.
  unfold write_range, WinHttpWriteData. quiet_steps; cbn [send_event]; auto.
Qed.

Lemma quiet_send_block (chunked : bool) (r : read_result) :
  quiet send_event (send_block chunked r).
Proof.
  unfold send_block.
  apply quiet_bind; [apply quiet_GetBytesBuffer|]. intros n.
  destruct (n =? -1); [apply quiet_return_false|].
  apply quiet_bind; [apply quiet_DCHECK|]. intros _.
  apply quiet_bind; [apply quiet_DCHECK|]. intros _.
  apply quiet_bind.
  { destruct chunked; [apply quiet_frame_chunk | apply quiet_frame_identity]. }
  intros [start size].
  apply quiet_bind; [apply quiet_write_range|]. intros _. apply quiet_ret.
Qed.

Lemma quiet_send_loop (chunked : bool) (stream : list read_result) :
  quiet send_event (send_loop chunked stream).
Proof.
  induction stream as [|r stream IH]; cbn [send_loop].
  - apply quiet_bind; [apply quiet_send_block|]. intros _. apply quiet_ret.
  - apply quiet_bind; [apply quiet_send_block|]. intros n.
    destruct (n >? 0); [exact IH | apply quiet_ret].
Qed.

Lemma quiet_send_body (chunked : bool) (content_length : Z)
                      (stream : list read_result) :
  quiet send_event (send_body chunked content_length stream).
Proof.
  unfold send_body.
  apply quiet_bind; [apply quiet_set_total_written|]. intros _.
  apply quiet_bind; [apply quiet_send_loop|]. intros _.
  destruct chunked; cbn [negb]; quiet_steps.
Qed.

Lemma header_event_before_status (hs : list (string * string)) (e : event) :
  header_event hs e -> before_status e.
Proof.
  destruct e; cbn [header_event before_status]; auto.
  intros ->. split; discriminate.
Qed.

Lemma send_event_before_status (e : event) : send_event e -> before_status e.
Proof.
  destruct e; cbn [send_event before_status]; auto.
  intros ->. split; discriminate.
Qed.

Lemma setup_event_before_status (e : event) : setup_event e -> before_status e.
Proof.
  destruct e; cbn [setup_event before_status]; auto.
  cbn [In]. intros H.
  repeat (destruct H as [<- | H]; [split; discriminate|]). contradiction.
Qed.

Lemma closing_event_before_status (e : event) :
  closing_event e -> before_status e.
Proof. intros H. apply setup_event_before_status, closing_is_setup, H. Qed.

(** The steps up to the end of the send, as one computation with the
    response steps as its continuation. *)
Lemma request_steps_split (this : HTTPTransport) (w : world) :
  request_steps this w =
  bind (plan <- attach_headers (headers this) ;;
        let '(chunked, content_length, content_length_dword) := plan in
        ok <- WinHttpSendRequest content_length_dword ;;
        if negb ok then
          LOG_ERROR "WinHttpSendRequest" ;;
          return_ false
        else send_body chunked content_length (body_stream this))
       (fun _ => receive_response) w.
Proof.
  unfold request_steps, bind.
  destruct (attach_headers (headers this) w) as [[[[c cl] dw]|b|f] w1];
    try reflexivity.
  destruct (WinHttpSendRequest dw w1) as [[ok|b|f] w2]; try reflexivity.
  destruct ok; cbn [negb]; [reflexivity|].
  destruct (LOG_ERROR "WinHttpSendRequest" w2) as [[u|b|f] w3];
    reflexivity.
Qed.

Lemma quiet_send_steps (this : HTTPTransport) :
  quiet before_status
    (plan <- attach_headers (headers this) ;;
     let '(chunked, content_length, content_length_dword) := plan in
     ok <- WinHttpSendRequest content_length_dword ;;
     if negb ok then
       LOG_ERROR "WinHttpSendRequest" ;;
       return_ false
     else send_body chunked content_length (body_stream this)).
Proof.
  apply quiet_bind.
  { eapply quiet_weaken; [|apply quiet_attach_headers].
    apply header_event_before_status. }
  intros [[chunked cl] dw].
  apply quiet_bind.
  { unfold WinHttpSendRequest. quiet_steps. exact I. }
  intros [|]; cbn [negb].
  - eapply quiet_weaken; [|apply quiet_send_body].
    apply send_event_before_status.
  - quiet_steps. cbn [before_status]. split; discriminate.
Qed.

(** ** The response *)

Lemma received_bytes_app (t1 t2 : list event) :
  received_bytes (t1 ++ t2) = received_bytes t1 ++ received_bytes t2.
Proof.
  induction t1 as [|e t1 IH]; [reflexivity|].
  destruct e as [| | | | | | | | | |[bytes|]| | |]; cbn [app received_bytes];
    rewrite IH; try reflexivity.
  apply app_assoc.
Qed.

Lemma status_codes_app (t1 t2 : list event) :
  status_codes (t1 ++ t2) = status_codes t1 ++ status_codes t2.
Proof.
  induction t1 as [|e t1 IH]; [reflexivity|].
  destruct e; cbn [app status_codes]; rewrite IH; reflexivity.
Qed.

Lemma status_codes_In (t : list event) (s : option Z) :
  In (Called_WinHttpQueryHeaders s) t <-> In s (status_codes t).
Proof.
  induction t as [|e t IH]; [reflexivity|].
  destruct e; cbn [In status_codes]; rewrite IH; split;
    try (intros [H | H]; [discriminate H | exact H]);
    try (intros H; right; exact H).
  - intros [H | H]; [left; congruence | right; exact H].
  - intros [H | H]; [left; congruence | right; exact H].
Qed.

Lemma before_status_quiet (t : list event) :
  Forall before_status t ->
  status_codes t = [] /\
  received_bytes t = [] /\
  ~ In (LOG_ERROR_WinHttpMessage "WinHttpReadData") t.
Proof.
  induction 1 as [|e t He Hall (IH1 & IH2 & IH3)].
  - repeat split. intros [].
  - destruct e; cbn [before_status] in He; try contradiction;
      cbn [status_codes received_bytes In];
      (repeat split; [assumption | assumption |]);
      intros [Heq | Hin]; try discriminate Heq; try contradiction.
    inversion Heq. destruct He as [He _]. congruence.
Qed.

Lemma read_events_quiet (t : list event) :
  Forall read_event t -> status_codes t = [].
Proof.
  induction 1 as [|e t He Hall IH]; [reflexivity|].
  destruct e; cbn [read_event] in He; try contradiction;
    cbn [status_codes]; exact IH.
Qed.

Lemma read_loop_run (script : list (option (list byte))) (w : world) :
  exists reads,
    Forall read_event reads /\
    read_loop script w =
    (if readable script then Continue tt else Return false,
     set_response_body (set_trace w (trace w ++ reads))
       (option_map (fun s => s ++ received_bytes reads) (response_body w)))
    /\
    (In (LOG_ERROR_WinHttpMessage "WinHttpReadData") reads <->
     readable script = false).
Proof.
  revert w. induction script as [|r script IH]; intros w.
  - exists [Called_WinHttpReadData (Some [])].
    split; [repeat constructor|]. split; [reflexivity|].
    cbn [In readable]. split; [intros [H | []]; discriminate H | discriminate].
  - destruct r as [bytes|].
    + destruct bytes as [|x bytes].
      * exists [Called_WinHttpReadData (Some [])].
        split; [repeat constructor|]. split; [reflexivity|].
        cbn [In readable].
        split; [intros [H | []]; discriminate H | discriminate].
      * destruct (IH (set_response_body
                        (set_trace w (trace w ++ [Called_WinHttpReadData
                                                    (Some (x :: bytes))]))
                        (option_map (fun s => s ++ x :: bytes)
                                    (response_body w))))
          as (reads & Hall & Hrun & Hlog).
        exists (Called_WinHttpReadData (Some (x :: bytes)) :: reads).
        split; [constructor; [exact I | exact Hall]|]. split.
        -- cbn [read_loop readable]. unfold WinHttpReadData.
           unfold bind at 1. unfold bind at 1. unfold emit, ret at 1.
           cbv beta iota. unfold bind at 1. unfold response_body_append.
           cbv beta iota.
           replace (Z.of_nat (length (x :: bytes)) >? 0) with true
             by (symmetry; apply Z.gtb_lt; cbn [length]; lia).
           cbn [trace response_body set_trace set_response_body]
             in Hrun |- *.
           rewrite Hrun. cbn [received_bytes].
           rewrite <- app_assoc. cbn [app].
           destruct (response_body w) as [s|]; cbn [option_map];
             [rewrite <- app_assoc|]; reflexivity.
        -- cbn [In readable]. rewrite <- Hlog.
           split; [intros [H | H]; [discriminate H | exact H] | auto].
    + exists [Called_WinHttpReadData None;
              LOG_ERROR_WinHttpMessage "WinHttpReadData"].
      split; [repeat constructor|]. split.
      * cbn [read_loop readable received_bytes].
        unfold WinHttpReadData, LOG_ERROR, bind, emit, ret, return_.
        cbn [trace set_trace response_body set_response_body].
        rewrite <- app_assoc. cbn [app].
        destruct w as [t b tw [s|]]; cbn [option_map response_body];
          [rewrite app_nil_r|]; reflexivity.
      * cbn [In readable]. split; auto.
Qed.

Lemma receive_response_cases (w : world) (r : result unit) (w' : world) :
  receive_response w = (r, w') ->
  exists evs,
    trace w' = trace w ++ evs /\
    response_outcome (response_body w) (WinHttpReadData_script winhttp)
                     evs r (response_body w').
Proof.
  unfold receive_response, WinHttpReceiveResponse, WinHttpQueryHeaders.
  unfold bind at 1. unfold bind at 1. unfold bind at 1.
  unfold history at 1, emit at 1, ret at 1. cbv beta iota.
  destruct (WinHttpReceiveResponse_result winhttp (trace w)); cbn [negb].
  2:{ rewrite run_LOG_return. intros H. inversion H; subst.
      eexists. cbn [trace set_trace response_body]. rewrite <- app_assoc.
      split; [reflexivity|]. apply receive_failed. }
  unfold bind at 1. unfold bind at 1. unfold bind at 1.
  unfold history at 1, emit at 1, ret at 1. cbv beta iota.
  cbn [trace set_trace].
  destruct (WinHttpQueryHeaders_result winhttp _) as [status_code|].
  2:{ rewrite run_LOG_return. intros H. inversion H; subst.
      eexists. cbn [trace set_trace response_body]. rewrite <- !app_assoc.
      split; [reflexivity|]. apply status_query_failed. }
  destruct (Z.eqb_spec status_code 200) as [-> | Hne]; cbn [negb].
  2:{ unfold bind, emit, return_. intros H. inversion H; subst.
      eexists. cbn [trace set_trace response_body]. rewrite <- !app_assoc.
      split; [reflexivity|]. apply status_not_200. exact Hne. }
  unfold bind at 1. unfold response_body_is_null. cbv beta iota.
  cbn [response_body set_trace].
  destruct (response_body w) as [s|] eqn:Hrb; cbn [negb].
  - unfold bind at 1. unfold bind at 1. unfold response_body_clear.
    cbv beta iota. cbn [response_body set_trace]. rewrite Hrb.
    cbn [option_map].
    match goal with
    | |- context [read_loop ?sc ?w0] =>
        destruct (read_loop_run sc w0) as (reads & Hall & Hrun & Hlog)
    end.
    rewrite Hrun.
    cbn [trace response_body set_trace set_response_body option_map app].
    destruct (readable (WinHttpReadData_script winhttp)) eqn:Hreadable;
      intros H; inversion H; subst;
      cbn [trace response_body set_trace set_response_body];
      exists (Called_WinHttpReceiveResponse
              :: Called_WinHttpQueryHeaders (Some 200) :: reads);
      (split; [rewrite <- !app_assoc; reflexivity|]).
    + apply (status_200_body_read _ _ s); auto.
      intros Hin. apply Hlog in Hin. discriminate Hin.
    + apply (status_200_read_failed _ _ s); auto.
      apply Hlog. reflexivity.
  - unfold bind, ret, return_. intros H. inversion H; subst.
    eexists. cbn [trace set_trace response_body]. rewrite <- !app_assoc.
    split; [reflexivity|]. rewrite Hrb. apply status_200_no_capture.
    reflexivity.
Qed.

(** A call ends before the response steps, without success and with the
    caller's string as it was, or it goes through them; what comes before
    them and after them in the log are set-up, header and send events and
    the closing of the handles. *)
Lemma ExecuteSynchronously_summary (this : HTTPTransport) (w : world)
                                   (r : result unit) (w' : world) :
  ExecuteSynchronously this w = (r, w') ->
  exists evs,
    trace w' = trace w ++ evs /\
    ((r <> Return true /\
      response_body w' = response_body w /\
      Forall before_status evs)
     \/
     (exists pre mid post,
        evs = pre ++ mid ++ post /\
        Forall before_status pre /\
        Forall before_status post /\
        response_outcome (response_body w) (WinHttpReadData_script winhttp)
                         mid r (response_body w'))).
Proof.
  intros H. apply ExecuteSynchronously_cases in H.
  destruct H as [(Hr & Hrb & evs & Ht & Hall)
                | (w1 & w2 & evs1 & evs2 & Ht1 & Hall1 & _ & Hrb1 & Hsteps
                   & Ht2 & Hall2 & Hrb2)].
  - exists evs. split; [exact Ht|]. left. repeat split; try assumption.
    eapply Forall_impl; [|exact Hall]. apply setup_event_before_status.
  - apply (Forall_impl _ setup_event_before_status) in Hall1.
    apply (Forall_impl _ closing_event_before_status) in Hall2.
    rewrite request_steps_split in Hsteps. unfold bind at 1 in Hsteps.
    match type of Hsteps with
    | context [let (_, _) := ?m w1 in _] =>
        destruct (m w1) as [r3 w3] eqn:Hsend;
        destruct (quiet_send_steps this w1 r3 w3 Hsend)
          as (Hr3 & Hrb3 & evs3 & Ht3 & Hall3)
    end.
    destruct r3 as [u|b|f].
    + apply receive_response_cases in Hsteps.
      destruct Hsteps as (mid & Htm & Hout).
      exists (evs1 ++ evs3 ++ mid ++ evs2). split.
      { rewrite Ht2, Htm, Ht3, Ht1, <- !app_assoc. reflexivity. }
      right. exists (evs1 ++ evs3), mid, evs2.
      split; [rewrite <- !app_assoc; reflexivity|].
      split; [apply Forall_app; split; assumption|].
      split; [exact Hall2|].
      rewrite Hrb2. rewrite Hrb3, Hrb1 in Hout. exact Hout.
    + inversion Hsteps; subst.
      exists (evs1 ++ evs3 ++ evs2). split.
      { rewrite Ht2, Ht3, Ht1, <- !app_assoc. reflexivity. }
      left. split; [exact Hr3|]. split; [congruence|].
      repeat (apply Forall_app; split); assumption.
    + inversion Hsteps; subst.
      exists (evs1 ++ evs3 ++ evs2). split.
      { rewrite Ht2, Ht3, Ht1, <- !app_assoc. reflexivity. }
      left. split; [discriminate|]. split; [congruence|].
      repeat (apply Forall_app; split); assumption.
Qed.

Lemma response_outcome_status (rb : option (list byte))
                              (script : list (option (list byte)))
                              (mid : list event) (r : result unit)
                              (rb' : option (list byte)) :
  response_outcome rb script mid r rb' ->
  (status_codes mid = [Some 200] /\
   rb' = option_map (fun _ => received_bytes mid) rb /\
   (r = Return true /\
    (rb = None \/ readable script = true) /\
    ~ In (LOG_ERROR_WinHttpMessage "WinHttpReadData") mid
    \/
    r = Return false /\ rb <> None /\ readable script = false /\
    In (LOG_ERROR_WinHttpMessage "WinHttpReadData") mid))
  \/
  (r = Return false /\ rb' = rb /\
   ~ In (LOG_ERROR_WinHttpMessage "WinHttpReadData") mid /\
   (status_codes mid = [] \/ status_codes mid = [None] \/
    exists c, c <> 200 /\ status_codes mid = [Some c])).
Proof.
  intros H. destruct H.
  - right. repeat split; auto.
    cbn [In]. intros [H | [H | []]]; discriminate H.
  - right. repeat split; auto.
    cbn [In]. intros [H | [H | [H | []]]]; discriminate H.
  - right. repeat split; eauto.
    cbn [In]. intros [H0 | [H0 | [H0 | []]]]; discriminate H0.
  - left. subst rb. repeat split. left. repeat split; auto.
    cbn [In]. intros [H | [H | []]]; discriminate H.
  - left. subst rb. cbn [status_codes received_bytes option_map].
    rewrite (read_events_quiet reads) by assumption.
    repeat split. left. repeat split; auto.
    cbn [In]. intros [H3 | [H3 | H3]]; try discriminate H3. contradiction.
  - left. subst rb. cbn [status_codes received_bytes option_map].
    rewrite (read_events_quiet reads) by assumption.
    repeat split. right. repeat split; auto; [discriminate|].
    cbn [In]. auto.
Qed.

Lemma around_response (pre mid post : list event) :
  Forall before_status pre ->
  Forall before_status post ->
  status_codes (pre ++ mid ++ post) = status_codes mid /\
  received_bytes (pre ++ mid ++ post) = received_bytes mid /\
  (In (LOG_ERROR_WinHttpMessage "WinHttpReadData") (pre ++ mid ++ post) <->
   In (LOG_ERROR_WinHttpMessage "WinHttpReadData") mid).
Proof.
  intros Hpre Hpost.
  destruct (before_status_quiet pre Hpre) as (Hs1 & Hr1 & Hl1).
  destruct (before_status_quiet post Hpost) as (Hs2 & Hr2 & Hl2).
  rewrite !status_codes_app, !received_bytes_app, Hs1, Hs2, Hr1, Hr2.
  rewrite !app_nil_r. cbn [app]. repeat split; auto.
  - intros H. apply in_app_or in H. destruct H as [H | H]; [contradiction|].
    apply in_app_or in H. destruct H as [H | H]; [exact H | contradiction].
  - intros H. apply in_or_app. right. apply in_or_app. left. exact H.
Qed.

(** C9. With a non-null [response_body], a call that does not succeed and
    did not fail in reading the response body leaves the caller's string
    exactly as it was at entry; the string is cleared and appended to only
    once the status code 200 has been seen; and when a read of the response
    body fails, the call returns false with the bytes read until then in the
    string. *)
Theorem response_body_kept_until_200 (this : HTTPTransport)
                                     (stack s0 : list byte)
                                     (r : result unit) (w' : world) :
  ExecuteSynchronously this (initial_world stack (Some s0)) = (r, w') ->
  (r <> Return true ->
   ~ In (LOG_ERROR_WinHttpMessage "WinHttpReadData") (trace w') ->
   response_body w' = Some s0) /\
  (~ In (Called_WinHttpQueryHeaders (Some 200)) (trace w') ->
   response_body w' = Some s0) /\
  (In (LOG_ERROR_WinHttpMessage "WinHttpReadData") (trace w') ->
   r = Return false /\
   In (Called_WinHttpQueryHeaders (Some 200)) (trace w') /\
   response_body w' = Some (received_bytes (trace w'))).
Proof.
  intros H. apply ExecuteSynchronously_summary in H.
  destruct H as (evs & Ht & H). cbn [trace initial_world app] in Ht.
  rewrite Ht. clear Ht. cbn [response_body initial_world] in H.
  destruct H as [(Hr & Hrb & Hall)
                | (pre & mid & post & -> & Hpre & Hpost & Hout)].
  - destruct (before_status_quiet evs Hall) as (_ & _ & Hlog).
    repeat split; auto; contradiction.
  - destruct (around_response pre mid post Hpre Hpost) as (Hs & Hrd & Hlog).
    apply response_outcome_status in Hout.
    destruct Hout as [(Hst & Hrb & Hcase) | (Hr & Hrb & Hnolog & Hst)].
    + assert (H200 : In (Called_WinHttpQueryHeaders (Some 200))
                        (pre ++ mid ++ post)).
      { apply status_codes_In. rewrite Hs, Hst. left. reflexivity. }
      cbn [option_map] in Hrb.
      destruct Hcase as [(Hr & _ & Hnolog) | (Hr & _ & _ & Hin)].
      * split; [intros Hne; congruence|].
        split; [intros Hno; contradiction|].
        intros Hin. apply Hlog in Hin. contradiction.
      * split; [intros _ Hno; exfalso; apply Hno, Hlog, Hin|].
        split; [intros Hno; contradiction|].
        intros _. rewrite Hrd. auto.
    + split; [intros _ _; exact Hrb|].
      split; [intros _; exact Hrb|].
      intros Hin. apply Hlog in Hin. contradiction.
Qed.

(** ** A Content-Length value that does not convert *)

Lemma bind_ext {A B : Type} (m : M A) (k1 k2 : A -> M B) :
  (forall a w, k1 a w = k2 a w) ->
  forall w, bind m k1 w = bind m k2 w.
Proof.
  intros Hk w. unfold bind. destruct (m w) as [[a|b|f] w1]; auto.
Qed.

Lemma Scoped_ext {A : Type} (h : HINTERNET) (body1 body2 : M A) :
  (forall w, body1 w = body2 w) ->
  forall w, ScopedHINTERNET h body1 w = ScopedHINTERNET h body2 w.
Proof. intros Hb w. unfold ScopedHINTERNET. rewrite Hb. reflexivity. Qed.

Lemma add_headers_unconverted (hs : list (string * string))
                              (content_length : Z) (w : world) :
  DCHECK_IS_ON = false ->
  Forall (fun h => is_content_length h = true ->
                   StringToSizeT (snd h) = None) hs ->
  add_headers hs true content_length w =
  add_headers (filter (fun h => negb (is_content_length h)) hs)
              true content_length w.
Proof.
  intros Hoff Hall. revert w.
  induction Hall as [|h hs Hh Hall IH]; intros w; [reflexivity|].
  cbn [add_headers filter]. unfold is_content_length in *.
  destruct (String.eqb (fst h) kContentLength) eqn:Hname; cbn [negb].
  - rewrite (Hh eq_refl). unfold DCHECK. rewrite Hoff. rewrite run_ret.
    apply IH.
  - cbn [add_headers]. rewrite Hname.
    apply bind_ext. intros _ w1. apply bind_ext. intros ok w2.
    destruct ok; cbn [negb]; [apply IH | reflexivity].
Qed.

Lemma add_headers_stops (hs : list (string * string)) (v : string) :
  DCHECK_IS_ON = true ->
  In (kContentLength, v) hs ->
  StringToSizeT v = None ->
  forall chunked content_length w r w',
    add_headers hs chunked content_length w = (r, w') ->
    r = Return false \/ r = Fatal check_failed.
Proof.
  intros Hon Hin Hconv.
  induction hs as [|h hs IH]; intros chunked cl w r w' Hrun; [contradiction|].
  cbn [add_headers] in Hrun.
  destruct (String.eqb (fst h) kContentLength) eqn:Hname.
  - destruct (StringToSizeT (snd h)) as [n|] eqn:Hh.
    + unfold DCHECK in Hrun. rewrite Hon in Hrun. cbn [negb] in Hrun.
      rewrite run_ret in Hrun.
      destruct Hin as [Hin | Hin];
        [subst h; cbn [snd] in Hh; congruence|].
      exact (IH Hin _ _ _ _ _ Hrun).
    + unfold DCHECK in Hrun. rewrite Hon in Hrun. cbn [negb] in Hrun.
      inversion Hrun. right. reflexivity.
  - destruct Hin as [Hin | Hin].
    { subst h. cbn [fst] in Hname. rewrite String.eqb_refl in Hname.
      discriminate. }
    unfold bind at 1 in Hrun. unfold checked_cast_uint32 in Hrun.
    destruct ((0 <=? _) && (_ <=? UINT32_MAX)).
    2:{ inversion Hrun. right. reflexivity. }
    unfold ret at 1 in Hrun. cbv beta iota in Hrun.
    unfold bind at 1 in Hrun.
    destruct (WinHttpAddRequestHeaders (header_string_of h) w)
      as [[ok|b|f] w1] eqn:Hadd;
      unfold WinHttpAddRequestHeaders, bind, history, emit, ret in Hadd;
      inversion Hadd; subst.
    destruct (WinHttpAddRequestHeaders_result winhttp (trace w)
                (header_string_of h)); cbn [negb] in Hrun.
    + exact (IH Hin _ _ _ _ _ Hrun).
    + rewrite run_LOG_return in Hrun. inversion Hrun. left. reflexivity.
Qed.

(** C7, as the code has it.  A Content-Length value that does not convert
    does not end the call before the network is touched: the header loop
    runs on the open request handle, after the session, connect and request
    steps.  With DCHECKs compiled out the entry is dropped and the call goes
    on exactly as it does for the same request without the entry, in
    chunked mode.  With DCHECKs compiled in the call never succeeds and the
    request is never sent: the log holds set-up and header events only. *)
Theorem unconverted_content_length (this : HTTPTransport) (v : string)
                                   (w : world) :
  NoDup (map fst (headers this)) ->
  In (kContentLength, v) (headers this) ->
  StringToSizeT v = None ->
  (DCHECK_IS_ON = false ->
   ExecuteSynchronously this w =
   ExecuteSynchronously (without_content_length this) w) /\
  (DCHECK_IS_ON = true ->
   forall r w',
     ExecuteSynchronously this w = (r, w') ->
     r <> Return true /\
     exists evs,
       trace w' = trace w ++ evs /\
       Forall (fun e => setup_event e \/ header_event (headers this) e) evs).
Proof.
  intros Hnd Hin Hconv. split.
  - intros Hoff. revert w. unfold ExecuteSynchronously.
    apply bind_ext. intros ok w0. destruct ok; cbn [negb]; [|reflexivity].
    revert w0. apply Scoped_ext.
    cbn [timeout url method without_content_length].
    apply bind_ext. intros ok w0. destruct ok; cbn [negb]; [|reflexivity].
    revert w0. apply bind_ext. intros [uc|] w0; [|reflexivity].
    revert w0. apply bind_ext. intros _. apply bind_ext. intros ok w0.
    destruct ok; cbn [negb]; [|reflexivity].
    revert w0. apply Scoped_ext. apply bind_ext. intros ok w0.
    destruct ok; cbn [negb]; [|reflexivity].
    revert w0. apply Scoped_ext. intros w0.
    unfold request_steps. cbn [headers body_stream without_content_length].
    unfold attach_headers. rewrite !run_bind_assoc. unfold bind at 1 4.
    rewrite add_headers_unconverted; [reflexivity | exact Hoff |].
    apply Forall_forall. intros [k v'] Hin' Hcl.
    apply is_content_length_iff in Hcl. cbn [fst snd] in *. subst k.
    rewrite (NoDup_names_value _ _ v' v Hnd Hin' Hin). exact Hconv.
  - intros Hon r w' Hrun.
    apply ExecuteSynchronously_cases in Hrun.
    destruct Hrun as [(Hr & _ & evs & Ht & Hall)
                     | (w1 & w2 & evs1 & evs2 & Ht1 & Hall1 & _ & _ & Hsteps
                        & Ht2 & Hall2 & _)].
    + split; [exact Hr|]. exists evs. split; [exact Ht|].
      eapply Forall_impl; [|exact Hall]. cbv beta. auto.
    + unfold request_steps, attach_headers in Hsteps.
      rewrite !run_bind_assoc in Hsteps. unfold bind at 1 in Hsteps.
      destruct (add_headers (headers this) true 0 w1) as [r1 w3] eqn:Hadd.
      destruct (quiet_add_headers _ _ _ _ _ _ Hadd)
        as (_ & _ & evs3 & Ht3 & Hall3).
      destruct (add_headers_stops _ v Hon Hin Hconv _ _ _ _ _ Hadd)
        as [-> | ->]; inversion Hsteps; subst r w2;
        (split; [discriminate|]);
        exists (evs1 ++ evs3 ++ evs2);
        (split; [rewrite Ht2, Ht3, Ht1, <- !app_assoc; reflexivity|]);
        repeat (apply Forall_app; split);
        (eapply Forall_impl; [|eassumption]); cbv beta; intros e He;
        auto using closing_is_setup.
Qed.

(** ** More about the send loop *)

(** X1. The range the framer hands to the write lies inside [buf], in both
    modes. *)
Theorem write_range_in_buf (chunked : bool) (d : Z) (w : world) :
  0 <= d <= sizeof_data ->
  Z.of_nat (length (buf w)) = sizeof_buf ->
  exists write_start write_size w',
    (if chunked then frame_chunk d else frame_identity d) w
    = (Continue (write_start, write_size), w') /\
    offsetof_size <= write_start /\
    0 <= write_size /\
    write_start + write_size <= sizeof_buf /\
    (chunked = true ->
     write_start < offsetof_crlf0 /\
     write_start + write_size = offsetof_data + d + sizeof_crlf1) /\
    (chunked = false ->
     write_start = offsetof_data /\
     write_start + write_size = offsetof_data + d).
Proof.
  intros Hd Hb. destruct chunked.
  - destruct (buf_fields (buf w) d Hb Hd)
      as (s0 & c0 & c1 & d0 & t0 & t1 & rest & Hbuf & Hs0 & Hd0 & Hrest).
    pose proof (chunk_size_field_length d) as Hk.
    pose proof (skip_leading_zeroes_spec (format_08x d) [] 8
                  (format_08x_digits_length 8 d)) as Hr.
    rewrite app_nil_r in Hr. cbv zeta in Hr.
    destruct Hr as (Hr & _); [lia|]. rewrite <- Hk in Hr.
    eexists. eexists. eexists. split.
    { apply (frame_chunk_run w s0 d0 rest c0 c1 t0 t1 d Hbuf Hs0 Hd0). lia. }
    unfold offsetof_data, offsetof_crlf0, offsetof_size, sizeof_buf,
      sizeof_size, sizeof_crlf0, sizeof_crlf1, sizeof_data in *.
    split; [lia|]. split; [lia|]. split; [lia|].
    split; [intros _; split; lia | intros H; discriminate H].
  - unfold frame_identity.
    rewrite run_checked_cast_uint32
      by (unfold UINT32_MAX, sizeof_data in *; lia).
    eexists. eexists. eexists. split; [reflexivity|].
    unfold offsetof_data, offsetof_crlf0, offsetof_size, sizeof_buf,
      sizeof_size, sizeof_crlf0, sizeof_crlf1, sizeof_data in *.
    split; [lia|]. split; [lia|]. split; [lia|].
    split; [intros H; discriminate H | intros _; split; lia].
Qed.

Lemma send_block_failed (chunked : bool) (w : world) :
  send_block chunked read_failed w = (Return false, w).
Proof. reflexivity. Qed.

Lemma send_block_whole (chunked : bool) (data : list byte) (w : world) :
  takes_every_write winhttp ->
  Z.of_nat (length (buf w)) = sizeof_buf ->
  data <> [] ->
  Z.of_nat (length data) <= sizeof_data ->
  exists w',
    send_block chunked (read_bytes data) w
    = (Continue (Z.of_nat (length data)), w') /\
    trace w' = trace w ++ [Called_WinHttpWriteData
                             (if chunked then chunk_frame data else data)] /\
    Z.of_nat (length (buf w')) = sizeof_buf.
Proof.
  intros Hw Hb Hne Hn. destruct chunked.
  - destruct (send_block_chunked_run w data Hb Hn) as (rest & Hrest & Hrun).
    rewrite Hrun. unfold bind. rewrite one_write_whole by exact Hw.
    eexists. split; [reflexivity|].
    cbn [trace buf set_trace set_total set_buf]. split; [reflexivity|].
    apply (framed_buf_length data rest Hrest).
  - destruct (send_block_identity_run w data Hb Hn) as (b & Hlen & Hrun).
    rewrite Hrun. destruct data as [|x data']; [congruence|].
    unfold bind. rewrite one_write_whole by exact Hw.
    eexists. split; [reflexivity|].
    cbn [trace buf set_trace set_total set_buf]. split; [reflexivity|].
    exact Hlen.
Qed.

(** X2. When the body stream fails a read, the send ends there with false:
    the blocks read before are written, nothing is written for the failed
    read (in chunked mode no last-chunk either), nothing is logged, and the
    check of the total is not reached. *)
Theorem body_read_failure_ends_send (chunked : bool) (content_length : Z)
                                    (reads : list (list byte))
                                    (rest : list read_result) (w : world) :
  takes_every_write winhttp ->
  Z.of_nat (length (buf w)) = sizeof_buf ->
  Forall (fun d => d <> [] /\ Z.of_nat (length d) <= sizeof_data) reads ->
  exists w',
    send_body chunked content_length
              (map read_bytes reads ++ read_failed :: rest) w
    = (Return false, w') /\
    trace w' = trace w ++ map Called_WinHttpWriteData
                 (if chunked then map chunk_frame reads else reads) /\
    response_body w' = response_body w.
Proof.
  intros Hw Hb Hall.
  assert (Hloop : forall w0,
            Z.of_nat (length (buf w0)) = sizeof_buf ->
            exists w',
              send_loop chunked (map read_bytes reads ++ read_failed :: rest)
                        w0 = (Return false, w') /\
              trace w' = trace w0 ++ map Called_WinHttpWriteData
                           (if chunked then map chunk_frame reads
                            else reads) /\
              response_body w' = response_body w0).
  { induction Hall as [|d reads [Hne Hn] Hall IH]; intros w0 Hb0.
    - cbn [map app send_loop]. unfold bind. rewrite send_block_failed.
      exists w0. destruct chunked; cbn [map]; rewrite app_nil_r; auto.
    - cbn [map app send_loop].
      destruct (send_block_whole chunked d w0 Hw Hb0 Hne Hn)
        as (w1 & Hrun & Ht & Hb1).
      unfold bind at 1. rewrite Hrun.
      replace (Z.of_nat (length d) >? 0) with true.
      2:{ symmetry. apply Z.gtb_lt. destruct d; [congruence|].
          cbn [length]. lia. }
      destruct (IH w1 Hb1) as (w' & Hloop & Ht' & Hrb').
      exists w'. split; [exact Hloop|]. split.
      + rewrite Ht', Ht, <- app_assoc. destruct chunked; reflexivity.
      + rewrite Hrb'.
        destruct (quiet_send_block chunked (read_bytes d) w0 _ _ Hrun)
          as (_ & Hrb & _). exact Hrb. }
  unfold send_body, set_total_written. unfold bind at 1. unfold bind at 1.
  destruct (Hloop (set_total w 0) Hb) as (w' & Hrun & Ht & Hrb).
  rewrite Hrun. exists w'. auto.
Qed.

Lemma one_write_cases (w : world) (payload : list byte)
                      (r : result unit) (w' : world) :
  one_write w payload = (r, w') ->
  (r = Continue tt /\
   trace w' = trace w ++ [Called_WinHttpWriteData payload] /\
   buf w' = buf w)
  \/ (forall u, r <> Continue u).
Proof.
  unfold one_write. intros H.
  destruct (WinHttpWriteData_result winhttp (trace w) payload) as [n|].
  - destruct (DCHECK_IS_ON && negb (n =? Z.of_nat (length payload)));
      inversion H; subst; [right; discriminate | left; auto].
  - inversion H; subst. right. discriminate.
Qed.

Lemma send_loop_complete (chunked : bool) (reads : list (list byte))
                         (w w' : world) :
  Z.of_nat (length (buf w)) = sizeof_buf ->
  Forall (fun d => Z.of_nat (length d) <= sizeof_data) reads ->
  send_loop chunked (map read_bytes reads) w = (Continue tt, w') ->
  written_blocks (trace w')
  = written_blocks (trace w) ++ body_blocks chunked reads.
Proof.
  intros Hb Hall. revert w Hb.
  assert (Hnil : forall w0,
            Z.of_nat (length (buf w0)) = sizeof_buf ->
            forall n w1,
              send_block chunked (read_bytes []) w0 = (Continue n, w1) ->
              written_blocks (trace w1)
              = written_blocks (trace w0)
                ++ (if chunked then [terminal_chunk] else [])).
  { intros w0 Hb0 n w1 Hrun. destruct chunked.
    - destruct (send_block_chunked_run w0 [] Hb0) as (rest & _ & Hrun').
      { cbn [length]. unfold sizeof_data. lia. }
      rewrite Hrun' in Hrun. unfold bind in Hrun.
      destruct (one_write _ (chunk_frame [])) as [r2 w2] eqn:Hone.
      destruct (one_write_cases _ _ _ _ Hone) as [(-> & Ht & _) | Hno].
      + inversion Hrun; subst. rewrite Ht, written_blocks_app. reflexivity.
      + destruct r2; [exfalso; exact (Hno _ eq_refl) | |]; discriminate.
    - destruct (send_block_identity_run w0 [] Hb0) as (b & _ & Hrun').
      { cbn [length]. unfold sizeof_data. lia. }
      rewrite Hrun' in Hrun. inversion Hrun; subst.
      cbn [trace set_buf]. rewrite app_nil_r. reflexivity. }
  induction Hall as [|d reads Hd Hall IH]; intros w Hb Hrun.
  - cbn [map send_loop] in Hrun. unfold bind in Hrun.
    destruct (send_block chunked (read_bytes []) w) as [[n|b|f] w1] eqn:Hblk;
      inversion Hrun; subst.
    rewrite (Hnil w Hb n w' Hblk). unfold body_blocks.
    destruct chunked; reflexivity.
  - cbn [map send_loop] in Hrun. unfold bind in Hrun.
    destruct (send_block chunked (read_bytes d) w) as [[n|b|f] w1] eqn:Hblk;
      try discriminate.
    destruct d as [|x d'].
    + assert (Hn : n = 0).
      { destruct chunked.
        - destruct (send_block_chunked_run w [] Hb Hd) as (rest & _ & Hrun').
          rewrite Hrun' in Hblk. unfold bind in Hblk.
          destruct (one_write _ _) as [[u|b|f] w2]; inversion Hblk.
          reflexivity.
        - destruct (send_block_identity_run w [] Hb Hd) as (b & _ & Hrun').
          rewrite Hrun' in Hblk. inversion Hblk. reflexivity. }
      subst n. cbn [Z.gtb Z.compare] in Hrun. inversion Hrun; subst.
      rewrite (Hnil w Hb 0 w' Hblk). unfold body_blocks.
      destruct chunked; reflexivity.
    + assert (Hstep : n = Z.of_nat (length (x :: d')) /\
                      Z.of_nat (length (buf w1)) = sizeof_buf /\
                      written_blocks (trace w1)
                      = written_blocks (trace w)
                        ++ [if chunked then chunk_frame (x :: d')
                            else x :: d']).
      { destruct chunked.
        - destruct (send_block_chunked_run w (x :: d') Hb Hd)
            as (rest & Hrest & Hrun').
          rewrite Hrun' in Hblk. unfold bind in Hblk.
          destruct (one_write _ _) as [r2 w2] eqn:Hone.
          destruct (one_write_cases _ _ _ _ Hone) as [(-> & Ht & Hbuf) | Hno].
          + inversion Hblk; subst. split; [reflexivity|]. split.
            * rewrite Hbuf. apply (framed_buf_length (x :: d') rest Hrest).
            * rewrite Ht, written_blocks_app. reflexivity.
          + destruct r2; [exfalso; exact (Hno _ eq_refl) | |]; discriminate.
        - destruct (send_block_identity_run w (x :: d') Hb Hd)
            as (b & Hlen & Hrun').
          rewrite Hrun' in Hblk. unfold bind in Hblk.
          destruct (one_write _ _) as [r2 w2] eqn:Hone.
          destruct (one_write_cases _ _ _ _ Hone) as [(-> & Ht & Hbuf) | Hno].
          + inversion Hblk; subst. split; [reflexivity|]. split.
            * rewrite Hbuf. exact Hlen.
            * rewrite Ht, written_blocks_app. reflexivity.
          + destruct r2; [exfalso; exact (Hno _ eq_refl) | |]; discriminate. }
      destruct Hstep as (-> & Hb1 & Hw1).
      replace (Z.of_nat (length (x :: d')) >? 0) with true in Hrun
        by (symmetry; apply Z.gtb_lt; cbn [length]; lia).
      rewrite (IH w1 Hb1 Hrun), Hw1, <- app_assoc.
      unfold body_blocks. cbn [reads_until_eof map app].
      destruct chunked; reflexivity.
Qed.

Lemma send_body_complete (chunked : bool) (content_length : Z)
                          (reads : list (list byte)) (w w' : world) :
  Z.of_nat (length (buf w)) = sizeof_buf ->
  Forall (fun d => Z.of_nat (length d) <= sizeof_data) reads ->
  send_body chunked content_length (map read_bytes reads) w
  = (Continue tt, w') ->
  written_blocks (trace w')
  = written_blocks (trace w) ++ body_blocks chunked reads.
Proof.
  intros Hb Hall Hrun.
  unfold send_body, set_total_written in Hrun.
  unfold bind at 1 in Hrun. unfold bind at 1 in Hrun.
  destruct (send_loop chunked (map read_bytes reads) (set_total w 0))
    as [[u|b|f] w1] eqn:Hloop; try discriminate.
  destruct u.
  pose proof (send_loop_complete chunked reads (set_total w 0) w1 Hb Hall
                Hloop) as Hblocks.
  cbn [trace set_total] in Hblocks. rewrite <- Hblocks.
  destruct chunked; cbn [negb] in Hrun.
  - inversion Hrun. reflexivity.
  - unfold bind, get_total_written, DCHECK in Hrun.
    destruct DCHECK_IS_ON; [destruct (_ =? _)|]; inversion Hrun; reflexivity.
Qed.

(** X3. Whatever WinHTTP answers, a send that comes to its end has handed
    over the whole body: every read before the read of zero bytes, as a
    chunk or as it is, and in chunked mode the last-chunk after them.  The
    events it added are events of the send loop alone, and the caller's
    string is as it was. *)
Theorem completed_send_wrote_whole_body (chunked : bool) (content_length : Z)
                                        (reads : list (list byte))
                                        (w w' : world) :
  Z.of_nat (length (buf w)) = sizeof_buf ->
  Forall (fun d => Z.of_nat (length d) <= sizeof_data) reads ->
  send_body chunked content_length (map read_bytes reads) w
  = (Continue tt, w') ->
  exists evs,
    trace w' = trace w ++ evs /\
    Forall send_event evs /\
    written_blocks evs = body_blocks chunked reads /\
    response_body w' = response_body w.
Proof.
  intros Hb Hall Hrun.
  destruct (quiet_send_body _ _ _ _ _ _ Hrun) as (_ & Hrb & evs & Ht & Hev).
  exists evs. split; [exact Ht|]. split; [exact Hev|].
  split; [|exact Hrb].
  apply (send_body_complete chunked content_length reads w w' Hb Hall)
    in Hrun.
  rewrite Ht, written_blocks_app in Hrun.
  apply app_inv_head in Hrun. exact Hrun.
Qed.

(** ** More about the response *)

Lemma read_loop_bytes (script : list (option (list byte)))
                      (w : world) (r : result unit) (w' : world) :
  read_loop script w = (r, w') ->
  response_body w'
  = option_map (fun s => s ++ script_bytes script) (response_body w).
Proof.
  revert w. induction script as [|[bytes|] script IH]; intros w Hrun.
  - inversion Hrun; subst. cbn [response_body set_response_body set_trace
      script_bytes].
    destruct (response_body w); cbn [option_map]; reflexivity.
  - cbn [read_loop] in Hrun.
    unfold WinHttpReadData in Hrun. unfold bind at 1 in Hrun.
    unfold bind at 1 in Hrun. unfold emit, ret at 1 in Hrun.
    cbv beta iota in Hrun. unfold bind at 1 in Hrun.
    unfold response_body_append in Hrun. cbv beta iota in Hrun.
    destruct bytes as [|x bytes].
    + cbn [length Z.of_nat Z.gtb Z.compare] in Hrun. inversion Hrun; subst.
      cbn [response_body set_response_body set_trace script_bytes].
      reflexivity.
    + replace (Z.of_nat (length (x :: bytes)) >? 0) with true in Hrun
        by (symmetry; apply Z.gtb_lt; cbn [length]; lia).
      rewrite (IH _ Hrun).
      cbn [response_body set_response_body set_trace script_bytes].
      destruct (response_body w); cbn [option_map]; [|reflexivity].
      rewrite <- app_assoc. reflexivity.
  - cbn [read_loop] in Hrun.
    unfold WinHttpReadData, LOG_ERROR, bind, emit, ret, return_ in Hrun.
    inversion Hrun; subst.
    cbn [response_body set_response_body set_trace script_bytes].
    destruct (response_body w); cbn [option_map]; [|reflexivity].
    rewrite app_nil_r. reflexivity.
Qed.

Lemma receive_response_body (w : world) (r : result unit) (w' : world) :
  receive_response w = (r, w') ->
  (r = Return true ->
   response_body w'
   = option_map (fun _ => script_bytes (WinHttpReadData_script winhttp))
                (response_body w)) /\
  (response_body w' = response_body w \/
   response_body w'
   = option_map (fun _ => script_bytes (WinHttpReadData_script winhttp))
                (response_body w)).
Proof.
  unfold receive_response, WinHttpReceiveResponse, WinHttpQueryHeaders.
  unfold bind at 1. unfold bind at 1. unfold bind at 1.
  unfold history at 1, emit at 1, ret at 1. cbv beta iota.
  destruct (WinHttpReceiveResponse_result winhttp (trace w)); cbn [negb].
  2:{ rewrite run_LOG_return. intros H. inversion H; subst.
      split; [discriminate | left; reflexivity]. }
  unfold bind at 1. unfold bind at 1. unfold bind at 1.
  unfold history at 1, emit at 1, ret at 1. cbv beta iota.
  cbn [trace set_trace].
  destruct (WinHttpQueryHeaders_result winhttp _) as [status_code|].
  2:{ rewrite run_LOG_return. intros H. inversion H; subst.
      split; [discriminate | left; reflexivity]. }
  destruct (Z.eqb_spec status_code 200) as [-> | Hne]; cbn [negb].
  2:{ unfold bind, emit, return_. intros H. inversion H; subst.
      split; [discriminate | left; reflexivity]. }
  unfold bind at 1. unfold response_body_is_null. cbv beta iota.
  cbn [response_body set_trace].
  destruct (response_body w) as [s|] eqn:Hrb; cbn [negb].
  - unfold bind at 1. unfold bind at 1. unfold response_body_clear.
    cbv beta iota. cbn [response_body set_trace]. rewrite Hrb.
    cbn [option_map].
    match goal with
    | |- context [read_loop ?sc ?w0] =>
        destruct (read_loop sc w0) as [r1 w1] eqn:Hloop;
        pose proof (read_loop_bytes sc w0 r1 w1 Hloop) as Hbytes
    end.
    cbn [response_body set_response_body option_map app] in Hbytes.
    destruct r1; intros H; inversion H; subst; rewrite Hbytes; auto.
  - unfold bind, ret, return_. intros H. inversion H; subst.
    cbn [response_body set_trace]. rewrite Hrb. auto.
Qed.

Lemma request_steps_body (this : HTTPTransport) (w : world)
                         (r : result unit) (w' : world) :
  request_steps this w = (r, w') ->
  (r = Return true ->
   response_body w'
   = option_map (fun _ => script_bytes (WinHttpReadData_script winhttp))
                (response_body w)) /\
  (response_body w' = response_body w \/
   response_body w'
   = option_map (fun _ => script_bytes (WinHttpReadData_script winhttp))
                (response_body w)).
Proof.
  rewrite request_steps_split. unfold bind at 1. intros Hsteps.
  match type of Hsteps with
  | context [let (_, _) := ?m w in _] =>
      destruct (m w) as [r3 w3] eqn:Hsend;
      destruct (quiet_send_steps this w r3 w3 Hsend) as (Hr3 & Hrb3 & _)
  end.
  destruct r3 as [u|b|f].
  - rewrite <- Hrb3. apply receive_response_body. exact Hsteps.
  - inversion Hsteps; subst. split; [contradiction | left; exact Hrb3].
  - inversion Hsteps; subst. split; [discriminate | left; exact Hrb3].
Qed.

(** X11. On success with a non-null [response_body], the caller's string
    holds the response body and nothing else: the bytes of the reads up to
    the read of zero bytes, whatever the string held before. On any other
    outcome it holds either what it held at entry or the bytes read before
    the read that failed. *)
Theorem response_body_on_return (this : HTTPTransport) (w : world)
                                (s0 : list byte)
                                (r : result unit) (w' : world) :
  response_body w = Some s0 ->
  ExecuteSynchronously this w = (r, w') ->
  (r = Return true ->
   response_body w' = Some (script_bytes (WinHttpReadData_script winhttp)) /\
   readable (WinHttpReadData_script winhttp) = true) /\
  (response_body w' = Some s0 \/
   response_body w' = Some (script_bytes (WinHttpReadData_script winhttp))).
Proof.
  intros Hrb0 Hrun.
  pose proof (ExecuteSynchronously_summary this w r w' Hrun) as Hsum.
  apply ExecuteSynchronously_cases in Hrun.
  destruct Hrun as [(Hr & Hrb & _)
                   | (w1 & w2 & _ & _ & _ & _ & _ & Hrb1 & Hsteps & _ & _
                      & Hrb2)].
  - split; [intros Htrue; contradiction | left; congruence].
  - destruct (request_steps_body this w1 r w2 Hsteps) as [Htrue Hany].
    rewrite Hrb1, Hrb0 in Htrue, Hany. cbn [option_map] in Htrue, Hany.
    rewrite Hrb2. split; [|exact Hany].
    intros ->. split; [exact (Htrue eq_refl)|].
    destruct Hsum as (evs & _ & [(Hr & _) | (pre & mid & post & _ & _ & _
                                              & Hout)]);
      [contradiction|].
    rewrite Hrb0 in Hout. inversion Hout; subst; try assumption.
    discriminate.
Qed.

(** X12. With a null [response_body] the response body is never read: no
    [WinHttpReadData] call is made, whatever the status. *)
Theorem null_response_body_is_not_read (this : HTTPTransport)
                                       (stack : list byte)
                                       (r : result unit) (w' : world) :
  ExecuteSynchronously this (initial_world stack None) = (r, w') ->
  response_body w' = None /\
  forall bytes, ~ In (Called_WinHttpReadData bytes) (trace w').
Proof.
  intros Hrun. apply ExecuteSynchronously_summary in Hrun.
  destruct Hrun as (evs & Ht & H). cbn [trace initial_world app] in Ht.
  rewrite Ht. clear Ht. cbn [response_body initial_world] in H.
  assert (Hquiet : forall l bytes,
            Forall before_status l -> ~ In (Called_WinHttpReadData bytes) l).
  { intros l bytes Hall Hin. rewrite Forall_forall in Hall.
    exact (Hall _ Hin). }
  destruct H as [(_ & Hrb & Hall)
                | (pre & mid & post & -> & Hpre & Hpost & Hout)].
  - split; [exact Hrb|]. intros bytes. apply Hquiet, Hall.
  - assert (Hmid : response_body w' = None /\
                   forall bytes, ~ In (Called_WinHttpReadData bytes) mid).
    { inversion Hout; subst; try discriminate;
        (split; [reflexivity|]); intros bytes Hin; cbn [In] in Hin;
        repeat (destruct Hin as [Hin | Hin]; [discriminate Hin|]);
        contradiction. }
    destruct Hmid as [Hrb Hnone]. split; [exact Hrb|].
    intros bytes Hin. apply in_app_or in Hin. destruct Hin as [Hin | Hin].
    + exact (Hquiet _ _ Hpre Hin).
    + apply in_app_or in Hin. destruct Hin as [Hin | Hin].
      * exact (Hnone _ Hin).
      * exact (Hquiet _ _ Hpost Hin).
Qed.

(** ** A call stops at the first failure it reports *)

Lemma aborts_weaken {A : Type} (F G : Prop) (m : M A) :
  (F -> G) -> aborts F m -> aborts G m.
Proof.
  intros HFG Hm w r w' Hrun.
  destruct (Hm w r w' Hrun) as (evs & Ht & [[Hc Hf] | H]);
    exists evs; (split; [exact Ht|]); [left | right]; auto.
Qed.

Lemma aborts_ext {A : Type} (F : Prop) (m1 m2 : M A) :
  (forall w, m1 w = m2 w) -> aborts F m2 -> aborts F m1.
Proof. intros Heq Hm w r w' Hrun. rewrite Heq in Hrun. eauto. Qed.

Lemma aborts_same_trace {A : Type} (F : Prop) (m : M A) :
  (forall w r w', m w = (r, w') -> trace w' = trace w /\ r <> Return false) ->
  aborts F m.
Proof.
  intros Hm w r w' Hrun. destruct (Hm w r w' Hrun) as [Ht Hr].
  exists []. rewrite app_nil_r. split; [exact Ht|]. left.
  split; [constructor | contradiction].
Qed.

Lemma aborts_ret {A : Type} (F : Prop) (a : A) : aborts F (ret a).
Proof.
  apply aborts_same_trace. intros w r w' H. inversion H; subst.
  split; [reflexivity | discriminate].
Qed.

Lemma aborts_return_true {A : Type} (F : Prop) : aborts F (@return_ A true).
Proof.
  apply aborts_same_trace. intros w r w' H. inversion H; subst.
  split; [reflexivity | discriminate].
Qed.

Lemma aborts_return_false {A : Type} (F : Prop) :
  F -> aborts F (@return_ A false).
Proof.
  intros HF w r w' H. inversion H; subst. exists []. rewrite app_nil_r.
  split; [reflexivity|]. left. split; [constructor | auto].
Qed.

Lemma aborts_stop {A : Type} (F : Prop) (f : fatal) : aborts F (@stop A f).
Proof.
  apply aborts_same_trace. intros w r w' H. inversion H; subst.
  split; [reflexivity | discriminate].
Qed.

Lemma aborts_history (F : Prop) : aborts F history.
Proof.
  apply aborts_same_trace. intros w r w' H. inversion H; subst.
  split; [reflexivity | discriminate].
Qed.

Lemma aborts_the_buf (F : Prop) : aborts F the_buf.
Proof.
  apply aborts_same_trace. intros w r w' H. inversion H; subst.
  split; [reflexivity | discriminate].
Qed.

Lemma aborts_get_total_written (F : Prop) : aborts F get_total_written.
Proof.
  apply aborts_same_trace. intros w r w' H. inversion H; subst.
  split; [reflexivity | discriminate].
Qed.

Lemma aborts_set_total_written (F : Prop) (v : Z) :
  aborts F (set_total_written v).
Proof.
  apply aborts_same_trace. intros w r w' H. inversion H; subst.
  split; [reflexivity | discriminate].
Qed.

Lemma aborts_response_body_is_null (F : Prop) : aborts F response_body_is_null.
Proof.
  apply aborts_same_trace. intros w r w' H. inversion H; subst.
  split; [reflexivity | discriminate].
Qed.

Lemma aborts_response_body_clear (F : Prop) : aborts F response_body_clear.
Proof.
  apply aborts_same_trace. intros w r w' H. inversion H; subst.
  split; [reflexivity | discriminate].
Qed.

Lemma aborts_response_body_append (F : Prop) (bytes : list byte) :
  aborts F (response_body_append bytes).
Proof.
  apply aborts_same_trace. intros w r w' H. inversion H; subst.
  split; [reflexivity | discriminate].
Qed.

Lemma aborts_store (F : Prop) (off : Z) (bytes : list byte) :
  aborts F (store off bytes).
Proof.
  apply aborts_same_trace. intros w r w' H. unfold store in H.
  destruct (store_bytes (buf w) off bytes); inversion H; subst;
    (split; [reflexivity | discriminate]).
Qed.

Lemma aborts_DCHECK (F : Prop) (c : bool) : aborts F (DCHECK c).
Proof.
  unfold DCHECK. destruct DCHECK_IS_ON; [destruct c|];
    auto using aborts_ret, aborts_stop.
Qed.

Lemma aborts_checked_cast_uint32 (F : Prop) (v : Z) :
  aborts F (checked_cast_uint32 v).
Proof.
  unfold checked_cast_uint32.
  destruct ((0 <=? v) && (v <=? UINT32_MAX));
    auto using aborts_ret, aborts_stop.
Qed.

Lemma aborts_emit (F : Prop) (e : event) :
  ~ failure_report e -> aborts F (emit e).
Proof.
  intros He w r w' H. inversion H; subst. exists [e].
  split; [reflexivity|]. left. split; [|discriminate].
  constructor; [exact He | constructor].
Qed.

Lemma aborts_bind {A B : Type} (F : Prop) (m : M A) (k : A -> M B) :
  aborts F m -> (forall a, aborts F (k a)) -> aborts F (bind m k).
Proof.
  intros Hm Hk w r w' Hrun. unfold bind in Hrun.
  destruct (m w) as [r1 w1] eqn:Hm1.
  destruct (Hm w r1 w1 Hm1) as (evs1 & Ht1 & H1).
  destruct r1 as [a|b|f].
  - destruct H1 as [[Hc1 _] | [Hr1 _]]; [|discriminate Hr1].
    destruct (Hk a w1 r w' Hrun) as (evs2 & Ht2 & H2).
    exists (evs1 ++ evs2). split.
    { rewrite Ht2, Ht1, app_assoc. reflexivity. }
    destruct H2 as [[Hc2 Hf2] | (Hr & pre & e & post & -> & Hpre & He & Hpost)].
    + left. split; [apply Forall_app; auto | exact Hf2].
    + right. split; [exact Hr|]. exists (evs1 ++ pre), e, post.
      split; [rewrite <- app_assoc; reflexivity|].
      split; [apply Forall_app; auto | auto].
  - inversion Hrun; subst. exists evs1. split; [exact Ht1|].
    destruct H1 as [[Hc Hf] | [Hr Hrest]].
    + left. split; [exact Hc|]. intros Heq. apply Hf. inversion Heq.
      reflexivity.
    + right. split; [inversion Hr; reflexivity | exact Hrest].
  - inversion Hrun; subst. exists evs1. split; [exact Ht1|].
    destruct H1 as [[Hc _] | [Hr _]]; [|discriminate Hr].
    left. split; [exact Hc | discriminate].
Qed.

(** A step that failed is reported and ends the function. *)
Lemma aborts_report {A : Type} (F : Prop) (e : event) :
  failure_report e ->
  aborts F (bind (emit e) (fun _ => @return_ A false)).
Proof.
  intros He w r w' H. inversion H; subst. exists [e].
  split; [reflexivity|]. right. split; [reflexivity|].
  exists [], e, []. repeat split; auto.
Qed.

Lemma closing_is_no_report (e : event) :
  closing_event e -> ~ failure_report e.
Proof.
  destruct e; cbn [closing_event failure_report]; auto.
Qed.

Lemma aborts_Scoped {A : Type} (F : Prop) (h : HINTERNET) (body : M A) :
  aborts F body -> aborts F (ScopedHINTERNET h body).
Proof.
  intros Hbody w r w' Hrun. apply Scoped_cases in Hrun.
  destruct Hrun as (w1 & closing & Hrun & Ht & Hclosing & _).
  destruct (Hbody w r w1 Hrun) as (evs & Ht1 & H).
  exists (evs ++ closing). split.
  { rewrite Ht, Ht1, app_assoc. reflexivity. }
  destruct H as [[Hc Hf] | (Hr & pre & e & post & -> & Hpre & He & Hpost)].
  - left. split; [|exact Hf]. apply Forall_app. split; [exact Hc|].
    eapply Forall_impl; [|exact Hclosing]. apply closing_is_no_report.
  - right. split; [exact Hr|]. exists pre, e, (post ++ closing).
    split; [rewrite <- app_assoc; reflexivity|].
    repeat split; auto. apply Forall_app. auto.
Qed.

Create HintDb aborts.

#[local] Hint Resolve aborts_ret aborts_return_true aborts_stop
  aborts_history aborts_the_buf aborts_get_total_written
  aborts_set_total_written aborts_response_body_is_null
  aborts_response_body_clear aborts_response_body_append aborts_store
  aborts_DCHECK aborts_checked_cast_uint32 : aborts.

(** Breaks a computation into its steps; what is left are the events to
    look at and the places where the function returns false. *)
Ltac aborts_steps :=
  repeat first
    [ apply aborts_report
    | apply aborts_bind; [|intros ?]
    | apply aborts_emit
    | solve [auto with aborts]
    | match goal with
      | |- aborts _ (if ?c then _ else _) => destruct c
      | |- aborts _ (match ?x with _ => _ end) => destruct x
      end ].

Lemma aborts_add_headers (F : Prop) (hs : list (string * string))
                         (chunked : bool) (content_length : Z) :
  aborts F (add_headers hs chunked content_length).
Proof.
  revert chunked content_length.
  induction hs as [|h hs IH]; intros chunked content_length.
  - apply aborts_ret.
  - cbn [add_headers]. destruct (String.eqb (fst h) kContentLength).
    + apply aborts_bind; [apply aborts_DCHECK | intros _; apply IH].
    + apply aborts_bind; [apply aborts_checked_cast_uint32|]. intros _.
      apply aborts_bind.
      { unfold WinHttpAddRequestHeaders. aborts_steps; cbn; auto. }
      intros [|]; cbn [negb]; [apply IH|].
      apply aborts_report. cbn. discriminate.
Qed.

Lemma aborts_attach_headers (F : Prop) (hs : list (string * string)) :
  aborts F (attach_headers hs).
Proof.
  unfold attach_headers.
  apply aborts_bind; [apply aborts_add_headers|]. intros [chunked cl].
  apply aborts_bind; [|intros dw; apply aborts_ret].
  unfold declare_length. destruct chunked.
  - apply aborts_bind; [apply aborts_checked_cast_uint32|]. intros _.
    apply aborts_bind.
    { unfold WinHttpAddRequestHeaders. aborts_steps; cbn; auto. }
    intros [|]; cbn [negb]; [apply aborts_ret|].
    apply aborts_report. cbn. discriminate.
  - destruct (AssignIfInRange_DWORD cl); apply aborts_ret.
Qed.

Lemma aborts_frame_chunk (F : Prop) (n : Z) : aborts F (frame_chunk n).
Proof.
  unfold frame_chunk. apply aborts_bind; [auto with aborts|]. intros v.
  destruct (_snprintf_08x sizeof_size v) as [rv digits]. aborts_steps.
Qed.

Lemma aborts_write_range (F : Prop) (start size : Z) :
  aborts F (write_range start size).
Proof.
  unfold write_range. destruct (negb (size =? 0)); [|apply aborts_ret].
  apply aborts_bind; [apply aborts_the_buf|]. intros b.
  apply aborts_bind.
  { unfold WinHttpWriteData. aborts_steps; cbn; auto. }
  intros [written|].
  - aborts_steps.
  - apply aborts_report. cbn. discriminate.
Qed.

Lemma aborts_send_block (chunked : bool) (r : read_result) :
  aborts (r = read_failed) (send_block chunked r).
Proof.
  destruct r as [|data].
  - intros w r w' H. rewrite send_block_failed in H. inversion H; subst.
    exists []. rewrite app_nil_r. split; [reflexivity|]. left.
    split; [constructor | auto].
  - apply (aborts_ext _ _
             (bind (store offsetof_data data)
                   (fun _ =>
                      DCHECK (0 <=? Z.of_nat (length data)) ;;
                      DCHECK (Z.of_nat (length data) <=? sizeof_data) ;;
                      range <- (if chunked
                                then frame_chunk (Z.of_nat (length data))
                                else frame_identity
                                       (Z.of_nat (length data))) ;;
                      let '(write_start, write_size) := range in
                      write_range write_start write_size ;;
                      ret (Z.of_nat (length data))))).
    { intros w. unfold send_block, GetBytesBuffer.
      rewrite run_bind_assoc. apply bind_ext. intros _ w1. rewrite run_ret.
      replace (Z.of_nat (length data) =? -1) with false
        by (symmetry; apply Z.eqb_neq; lia).
      reflexivity. }
    apply aborts_bind; [apply aborts_store|]. intros _.
    apply aborts_bind; [apply aborts_DCHECK|]. intros _.
    apply aborts_bind; [apply aborts_DCHECK|]. intros _.
    apply aborts_bind.
    { destruct chunked; [apply aborts_frame_chunk|].
      unfold frame_identity. aborts_steps. }
    intros [start size].
    apply aborts_bind; [apply aborts_write_range | intros _; apply aborts_ret].
Qed.

Lemma aborts_send_loop (chunked : bool) (stream : list read_result) :
  aborts (In read_failed stream) (send_loop chunked stream).
Proof.
  induction stream as [|r stream IH]; cbn [send_loop].
  - apply aborts_bind; [|intros _; apply aborts_ret].
    eapply aborts_weaken; [|apply aborts_send_block]. discriminate.
  - apply aborts_bind.
    { eapply aborts_weaken; [|apply aborts_send_block].
      intros ->. left. reflexivity. }
    intros n. destruct (n >? 0); [|apply aborts_ret].
    eapply aborts_weaken; [|exact IH]. intros H. right. exact H.
Qed.

Lemma aborts_read_loop (F : Prop) (script : list (option (list byte))) :
  aborts F (read_loop script).
Proof.
  induction script as [|r script IH]; cbn [read_loop].
  - unfold WinHttpReadData. aborts_steps; cbn; auto; discriminate.
  - apply aborts_bind.
    { unfold WinHttpReadData. aborts_steps; cbn; auto. }
    intros [bytes|].
    + apply aborts_bind; [apply aborts_response_body_append|]. intros _.
      destruct (Z.of_nat (length bytes) >? 0); [exact IH | apply aborts_ret].
    + apply aborts_report. cbn. discriminate.
Qed.

Lemma aborts_receive_response (F : Prop) : aborts F receive_response.
Proof.
  unfold receive_response.
  apply aborts_bind.
  { unfold WinHttpReceiveResponse. aborts_steps; cbn; auto. }
  intros [|]; cbn [negb]; [|apply aborts_report; cbn; discriminate].
  apply aborts_bind.
  { unfold WinHttpQueryHeaders. aborts_steps; cbn; auto. }
  intros [status_code|]; [|apply aborts_report; cbn; discriminate].
  destruct (negb (status_code =? 200)); [apply aborts_report; exact I|].
  apply aborts_bind; [apply aborts_response_body_is_null|]. intros null.
  apply aborts_bind; [|intros _; apply aborts_return_true].
  destruct (negb null); [|apply aborts_ret].
  apply aborts_bind; [apply aborts_response_body_clear|]. intros _.
  apply aborts_read_loop.
Qed.

Lemma aborts_request_steps (this : HTTPTransport) :
  aborts (In read_failed (body_stream this)) (request_steps this).
Proof.
  unfold request_steps.
  apply aborts_bind; [apply aborts_attach_headers|].
  intros [[chunked cl] dw].
  apply aborts_bind.
  { unfold WinHttpSendRequest. aborts_steps; cbn; auto. }
  intros [|]; cbn [negb]; [|apply aborts_report; cbn; discriminate].
  apply aborts_bind; [|intros _; apply aborts_receive_response].
  unfold send_body.
  apply aborts_bind; [apply aborts_set_total_written|]. intros _.
  apply aborts_bind; [apply aborts_send_loop|]. intros _.
  destruct (negb chunked); aborts_steps.
Qed.

(** X7. Every failure ends the call at once. A call either reports no failed
    step, and then it returns false only when the body stream failed a read;
    or it returns false, and after the one report in its log nothing follows
    but the closing of the handles. A call that returns true has reported
    nothing. *)
Theorem failure_ends_the_call (this : HTTPTransport) (w : world)
                              (r : result unit) (w' : world) :
  ExecuteSynchronously this w = (r, w') ->
  exists evs,
    trace w' = trace w ++ evs /\
    ((Forall (fun e => ~ failure_report e) evs /\
      (r = Return false -> In read_failed (body_stream this)))
     \/
     (r = Return false /\
      exists pre e post,
        evs = pre ++ e :: post /\
        Forall (fun e => ~ failure_report e) pre /\
        failure_report e /\
        Forall closing_event post)).
Proof.
  revert w r w'.
  change (aborts (In read_failed (body_stream this))
                 (ExecuteSynchronously this)).
  unfold ExecuteSynchronously.
  apply aborts_bind; [unfold WinHttpOpen; aborts_steps; cbn; auto|].
  intros [|]; cbn [negb]; [|apply aborts_report; cbn; discriminate].
  apply aborts_Scoped.
  apply aborts_bind; [unfold WinHttpSetTimeouts; aborts_steps; cbn; auto|].
  intros [|]; cbn [negb]; [|apply aborts_report; cbn; discriminate].
  apply aborts_bind; [unfold WinHttpCrackUrl; aborts_steps; cbn; auto|].
  intros [uc|]; [|apply aborts_report; cbn; discriminate].
  apply aborts_bind; [apply aborts_DCHECK|]. intros _.
  apply aborts_bind; [unfold WinHttpConnect; aborts_steps; cbn; auto|].
  intros [|]; cbn [negb]; [|apply aborts_report; cbn; discriminate].
  apply aborts_Scoped.
  apply aborts_bind; [unfold WinHttpOpenRequest; aborts_steps; cbn; auto|].
  intros [|]; cbn [negb]; [|apply aborts_report; cbn; discriminate].
  apply aborts_Scoped. apply aborts_request_steps.
Qed.

(** ** The phases of a call *)

Lemma add_headers_result (hs : list (string * string)) (chunked : bool)
                         (content_length : Z) (w : world)
                         (mode : bool * Z) (w' : world) :
  add_headers hs chunked content_length w = (Continue mode, w') ->
  mode = mode_after hs chunked content_length.
Proof.
  revert chunked content_length w.
  induction hs as [|h hs IH]; intros chunked content_length w Hrun.
  - inversion Hrun. reflexivity.
  - cbn [add_headers mode_after] in *. unfold is_content_length.
    destruct (String.eqb (fst h) kContentLength).
    + unfold bind in Hrun.
      destruct (DCHECK _ w) as [[u|b|f] w1]; try discriminate.
      destruct (StringToSizeT (snd h)); exact (IH _ _ _ Hrun).
    + unfold bind at 1 in Hrun.
      destruct (checked_cast_uint32 _ w) as [[u|b|f] w1]; try discriminate.
      unfold bind at 1 in Hrun.
      destruct (WinHttpAddRequestHeaders _ w1) as [[ok|b|f] w2];
        try discriminate.
      destruct ok; cbn [negb] in Hrun; [exact (IH _ _ _ Hrun)|].
      rewrite run_LOG_return in Hrun. discriminate.
Qed.

Lemma attach_headers_result (hs : list (string * string)) (w : world)
                            (chunked : bool) (content_length dword : Z)
                            (w' : world) :
  attach_headers hs w = (Continue (chunked, content_length, dword), w') ->
  (chunked, content_length) = mode_after hs true 0 /\
  dword = length_to_declare hs.
Proof.
  unfold attach_headers. unfold bind at 1. intros Hrun.
  destruct (add_headers hs true 0 w) as [[[c cl]|b|f] w1] eqn:Hadd;
    try discriminate.
  apply add_headers_result in Hadd. unfold length_to_declare.
  rewrite <- Hadd. unfold bind in Hrun.
  destruct (declare_length c cl w1) as [[dw|b|f] w2] eqn:Hdecl;
    try discriminate.
  inversion Hrun; subst. split; [reflexivity|].
  unfold declare_length in Hdecl. destruct chunked.
  - unfold bind at 1 in Hdecl.
    destruct (checked_cast_uint32 _ w1) as [[u|b|f] w3]; try discriminate.
    unfold bind at 1 in Hdecl.
    destruct (WinHttpAddRequestHeaders _ w3) as [[ok|b|f] w4];
      try discriminate.
    destruct ok; cbn [negb] in Hdecl.
    + inversion Hdecl. reflexivity.
    + rewrite run_LOG_return in Hdecl. discriminate.
  - destruct (AssignIfInRange_DWORD content_length); inversion Hdecl;
      reflexivity.
Qed.

Lemma response_outcome_events (rb : option (list byte))
                              (script : list (option (list byte)))
                              (mid : list event) (r : result unit)
                              (rb' : option (list byte)) :
  response_outcome rb script mid r rb' -> Forall response_event mid.
Proof.
  assert (Hread : forall l, Forall read_event l -> Forall response_event l).
  { intros l Hl. eapply Forall_impl; [|exact Hl].
    intros e. destruct e; cbn [read_event response_event]; auto.
    intros ->. cbn [In]. auto. }
  intros H. destruct H;
    repeat (constructor; [cbn [response_event In]; auto 6|]);
    auto.
Qed.

(** The events of the request steps come in four runs: the header lines,
    the sending of the request with the total length the headers fix, the
    blocks of the body, and the response. *)
Lemma request_steps_phases (this : HTTPTransport) (w : world)
                           (r : result unit) (w' : world) :
  request_steps this w = (r, w') ->
  exists hdrs sent body resp,
    trace w' = trace w ++ hdrs ++ sent ++ body ++ resp /\
    Forall (header_event (headers this)) hdrs /\
    (sent = [] \/
     exists tail,
       sent = Called_WinHttpSendRequest (length_to_declare (headers this))
              :: tail /\
       (tail = [] \/ tail = [LOG_ERROR_WinHttpMessage "WinHttpSendRequest"]))
    /\
    Forall send_event body /\
    Forall response_event resp.
Proof.
  unfold request_steps. unfold bind at 1. intros Hrun.
  destruct (attach_headers (headers this) w) as [r1 w1] eqn:Hattach.
  destruct (quiet_attach_headers _ _ _ _ Hattach)
    as (_ & _ & hdrs & Ht1 & Hhdrs).
  destruct r1 as [[[chunked cl] dw]|b|f].
  2,3: inversion Hrun; subst; exists hdrs, [], [], [];
       rewrite !app_nil_r; repeat split; auto.
  destruct (attach_headers_result _ _ _ _ _ _ Hattach) as [_ ->].
  unfold WinHttpSendRequest in Hrun.
  unfold bind at 1 in Hrun. unfold bind at 1 in Hrun.
  unfold bind at 1 in Hrun. unfold history at 1, emit at 1, ret at 1 in Hrun.
  cbv beta iota in Hrun.
  destruct (WinHttpSendRequest_result winhttp (trace w1)); cbn [negb] in Hrun.
  2:{ rewrite run_LOG_return in Hrun. inversion Hrun; subst.
      exists hdrs,
        [Called_WinHttpSendRequest (length_to_declare (headers this));
         LOG_ERROR_WinHttpMessage "WinHttpSendRequest"], [], [].
      cbn [trace set_trace]. rewrite Ht1, <- !app_assoc, !app_nil_r.
      repeat split; auto. right. eexists. split; [reflexivity | auto]. }
  unfold bind at 1 in Hrun.
  match type of Hrun with
  | context [send_body ?c ?l ?s ?w0] =>
      destruct (send_body c l s w0) as [r2 w2] eqn:Hsend;
      destruct (quiet_send_body _ _ _ _ _ _ Hsend)
        as (_ & _ & body & Ht2 & Hbody)
  end.
  cbn [trace set_trace] in Ht2.
  destruct r2 as [u|b|f].
  2,3: inversion Hrun; subst;
       exists hdrs,
         [Called_WinHttpSendRequest (length_to_declare (headers this))],
         body, [];
       rewrite Ht2, Ht1, <- !app_assoc, !app_nil_r;
       (repeat split; auto); right; eexists; split; [reflexivity | auto].
  apply receive_response_cases in Hrun.
  destruct Hrun as (resp & Ht3 & Hout).
  exists hdrs,
    [Called_WinHttpSendRequest (length_to_declare (headers this))],
    body, resp.
  rewrite Ht3, Ht2, Ht1, <- !app_assoc.
  repeat split; auto.
  - right. eexists. split; [reflexivity | auto].
  - eapply response_outcome_events. exact Hout.
Qed.

(** ** The walk through a call *)

Lemma closed_handles_app (t1 t2 : list event) :
  closed_handles (t1 ++ t2) = closed_handles t1 ++ closed_handles t2.
Proof.
  induction t1 as [|e t1 IH]; [reflexivity|].
  destruct e; cbn [app closed_handles]; rewrite IH; reflexivity.
Qed.

Lemma acquired_handles_app (before t1 t2 : list event) :
  acquired_handles winhttp before (t1 ++ t2)
  = acquired_handles winhttp before t1
    ++ acquired_handles winhttp (before ++ t1) t2.
Proof.
  revert before. induction t1 as [|e t1 IH]; intros before.
  - rewrite app_nil_r. reflexivity.
  - cbn [app acquired_handles]. rewrite IH, <- !app_assoc. reflexivity.
Qed.

Lemma handle_free_events (before t : list event) :
  Forall handle_free t ->
  acquired_handles winhttp before t = [] /\ closed_handles t = [].
Proof.
  intros H. revert before.
  induction H as [|e t He Hall IH]; intros before; [split; reflexivity|].
  destruct (IH (before ++ [e])) as [Ha Hc].
  destruct e; cbn [handle_free] in He; try contradiction;
    cbn [acquired_handles closed_handles app]; rewrite Ha, Hc;
    split; reflexivity.
Qed.

Lemma closing_events_acquire_nothing (before t : list event) :
  Forall closing_event t -> acquired_handles winhttp before t = [].
Proof.
  intros H. revert before.
  induction H as [|e t He Hall IH]; intros before; [reflexivity|].
  destruct e; cbn [closing_event] in He; try contradiction;
    cbn [acquired_handles app]; apply IH.
Qed.

Lemma Free_closes (h : HINTERNET) (w : world) :
  exists evs,
    ScopedHINTERNETTraits_Free h w
    = (Continue tt, set_trace w (trace w ++ evs)) /\
    Forall closing_event evs /\
    closed_handles evs = [h].
Proof.
  unfold ScopedHINTERNETTraits_Free, bind, history, emit, LOG_ERROR, ret.
  cbn [trace set_trace].
  destruct (WinHttpCloseHandle_result winhttp (trace w)); cbn [negb].
  - exists [Called_WinHttpCloseHandle h]. split; [reflexivity|].
    split; [repeat constructor | reflexivity].
  - exists [Called_WinHttpCloseHandle h;
            LOG_ERROR_WinHttpMessage "WinHttpCloseHandle"]. split.
    + unfold emit. cbn [trace set_trace]. rewrite <- app_assoc. reflexivity.
    + split; [repeat constructor | reflexivity].
Qed.

Lemma Scoped_closes (h : HINTERNET) (body : M unit)
                    (w : world) (r : result unit) (w' : world) :
  ScopedHINTERNET h body w = (r, w') ->
  exists w1 evs,
    body w = (r, w1) /\
    trace w' = trace w1 ++ evs /\
    closes r [h] evs /\
    response_body w' = response_body w1.
Proof.
  unfold ScopedHINTERNET. intros H.
  destruct (body w) as [r1 w1].
  destruct (Free_closes h w1) as (evs & Hfree & Hc & Hh).
  rewrite Hfree in H. cbn [snd] in H.
  destruct r1; inversion H; subst r w'.
  - exists w1, evs. cbn [closes]. auto.
  - exists w1, evs. cbn [closes]. auto.
  - exists w1, []. rewrite app_nil_r. cbn [closes]. auto.
Qed.

Lemma closes_app (r : result unit) (h : HINTERNET) (hs : list HINTERNET)
                 (c1 c2 : list event) :
  closes r [h] c1 -> closes r hs c2 -> closes r (h :: hs) (c1 ++ c2).
Proof.
  unfold closes. destruct r.
  - intros [H1 E1] [H2 E2]. split; [apply Forall_app; auto|].
    rewrite closed_handles_app, E1, E2. reflexivity.
  - intros [H1 E1] [H2 E2]. split; [apply Forall_app; auto|].
    rewrite closed_handles_app, E1, E2. reflexivity.
  - intros -> ->. reflexivity.
Qed.

Lemma ExecuteSynchronously_walk (this : HTTPTransport) (w : world)
                                (r : result unit) (w' : world) :
  ExecuteSynchronously this w = (r, w') -> call_ends this w r w'.
Proof.
  intros H. unfold ExecuteSynchronously in H.
  rewrite run_WinHttpOpen in H.
  destruct (WinHttpOpen_result winhttp (trace w)) eqn:HO; cbn [negb] in H.
  2:{ rewrite run_LOG_return in H. inversion H; subst.
      apply ends_at_open; [exact HO | |reflexivity].
      cbn [trace set_trace]. rewrite <- app_assoc. reflexivity. }
  apply Scoped_closes in H. destruct H as (wa & ca & H & Hta & Hca & Hrba).
  rewrite run_WinHttpSetTimeouts in H. cbn [trace set_trace] in H.
  destruct (WinHttpSetTimeouts_result winhttp _) eqn:HS; cbn [negb] in H.
  2:{ rewrite run_LOG_return in H. inversion H; subst.
      cbn [trace set_trace response_body] in *.
      eapply ends_at_timeouts; try eassumption.
      rewrite Hta, <- !app_assoc. reflexivity. }
  rewrite run_WinHttpCrackUrl in H. cbn [trace set_trace] in H.
  rewrite <- app_assoc in H. cbn [app] in H.
  destruct (WinHttpCrackUrl_result winhttp _ _) as [uc|] eqn:HC.
  2:{ rewrite run_LOG_return in H. inversion H; subst.
      cbn [trace set_trace response_body] in *.
      eapply ends_at_crack; try eassumption.
      rewrite Hta, <- !app_assoc. reflexivity. }
  unfold bind at 1 in H. unfold DCHECK at 1 in H.
  destruct DCHECK_IS_ON eqn:HD.
  - destruct ((nScheme uc =? INTERNET_SCHEME_HTTP)
              || (nScheme uc =? INTERNET_SCHEME_HTTPS)) eqn:Hscheme.
    + assert (Hok : DCHECK_IS_ON = true ->
                    nScheme uc = INTERNET_SCHEME_HTTP \/
                    nScheme uc = INTERNET_SCHEME_HTTPS).
      { intros _. apply orb_true_iff in Hscheme.
        destruct Hscheme as [E | E]; apply Z.eqb_eq in E; auto. }
      unfold ret at 1 in H. cbv beta iota in H.
      rewrite run_WinHttpConnect in H. cbn [trace set_trace] in H.
      rewrite <- !app_assoc in H. cbn [app] in H.
      destruct (WinHttpConnect_result winhttp _) eqn:HN; cbn [negb] in H.
      2:{ rewrite run_LOG_return in H. inversion H; subst.
          cbn [trace set_trace response_body] in *.
          eapply ends_at_connect; try eassumption.
          rewrite Hta, <- !app_assoc. reflexivity. }
      apply Scoped_closes in H.
      destruct H as (wb & cb & H & Htb & Hcb & Hrbb).
      rewrite run_WinHttpOpenRequest in H. cbn [trace set_trace] in H.
      rewrite <- !app_assoc in H. cbn [app] in H.
      destruct (WinHttpOpenRequest_result winhttp _) eqn:HR;
        cbn [negb] in H.
      2:{ rewrite run_LOG_return in H. inversion H; subst.
          cbn [trace set_trace response_body] in *.
          eapply ends_at_open_request; try eassumption.
          - rewrite Hta, Htb, <- !app_assoc. reflexivity.
          - apply closes_app; assumption.
          - congruence. }
      apply Scoped_closes in H.
      destruct H as (wc & cc & H & Htc & Hcc & Hrbc).
      eapply (ends_in_request this w r wc w' uc (cc ++ cb ++ ca));
        try eassumption.
      * rewrite Hta, Htb, Htc, <- !app_assoc. reflexivity.
      * apply closes_app; [exact Hcc|]. apply closes_app; assumption.
      * congruence.
    + unfold stop in H. inversion H; subst. cbn [closes] in Hca. subst ca.
      rewrite app_nil_r in Hta. cbn [trace set_trace response_body] in *.
      apply orb_false_iff in Hscheme. destruct Hscheme as [H1 H2].
      apply Z.eqb_neq in H1. apply Z.eqb_neq in H2.
      apply (ends_at_scheme this w w' uc HO HD H1 H2).
      * rewrite Hta, <- app_assoc. reflexivity.
      * exact Hrba.
      * exact HS.
      * exact HC.
  - assert (Hok : DCHECK_IS_ON = true ->
                  nScheme uc = INTERNET_SCHEME_HTTP \/
                  nScheme uc = INTERNET_SCHEME_HTTPS).
    { intros E. rewrite HD in E. discriminate E. }
    unfold ret at 1 in H. cbv beta iota in H.
    rewrite run_WinHttpConnect in H. cbn [trace set_trace] in H.
    rewrite <- !app_assoc in H. cbn [app] in H.
    destruct (WinHttpConnect_result winhttp _) eqn:HN; cbn [negb] in H.
    2:{ rewrite run_LOG_return in H. inversion H; subst.
        cbn [trace set_trace response_body] in *.
        eapply ends_at_connect; try eassumption.
        rewrite Hta, <- !app_assoc. reflexivity. }
    apply Scoped_closes in H.
    destruct H as (wb & cb & H & Htb & Hcb & Hrbb).
    rewrite run_WinHttpOpenRequest in H. cbn [trace set_trace] in H.
    rewrite <- !app_assoc in H. cbn [app] in H.
    destruct (WinHttpOpenRequest_result winhttp _) eqn:HR;
      cbn [negb] in H.
    2:{ rewrite run_LOG_return in H. inversion H; subst.
        cbn [trace set_trace response_body] in *.
        eapply ends_at_open_request; try eassumption.
        - rewrite Hta, Htb, <- !app_assoc. reflexivity.
        - apply closes_app; assumption.
        - congruence. }
    apply Scoped_closes in H.
    destruct H as (wc & cc & H & Htc & Hcc & Hrbc).
    eapply (ends_in_request this w r wc w' uc (cc ++ cb ++ ca));
      try eassumption.
    + rewrite Hta, Htb, Htc, <- !app_assoc. reflexivity.
    + apply closes_app; [exact Hcc|]. apply closes_app; assumption.
    + congruence.
Qed.

(** ** What a call leaves behind *)

Lemma phase_events_handle_free (hs : list (string * string)) (e : event) :
  header_event hs e \/ send_request_event e \/ send_event e
  \/ response_event e ->
  handle_free e.
Proof.
  destruct e; cbn [header_event send_request_event send_event response_event
                   handle_free]; tauto.
Qed.

Lemma request_steps_handle_free (this : HTTPTransport) (w : world)
                                (r : result unit) (w' : world) :
  request_steps this w = (r, w') ->
  exists req, trace w' = trace w ++ req /\ Forall handle_free req.
Proof.
  intros Hrun. apply request_steps_phases in Hrun.
  destruct Hrun as (hdrs & sent & body & resp & Ht & Hh & Hs & Hb & Hr).
  exists (hdrs ++ sent ++ body ++ resp). split; [exact Ht|].
  repeat (apply Forall_app; split).
  - eapply Forall_impl; [|exact Hh]. intros e He.
    apply (phase_events_handle_free (headers this)). auto.
  - destruct Hs as [-> | (tail & -> & [-> | ->])]; repeat constructor.
  - eapply Forall_impl; [|exact Hb]. intros e He.
    apply (phase_events_handle_free (headers this)). auto.
  - eapply Forall_impl; [|exact Hr]. intros e He.
    apply (phase_events_handle_free (headers this)). auto.
Qed.

(** X8. The handles of a call are closed by the time it returns: exactly
    those WinHTTP handed out, each once, the last acquired first. A fatal
    stop closes none. *)
Theorem handles_released (this : HTTPTransport) (w : world)
                         (r : result unit) (w' : world) :
  ExecuteSynchronously this w = (r, w') ->
  exists evs,
    trace w' = trace w ++ evs /\
    closed_handles evs
    = match r with
      | Fatal _ => []
      | _ => rev (acquired_handles winhttp (trace w) evs)
      end.
Proof.
  intros Hrun. apply ExecuteSynchronously_walk in Hrun.
  destruct Hrun as
    [ w' HO Ht _
    | w' closing HO HS Ht Hc _
    | w' closing HO Ht Hc _
    | w' uc HO HD H1 H2 Ht _
    | w' uc closing HO HC HN Ht Hc _
    | w' uc closing HO HC HN HR Ht Hc _
    | r w2 w' uc closing HO HC HN HR Hsteps Ht Hc _ ];
    unfold requested_events, connected_events, cracked_events in *;
    try (cbn [closes] in Hc; destruct Hc as [Hc Hh]).
  - eexists. split; [exact Ht|].
    cbn [acquired_handles closed_handles app]. rewrite HO. reflexivity.
  - eexists. split; [exact Ht|].
    rewrite closed_handles_app, acquired_handles_app, Hh.
    rewrite (closing_events_acquire_nothing _ closing Hc).
    cbn [acquired_handles closed_handles app]. rewrite HO. reflexivity.
  - eexists. split; [exact Ht|].
    rewrite !closed_handles_app, !acquired_handles_app, Hh.
    rewrite (closing_events_acquire_nothing _ closing Hc).
    cbn [acquired_handles closed_handles app]. rewrite HO. reflexivity.
  - eexists. split; [exact Ht|]. reflexivity.
  - eexists. split; [exact Ht|].
    rewrite !closed_handles_app, !acquired_handles_app, Hh.
    rewrite (closing_events_acquire_nothing _ closing Hc).
    cbn [acquired_handles closed_handles app].
    rewrite <- !app_assoc. cbn [app]. rewrite HO, HN. reflexivity.
  - eexists. split; [exact Ht|].
    rewrite !closed_handles_app, !acquired_handles_app, Hh.
    rewrite (closing_events_acquire_nothing _ closing Hc).
    cbn [acquired_handles closed_handles app].
    rewrite <- !app_assoc in *. cbn [app] in *. rewrite HO, HN, HR.
    reflexivity.
  - destruct (request_steps_handle_free this _ r w2 Hsteps)
      as (req & Ht2 & Hfree).
    cbn [trace set_trace] in Ht2.
    exists ((([Called_WinHttpOpen;
               Called_WinHttpSetTimeouts (timeout_in_ms_of (timeout this));
               Called_WinHttpCrackUrl (UTF8ToUTF16 (url this))]
              ++ [Called_WinHttpConnect (lpszHostName uc) (nPort uc)])
             ++ [Called_WinHttpOpenRequest (UTF8ToUTF16 (method this))
                   (lpszUrlPath uc)
                   (nScheme uc =? INTERNET_SCHEME_HTTPS)])
            ++ req ++ closing).
    split; [rewrite Ht, Ht2, <- !app_assoc; reflexivity|].
    rewrite !closed_handles_app, !acquired_handles_app.
    destruct (handle_free_events
                (trace w ++
                 ([Called_WinHttpOpen;
                   Called_WinHttpSetTimeouts
                     (timeout_in_ms_of (timeout this));
                   Called_WinHttpCrackUrl (UTF8ToUTF16 (url this))]
                  ++ [Called_WinHttpConnect (lpszHostName uc) (nPort uc)])
                 ++ [Called_WinHttpOpenRequest (UTF8ToUTF16 (method this))
                       (lpszUrlPath uc)
                       (nScheme uc =? INTERNET_SCHEME_HTTPS)])
                req Hfree) as [Ha Hcl].
    rewrite Ha, Hcl.
    cbn [acquired_handles closed_handles app].
    rewrite <- !app_assoc in *. cbn [app] in *. rewrite HO, HN, HR.
    destruct r; cbn [closes] in Hc.
    + destruct Hc as [Hc Hh].
      rewrite (closing_events_acquire_nothing _ closing Hc).
      rewrite Hh. reflexivity.
    + destruct Hc as [Hc Hh].
      rewrite (closing_events_acquire_nothing _ closing Hc).
      rewrite Hh. reflexivity.
    + subst closing. reflexivity.
Qed.

Lemma closing_events_handle_other (l : list event) :
  Forall closing_event l ->
  declared_lengths l = [] /\
  forall verb path secure,
    ~ In (Called_WinHttpOpenRequest verb path secure) l.
Proof.
  induction 1 as [|e l He Hall [IH1 IH2]]; [split; [reflexivity | auto]|].
  destruct e; cbn [closing_event] in He; try contradiction;
    cbn [declared_lengths In]; (split; [exact IH1|]);
    intros verb path secure [Heq | Hin]; try discriminate Heq;
    exact (IH2 _ _ _ Hin).
Qed.

Lemma handle_free_no_open_request (l : list event) :
  Forall handle_free l ->
  forall verb path secure,
    ~ In (Called_WinHttpOpenRequest verb path secure) l.
Proof.
  intros Hall verb path secure Hin. rewrite Forall_forall in Hall.
  exact (Hall _ Hin).
Qed.

(** X9. The request is opened for the path of the cracked URL alone: the
    verb is the method of the transport, the object name is [lpszUrlPath],
    the extra info (query) of the URL is no part of it, TLS is asked for
    exactly when the scheme is HTTPS, and the connection of the call is to
    the host and port of the same cracked URL. *)
Theorem request_is_opened_for_the_path (this : HTTPTransport) (w : world)
                                       (r : result unit) (w' : world) :
  ExecuteSynchronously this w = (r, w') ->
  exists evs,
    trace w' = trace w ++ evs /\
    forall verb path secure,
      In (Called_WinHttpOpenRequest verb path secure) evs ->
      exists uc,
        WinHttpCrackUrl_result winhttp
          (trace w ++ [Called_WinHttpOpen;
                       Called_WinHttpSetTimeouts
                         (timeout_in_ms_of (timeout this))])
          (UTF8ToUTF16 (url this)) = Some uc /\
        verb = UTF8ToUTF16 (method this) /\
        path = lpszUrlPath uc /\
        secure = (nScheme uc =? INTERNET_SCHEME_HTTPS) /\
        In (Called_WinHttpConnect (lpszHostName uc) (nPort uc)) evs.
Proof.
  intros Hrun. apply ExecuteSynchronously_walk in Hrun.
  destruct Hrun as
    [ w' HO Ht _
    | w' closing HO HS Ht Hc _
    | w' closing HO Ht Hc _
    | w' uc HO HD H1 H2 Ht _
    | w' uc closing HO HC HN Ht Hc _
    | w' uc closing HO HC HN HR Ht Hc _
    | r w2 w' uc closing HO HC HN HR Hsteps Ht Hc _ ];
    unfold requested_events, connected_events, cracked_events in *;
    try (cbn [closes] in Hc; destruct Hc as [Hc Hh];
         destruct (closing_events_handle_other closing Hc) as [_ Hno]).
  1-5: eexists; (split; [exact Ht|]); intros verb path secure Hin;
       exfalso; repeat (apply in_app_or in Hin; destruct Hin as [Hin | Hin]);
       cbn [In] in Hin;
       repeat (destruct Hin as [Hin | Hin]; [discriminate Hin|]);
       try contradiction; try exact (Hno _ _ _ Hin).
  - eexists. split; [exact Ht|]. intros verb path secure Hin.
    exists uc. apply in_app_or in Hin. destruct Hin as [Hin | Hin].
    + apply in_app_or in Hin. destruct Hin as [Hin | Hin].
      * exfalso. apply in_app_or in Hin. cbn [In] in Hin.
        destruct Hin as [Hin | Hin];
          repeat (destruct Hin as [Hin | Hin]; [discriminate Hin|]);
          contradiction.
      * destruct Hin as [Hin | []]. inversion Hin; subst.
        repeat split; auto. rewrite <- !app_assoc. cbn [app In]. auto 10.
    + exfalso. apply in_app_or in Hin. cbn [In] in Hin.
      destruct Hin as [[Hin | []] | Hin]; [discriminate Hin|].
      exact (Hno _ _ _ Hin).
  - destruct (request_steps_handle_free this _ r w2 Hsteps)
      as (req & Ht2 & Hfree).
    cbn [trace set_trace] in Ht2.
    eexists. split; [rewrite Ht, Ht2, <- !app_assoc; reflexivity|].
    intros verb path secure Hin. exists uc.
    assert (Hclosing : ~ In (Called_WinHttpOpenRequest verb path secure)
                            closing).
    { destruct r; cbn [closes] in Hc.
      - destruct Hc as [Hc _].
        apply (closing_events_handle_other closing Hc).
      - destruct Hc as [Hc _].
        apply (closing_events_handle_other closing Hc).
      - subst closing. intros []. }
    cbn [app In] in Hin.
    repeat (destruct Hin as [Hin | Hin]; [discriminate Hin|]).
    destruct Hin as [Hin | Hin].
    + inversion Hin; subst. cbn [app In]. repeat split; auto 10.
    + exfalso. apply in_app_or in Hin. destruct Hin as [Hin | Hin].
      * exact (handle_free_no_open_request req Hfree _ _ _ Hin).
      * exact (Hclosing Hin).
Qed.

Lemma declared_lengths_app (t1 t2 : list event) :
  declared_lengths (t1 ++ t2) = declared_lengths t1 ++ declared_lengths t2.
Proof.
  induction t1 as [|e t1 IH]; [reflexivity|].
  destruct e; cbn [app declared_lengths]; rewrite IH; reflexivity.
Qed.

Lemma declared_lengths_none (P : event -> Prop) (l : list event) :
  (forall e, P e -> forall n, e <> Called_WinHttpSendRequest n) ->
  Forall P l -> declared_lengths l = [].
Proof.
  intros HP. induction 1 as [|e l He Hall IH]; [reflexivity|].
  destruct e; cbn [declared_lengths]; try exact IH.
  exfalso. exact (HP _ He _ eq_refl).
Qed.

Lemma length_to_declare_cases (hs : list (string * string)) :
  0 <= length_to_declare hs <= UINT32_MAX /\
  ((forall v, ~ In (kContentLength, v) hs) ->
   length_to_declare hs = WINHTTP_IGNORE_REQUEST_TOTAL_LENGTH) /\
  (forall v,
     NoDup (map fst hs) ->
     In (kContentLength, v) hs ->
     length_to_declare hs
     = match StringToSizeT v with
       | Some n => if Z.of_N n <=? UINT32_MAX then Z.of_N n
                   else WINHTTP_IGNORE_REQUEST_TOTAL_LENGTH
       | None => WINHTTP_IGNORE_REQUEST_TOTAL_LENGTH
       end).
Proof.
  unfold length_to_declare. split; [|split].
  - destruct (mode_after hs true 0) as [[|] cl];
      [split; discriminate|].
    unfold AssignIfInRange_DWORD.
    destruct ((0 <=? cl) && (cl <=? UINT32_MAX)) eqn:Hfit;
      [|split; discriminate].
    apply andb_true_iff in Hfit. destruct Hfit as [H0 H1].
    apply Z.leb_le in H0. apply Z.leb_le in H1. split; assumption.
  - intros Habs. rewrite (proj1 (mode_after_absent hs true 0 Habs)).
    reflexivity.
  - intros v Hnd Hin. rewrite (mode_after_unique hs v true 0 Hnd Hin).
    destruct (StringToSizeT v) as [n|]; [|reflexivity].
    unfold AssignIfInRange_DWORD.
    replace (0 <=? Z.of_N n) with true
      by (symmetry; apply Z.leb_le; apply N2Z.is_nonneg).
    cbn [andb]. destruct (Z.of_N n <=? UINT32_MAX); reflexivity.
Qed.

(** X5. [WinHttpSendRequest] is called at most once in a call, and the total
    length it is given is fixed by the headers: the Content-Length when the
    entry is there, converts and fits 32 bits; in every other case, an
    absent entry, a value that does not convert or a length of 2^32 or more,
    the sign to ignore the total length. *)
Theorem declared_total_length (this : HTTPTransport) (w : world)
                              (r : result unit) (w' : world) :
  ExecuteSynchronously this w = (r, w') ->
  exists evs,
    trace w' = trace w ++ evs /\
    (declared_lengths evs = [] \/
     declared_lengths evs = [length_to_declare (headers this)]) /\
    0 <= length_to_declare (headers this) <= UINT32_MAX /\
    ((forall v, ~ In (kContentLength, v) (headers this)) ->
     length_to_declare (headers this) = WINHTTP_IGNORE_REQUEST_TOTAL_LENGTH)
    /\
    (forall v,
       NoDup (map fst (headers this)) ->
       In (kContentLength, v) (headers this) ->
       length_to_declare (headers this)
       = match StringToSizeT v with
         | Some n => if Z.of_N n <=? UINT32_MAX then Z.of_N n
                     else WINHTTP_IGNORE_REQUEST_TOTAL_LENGTH
         | None => WINHTTP_IGNORE_REQUEST_TOTAL_LENGTH
         end).
Proof.
  intros Hrun.
  destruct (length_to_declare_cases (headers this)) as (Hb & Habs & Hin).
  assert (Hgoal : exists evs,
            trace w' = trace w ++ evs /\
            (declared_lengths evs = [] \/
             declared_lengths evs = [length_to_declare (headers this)])).
  2:{ destruct Hgoal as (evs & Ht & Hd). exists evs. auto. }
  apply ExecuteSynchronously_cases in Hrun.
  destruct Hrun as [(_ & _ & evs & Ht & Hall)
                   | (w1 & w2 & evs1 & evs2 & Ht1 & Hall1 & _ & _ & Hsteps
                      & Ht2 & Hall2 & _)].
  - exists evs. split; [exact Ht|]. left.
    apply (declared_lengths_none setup_event); [|exact Hall].
    intros e He n ->. exact He.
  - apply request_steps_phases in Hsteps.
    destruct Hsteps as (hdrs & sent & body & resp & Ht & Hh & Hs & Hbd & Hr).
    exists (evs1 ++ (hdrs ++ sent ++ body ++ resp) ++ evs2). split.
    { rewrite Ht2, Ht, Ht1, <- !app_assoc. reflexivity. }
    rewrite !declared_lengths_app.
    rewrite (declared_lengths_none setup_event evs1);
      [ | intros e He n ->; exact He | exact Hall1 ].
    rewrite (declared_lengths_none (header_event (headers this)) hdrs);
      [ | intros e He n ->; exact He | exact Hh ].
    rewrite (declared_lengths_none send_event body);
      [ | intros e He n ->; exact He | exact Hbd ].
    rewrite (declared_lengths_none response_event resp);
      [ | intros e He n ->; exact He | exact Hr ].
    rewrite (declared_lengths_none closing_event evs2);
      [ | intros e He n ->; exact He | exact Hall2 ].
    cbn [app]. rewrite !app_nil_r.
    destruct Hs as [-> | (tail & -> & [-> | ->])]; cbn [declared_lengths];
      auto.
Qed.

Lemma cracked_events_opening (this : HTTPTransport) :
  Forall opening_event (cracked_events this).
Proof.
  unfold cracked_events.
  repeat (apply Forall_cons; [exact I|]). apply Forall_nil.
Qed.

Lemma opening_events_of_call (this : HTTPTransport) (uc : URL_COMPONENTS) :
  Forall opening_event (connected_events this uc) /\
  Forall opening_event (requested_events this uc).
Proof.
  unfold requested_events, connected_events.
  repeat split;
    repeat (apply Forall_app; split);
    try apply cracked_events_opening;
    repeat (apply Forall_cons; [exact I|]); apply Forall_nil.
Qed.

Lemma opening_report (l : list event) (extra : string) :
  Forall opening_event l ->
  In extra ["WinHttpOpen"; "WinHttpSetTimeouts"; "WinHttpCrackUrl";
            "WinHttpConnect"; "WinHttpOpenRequest"]%string ->
  Forall opening_event (l ++ [LOG_ERROR_WinHttpMessage extra]).
Proof.
  intros Hl Hin. apply Forall_app. split; [exact Hl|].
  apply Forall_cons; [exact Hin | apply Forall_nil].
Qed.

(** X6. The events of a call come in phases, in this order: the steps that
    open the session, the connection and the request; the header lines; the
    sending of the request; the blocks of the body; the response; the
    closing of the handles. So no header is added once the request is sent,
    no block is written before it is, the response is not asked for before
    the last block, and the handles are closed last. *)
Theorem call_phases (this : HTTPTransport) (w : world)
                    (r : result unit) (w' : world) :
  ExecuteSynchronously this w = (r, w') ->
  exists opening hdrs sent body resp closing,
    trace w' = trace w ++ opening ++ hdrs ++ sent ++ body ++ resp ++ closing
    /\
    Forall opening_event opening /\
    Forall (header_event (headers this)) hdrs /\
    Forall send_request_event sent /\
    (length (declared_lengths sent) <= 1)%nat /\
    Forall send_event body /\
    Forall response_event resp /\
    Forall closing_event closing.
Proof.
  intros Hrun. apply ExecuteSynchronously_walk in Hrun.
  assert (Hfail : forall opening closing,
            trace w' = trace w ++ opening ++ closing ->
            Forall opening_event opening ->
            Forall closing_event closing ->
            exists opening hdrs sent body resp closing,
              trace w' = trace w ++ opening ++ hdrs ++ sent ++ body ++ resp
                         ++ closing /\
              Forall opening_event opening /\
              Forall (header_event (headers this)) hdrs /\
              Forall send_request_event sent /\
              (length (declared_lengths sent) <= 1)%nat /\
              Forall send_event body /\
              Forall response_event resp /\
              Forall closing_event closing).
  { intros opening closing Ht Ho Hc.
    exists opening, [], [], [], [], closing.
    split; [exact Ht|]. split; [exact Ho|].
    split; [apply Forall_nil|]. split; [apply Forall_nil|].
    split; [cbn; lia|]. split; [apply Forall_nil|].
    split; [apply Forall_nil | exact Hc]. }
  destruct Hrun as
    [ w' HO Ht _
    | w' closing HO HS Ht [Hc _] _
    | w' closing HO Ht [Hc _] _
    | w' uc HO HD H1 H2 Ht _
    | w' uc closing HO HC HN Ht [Hc _] _
    | w' uc closing HO HC HN HR Ht [Hc _] _
    | r w2 w' uc closing HO HC HN HR Hsteps Ht Hc _ ].
  - apply (Hfail [Called_WinHttpOpen; LOG_ERROR_WinHttpMessage "WinHttpOpen"]
                 []).
    + rewrite app_nil_r. exact Ht.
    + apply (opening_report [Called_WinHttpOpen]);
        [apply Forall_cons; [exact I | apply Forall_nil] | cbn; auto].
    + apply Forall_nil.
  - apply (Hfail ([Called_WinHttpOpen;
                   Called_WinHttpSetTimeouts
                     (timeout_in_ms_of (timeout this))]
                  ++ [LOG_ERROR_WinHttpMessage "WinHttpSetTimeouts"])
                 closing); [exact Ht | | exact Hc].
    apply opening_report; [|cbn; auto].
    apply Forall_cons; [exact I|].
    apply Forall_cons; [exact I | apply Forall_nil].
  - apply (Hfail (cracked_events this
                  ++ [LOG_ERROR_WinHttpMessage "WinHttpCrackUrl"])
                 closing); [ | | exact Hc].
    + rewrite Ht, <- app_assoc. reflexivity.
    + apply opening_report; [|cbn; auto].
      apply cracked_events_opening.
  - apply (Hfail (cracked_events this) []).
    + rewrite app_nil_r. exact Ht.
    + apply cracked_events_opening.
    + apply Forall_nil.
  - apply (Hfail (connected_events this uc
                  ++ [LOG_ERROR_WinHttpMessage "WinHttpConnect"])
                 closing); [ | | exact Hc].
    + rewrite Ht, <- app_assoc. reflexivity.
    + apply opening_report; [|cbn; auto 10].
      apply (opening_events_of_call this uc).
  - apply (Hfail (requested_events this uc
                  ++ [LOG_ERROR_WinHttpMessage "WinHttpOpenRequest"])
                 closing); [ | | exact Hc].
    + rewrite Ht, <- app_assoc. reflexivity.
    + apply opening_report; [|cbn; auto 10].
      apply (opening_events_of_call this uc).
  - apply request_steps_phases in Hsteps.
    destruct Hsteps as (hdrs & sent & body & resp & Ht2 & Hh & Hs & Hb & Hr).
    cbn [trace set_trace] in Ht2.
    exists (requested_events this uc), hdrs, sent, body, resp, closing.
    split.
    { rewrite Ht, Ht2, <- !app_assoc. reflexivity. }
    split; [apply (opening_events_of_call this uc)|].
    split; [exact Hh|]. split.
    { destruct Hs as [-> | (tail & -> & [-> | ->])].
      - apply Forall_nil.
      - apply Forall_cons; [exact I | apply Forall_nil].
      - apply Forall_cons; [exact I|].
        apply Forall_cons; [reflexivity | apply Forall_nil]. }
    split.
    { destruct Hs as [-> | (tail & -> & [-> | ->])];
        cbn [declared_lengths length]; lia. }
    split; [exact Hb|]. split; [exact Hr|].
    destruct r; cbn [closes] in Hc.
    + exact (proj1 Hc).
    + exact (proj1 Hc).
    + subst closing. apply Forall_nil.
Qed.

(** ** The whole call and the body it sends *)

Lemma keeps_buf_bind {A B : Type} (m : M A) (k : A -> M B) :
  keeps_buf m -> (forall a, keeps_buf (k a)) -> keeps_buf (bind m k).
Proof.
  intros Hm Hk w r w'. unfold bind.
  destruct (m w) as [[a|b|f] w1] eqn:H1; intros H.
  - rewrite (Hk a _ _ _ H). exact (Hm _ _ _ H1).
  - inversion H; subst. exact (Hm _ _ _ H1).
  - inversion H; subst. exact (Hm _ _ _ H1).
Qed.

Lemma keeps_buf_ret {A : Type} (a : A) : keeps_buf (ret a).
Proof. intros w r w' H. inversion H. reflexivity. Qed.

Lemma keeps_buf_return_false {A : Type} : keeps_buf (@return_ A false).
Proof. intros w r w' H. inversion H. reflexivity. Qed.

Lemma keeps_buf_stop {A : Type} (f : fatal) : keeps_buf (@stop A f).
Proof. intros w r w' H. inversion H. reflexivity. Qed.

Lemma keeps_buf_history : keeps_buf history.
Proof. intros w r w' H. inversion H. reflexivity. Qed.

Lemma keeps_buf_emit (e : event) : keeps_buf (emit e).
Proof. intros w r w' H. inversion H. reflexivity. Qed.

Lemma keeps_buf_DCHECK (c : bool) : keeps_buf (DCHECK c).
Proof.
  unfold DCHECK. destruct DCHECK_IS_ON; [destruct c|];
    first [apply keeps_buf_ret | apply keeps_buf_stop].
Qed.

Lemma keeps_buf_checked_cast_uint32 (v : Z) :
  keeps_buf (checked_cast_uint32 v).
Proof.
  unfold checked_cast_uint32. destruct (_ && _);
    [apply keeps_buf_ret | apply keeps_buf_stop].
Qed.

Ltac keeps_buf_steps :=
  repeat first
    [ apply keeps_buf_bind
    | apply keeps_buf_ret
    | apply keeps_buf_return_false
    | apply keeps_buf_stop
    | apply keeps_buf_history
    | apply keeps_buf_emit
    | apply keeps_buf_DCHECK
    | apply keeps_buf_checked_cast_uint32
    | match goal with |- forall _, _ => intro end ].

Lemma keeps_buf_WinHttpAddRequestHeaders (line : string) :
  keeps_buf (WinHttpAddRequestHeaders line).
Proof. unfold WinHttpAddRequestHeaders. keeps_buf_steps. Qed.

Lemma keeps_buf_add_headers (hs : list (string * string)) (chunked : bool)
                            (content_length : Z) :
  keeps_buf (add_headers hs chunked content_length).
Proof.
  revert chunked content_length.
  induction hs as [|header rest IH]; intros chunked content_length;
    cbn [add_headers]; [apply keeps_buf_ret|].
  destruct (String.eqb (fst header) kContentLength).
  - apply keeps_buf_bind; [apply keeps_buf_DCHECK | intros _; apply IH].
  - apply keeps_buf_bind; [apply keeps_buf_checked_cast_uint32 | intros _].
    apply keeps_buf_bind; [apply keeps_buf_WinHttpAddRequestHeaders|].
    intros ok. destruct ok; cbn [negb]; [apply IH|].
    unfold LOG_ERROR. keeps_buf_steps.
Qed.

Lemma keeps_buf_attach_headers (hs : list (string * string)) :
  keeps_buf (attach_headers hs).
Proof.
  unfold attach_headers.
  apply keeps_buf_bind; [apply keeps_buf_add_headers|].
  intros [chunked content_length].
  apply keeps_buf_bind; [|intros dw; apply keeps_buf_ret].
  unfold declare_length. destruct chunked.
  - apply keeps_buf_bind; [apply keeps_buf_checked_cast_uint32 | intros _].
    apply keeps_buf_bind; [apply keeps_buf_WinHttpAddRequestHeaders|].
    intros ok. destruct ok; cbn [negb]; unfold LOG_ERROR; keeps_buf_steps.
  - destruct (AssignIfInRange_DWORD content_length); apply keeps_buf_ret.
Qed.

Lemma written_blocks_none (P : event -> Prop) (l : list event) :
  (forall e, P e -> forall d, e <> Called_WinHttpWriteData d) ->
  Forall P l -> written_blocks l = [].
Proof.
  intros HP. induction 1 as [|e l He Hall IH]; [reflexivity|].
  destruct e; cbn [written_blocks]; try exact IH.
  exfalso. exact (HP _ He _ eq_refl).
Qed.

Lemma request_steps_sent (this : HTTPTransport) (reads : list (list byte))
                         (w w' : world) :
  Z.of_nat (length (buf w)) = sizeof_buf ->
  body_stream this = map read_bytes reads ->
  Forall (fun d => Z.of_nat (length d) <= sizeof_data) reads ->
  request_steps this w = (Return true, w') ->
  written_blocks (trace w')
  = written_blocks (trace w)
    ++ body_blocks (fst (mode_after (headers this) true 0)) reads.
Proof.
  intros Hb Hstream Hall. unfold request_steps. unfold bind at 1.
  intros Hrun.
  destruct (attach_headers (headers this) w) as [r1 w1] eqn:Hattach.
  destruct (quiet_attach_headers _ _ _ _ Hattach)
    as (Hnt & _ & hdrs & Ht1 & Hhdrs).
  pose proof (keeps_buf_attach_headers _ _ _ _ Hattach) as Hb1.
  destruct r1 as [[[chunked cl] dw]|b|f]; [| |discriminate Hrun].
  2:{ inversion Hrun; subst. exfalso. apply Hnt. reflexivity. }
  destruct (attach_headers_result _ _ _ _ _ _ Hattach) as [Hmode _].
  unfold WinHttpSendRequest in Hrun.
  unfold bind at 1 in Hrun. unfold bind at 1 in Hrun.
  unfold bind at 1 in Hrun. unfold history at 1, emit at 1, ret at 1 in Hrun.
  cbv beta iota in Hrun.
  destruct (WinHttpSendRequest_result winhttp (trace w1)); cbn [negb] in Hrun.
  2:{ rewrite run_LOG_return in Hrun. discriminate Hrun. }
  unfold bind at 1 in Hrun. rewrite Hstream in Hrun.
  match type of Hrun with
  | context [send_body chunked cl (map read_bytes reads) ?w0] =>
      destruct (send_body chunked cl (map read_bytes reads) w0)
        as [r2 w2] eqn:Hbody
  end.
  destruct (quiet_send_body _ _ _ _ _ _ Hbody) as (Hnt2 & _).
  destruct r2 as [[]|b|f]; [| |discriminate Hrun].
  2:{ inversion Hrun; subst. exfalso. apply Hnt2. reflexivity. }
  apply send_body_complete in Hbody;
    [ | cbn [buf set_trace]; rewrite Hb1; exact Hb | exact Hall ].
  cbn [trace set_trace] in Hbody.
  destruct (receive_response_cases _ _ _ Hrun) as (resp & Ht3 & Hout).
  apply response_outcome_events in Hout.
  rewrite Ht3, written_blocks_app, Hbody, Ht1, !written_blocks_app.
  rewrite (written_blocks_none (header_event (headers this)) hdrs);
    [ | intros e He d ->; exact He | exact Hhdrs ].
  rewrite (written_blocks_none response_event resp);
    [ | intros e He d ->; exact He | exact Hout ].
  cbn [written_blocks]. rewrite !app_nil_r, <- Hmode. reflexivity.
Qed.

(** X4. A call that returns true has written the whole body, and nothing but
    the body: every read before the read of zero bytes, as a chunk when the
    headers select chunked encoding and as it is when they give a
    Content-Length, and in chunked mode the last-chunk after them. *)
Theorem successful_call_sent_whole_body (this : HTTPTransport)
                                        (reads : list (list byte))
                                        (w w' : world) :
  Z.of_nat (length (buf w)) = sizeof_buf ->
  body_stream this = map read_bytes reads ->
  Forall (fun d => Z.of_nat (length d) <= sizeof_data) reads ->
  ExecuteSynchronously this w = (Return true, w') ->
  written_blocks (trace w')
  = written_blocks (trace w)
    ++ body_blocks (fst (mode_after (headers this) true 0)) reads.
Proof.
  intros Hb Hstream Hall Hrun. apply ExecuteSynchronously_walk in Hrun.
  remember (Return true) as r eqn:Hr.
  destruct Hrun as
    [ w' HO Ht _
    | w' closing HO HS Ht Hc _
    | w' closing HO Ht Hc _
    | w' uc HO HD H1 H2 Ht _
    | w' uc closing HO HC HN Ht Hc _
    | w' uc closing HO HC HN HR Ht Hc _
    | r w2 w' uc closing HO HC HN HR Hsteps Ht Hc _ ];
    try discriminate Hr.
  subst r. cbn [closes] in Hc. destruct Hc as [Hc _].
  apply (request_steps_sent this reads) in Hsteps;
    [ | exact Hb | exact Hstream | exact Hall ].
  cbn [trace set_trace] in Hsteps.
  rewrite Ht, written_blocks_app, Hsteps, written_blocks_app.
  rewrite (written_blocks_none closing_event closing);
    [ | intros e He d ->; exact He | exact Hc ].
  unfold requested_events, connected_events, cracked_events.
  cbn [app written_blocks]. rewrite !app_nil_r. reflexivity.
Qed.

(** ** A URL of another scheme *)

(** X10. When the cracked URL has a scheme that is neither HTTP nor HTTPS, a
    build with DCHECKs stops the process at the check of the scheme: no
    connection is asked for and the session is not closed. A build without
    them goes on and connects to the host and port of the URL. *)
Theorem unexpected_scheme (this : HTTPTransport) (uc : URL_COMPONENTS)
                          (w : world) (r : result unit) (w' : world) :
  WinHttpOpen_result winhttp (trace w) = true ->
  WinHttpSetTimeouts_result winhttp (trace w ++ [Called_WinHttpOpen])
  = true ->
  WinHttpCrackUrl_result winhttp
    (trace w ++ [Called_WinHttpOpen;
                 Called_WinHttpSetTimeouts
                   (timeout_in_ms_of (timeout this))])
    (UTF8ToUTF16 (url this)) = Some uc ->
  nScheme uc <> INTERNET_SCHEME_HTTP ->
  nScheme uc <> INTERNET_SCHEME_HTTPS ->
  ExecuteSynchronously this w = (r, w') ->
  (DCHECK_IS_ON = true ->
   r = Fatal check_failed /\
   trace w' = trace w ++ cracked_events this) /\
  (DCHECK_IS_ON = false ->
   exists rest,
     trace w' = trace w ++ connected_events this uc ++ rest).
Proof.
  intros HO HS HC H1 H2 Hrun. apply ExecuteSynchronously_walk in Hrun.
  destruct Hrun as
    [ w' HO' Ht _
    | w' closing HO' HS' Ht Hc _
    | w' closing HO' Ht Hc _ HS' HC'
    | w' uc' HO' HD H1' H2' Ht _ HS' HC'
    | w' uc' closing HO' HC' HN Ht Hc _ Hok
    | w' uc' closing HO' HC' HN HR Ht Hc _ Hok
    | r w2 w' uc' closing HO' HC' HN HR Hsteps Ht Hc _ Hok ];
    try congruence.
  - split; [intros _; split; [reflexivity | exact Ht] |].
    intros HD'. congruence.
  - assert (uc' = uc) by congruence. subst uc'. split.
    + intros HD. destruct (Hok HD); contradiction.
    + intros _. eexists. exact Ht.
  - assert (uc' = uc) by congruence. subst uc'. split.
    + intros HD. destruct (Hok HD); contradiction.
    + intros _. unfold requested_events in Ht.
      rewrite <- app_assoc in Ht. eexists. exact Ht.
  - assert (uc' = uc) by congruence. subst uc'. split.
    + intros HD. destruct (Hok HD); contradiction.
    + intros _.
      destruct (request_steps_handle_free this _ r w2 Hsteps)
        as (req & Ht2 & _).
      cbn [trace set_trace] in Ht2. unfold requested_events in Ht2.
      eexists. rewrite Ht, Ht2, <- !app_assoc. reflexivity.
Qed.

(** ** Success and the status code *)

Lemma send_body_run (chunked : bool) (content_length : Z)
                    (reads : list (list byte)) (w : world) :
  takes_every_write winhttp ->
  Z.of_nat (length (buf w)) = sizeof_buf ->
  Forall (fun d => Z.of_nat (length d) <= sizeof_data) reads ->
  (DCHECK_IS_ON = true -> chunked = false ->
   total_after 0 (reads_until_eof reads) = content_length) ->
  exists w',
    send_body chunked content_length (map read_bytes reads) w
    = (Continue tt, w') /\
    trace w' = trace w ++ map Called_WinHttpWriteData
                            (body_blocks chunked reads) /\
    response_body w' = response_body w.
Proof.
  intros Hw Hb Hall Hcheck.
  unfold send_body, set_total_written. unfold bind at 1.
  destruct chunked.
  - destruct (send_loop_chunked_run reads (set_total w 0) Hw Hb Hall)
      as (w' & Hrun & Ht & _ & Hrb).
    unfold bind at 1. rewrite Hrun. cbn [negb]. unfold ret.
    exists w'. split; [reflexivity|]. split; [exact Ht | exact Hrb].
  - destruct (send_loop_identity_run reads (set_total w 0) Hw Hb Hall)
      as (w' & Hrun & Ht & Htot & _ & Hrb).
    cbn [total_written set_total] in Htot.
    unfold bind at 1. rewrite Hrun. cbn [negb].
    unfold bind, get_total_written, DCHECK.
    exists w'. split; [|split; [exact Ht | exact Hrb]].
    destruct DCHECK_IS_ON eqn:HD; [|reflexivity].
    rewrite Htot, (Hcheck eq_refl eq_refl), Z.eqb_refl. reflexivity.
Qed.

Lemma receive_response_run (status_code : Z) (w : world)
                           (r : result unit) (w' : world) :
  WinHttpReceiveResponse_result winhttp (trace w) = true ->
  WinHttpQueryHeaders_result winhttp
    (trace w ++ [Called_WinHttpReceiveResponse]) = Some status_code ->
  receive_response w = (r, w') ->
  r = Return ((status_code =? 200)
              && match response_body w with
                 | Some _ => readable (WinHttpReadData_script winhttp)
                 | None => true
                 end) /\
  exists evs,
    trace w' = trace w ++ Called_WinHttpReceiveResponse
               :: Called_WinHttpQueryHeaders (Some status_code) :: evs.
Proof.
  intros HR HQ.
  unfold receive_response, WinHttpReceiveResponse, WinHttpQueryHeaders.
  unfold bind at 1. unfold bind at 1. unfold bind at 1.
  unfold history at 1, emit at 1, ret at 1. cbv beta iota.
  rewrite HR. cbn [negb].
  unfold bind at 1. unfold bind at 1. unfold bind at 1.
  unfold history at 1, emit at 1, ret at 1. cbv beta iota.
  cbn [trace set_trace]. rewrite HQ.
  destruct (Z.eqb_spec status_code 200) as [-> | Hne]; cbn [negb andb].
  2:{ unfold bind, emit, return_. intros H. inversion H; subst.
      split; [reflexivity|]. eexists.
      cbn [trace set_trace]. rewrite <- !app_assoc. reflexivity. }
  unfold bind at 1. unfold response_body_is_null. cbv beta iota.
  cbn [response_body set_trace].
  destruct (response_body w) as [s|] eqn:Hrb; cbn [negb].
  - unfold bind at 1. unfold bind at 1. unfold response_body_clear.
    cbv beta iota. cbn [response_body set_trace]. rewrite Hrb.
    cbn [option_map].
    match goal with
    | |- context [read_loop ?sc ?w0] =>
        destruct (read_loop_run sc w0) as (reads & Hall & Hrun & Hlog)
    end.
    rewrite Hrun.
    cbn [trace response_body set_trace set_response_body option_map app].
    destruct (readable (WinHttpReadData_script winhttp));
      intros H; inversion H; subst;
      cbn [trace response_body set_trace set_response_body];
      (split; [reflexivity|]); exists reads;
      rewrite <- !app_assoc; reflexivity.
  - unfold bind, ret, return_. intros H. inversion H; subst.
    split; [reflexivity|]. exists [].
    cbn [trace set_trace]. rewrite <- !app_assoc. reflexivity.
Qed.

Lemma request_steps_run (this : HTTPTransport) (reads : list (list byte))
                        (status_code : Z) (w : world)
                        (r : result unit) (w' : world) :
  serves_request winhttp ->
  (forall h, WinHttpQueryHeaders_result winhttp h = Some status_code) ->
  passes_checks this reads ->
  Z.of_nat (length (buf w)) = sizeof_buf ->
  request_steps this w = (r, w') ->
  r = Return ((status_code =? 200)
              && match response_body w with
                 | Some _ => readable (WinHttpReadData_script winhttp)
                 | None => true
                 end) /\
  exists evs,
    trace w' = trace w ++ evs /\
    In (Called_WinHttpQueryHeaders (Some status_code)) evs.
Proof.
  intros (_ & _ & _ & _ & _ & Hacc & Hsend & Hw & Hrecv) HQ
         (Hfit & Hstream & Hall & Hchecks) Hb.
  unfold request_steps. unfold bind at 1.
  destruct (attach_headers_run (headers this) w Hacc Hfit)
    as (dw & Hattach).
  { intros HD. exact (proj1 (Hchecks HD)). }
  rewrite Hattach.
  unfold WinHttpSendRequest.
  unfold bind at 1. unfold bind at 1. unfold bind at 1.
  unfold history at 1, emit at 1, ret at 1. cbv beta iota.
  rewrite Hsend. cbn [negb].
  unfold bind at 1. rewrite Hstream.
  match goal with
  | |- context [send_body ?c ?cl (map read_bytes reads) ?w0] =>
      destruct (send_body_run c cl reads w0 Hw) as (w3 & Hbody & Ht3 & Hrb3)
  end.
  { cbn [buf set_trace]. exact Hb. }
  { exact Hall. }
  { intros HD Hmode. exact (proj2 (Hchecks HD) Hmode). }
  rewrite Hbody. intros Hrun.
  apply (receive_response_run status_code) in Hrun;
    [ | apply Hrecv | apply HQ ].
  destruct Hrun as (Hr & evs & Ht).
  rewrite Hrb3 in Hr. cbn [response_body set_trace] in Hr.
  split; [exact Hr|].
  rewrite Ht3 in Ht. cbn [trace set_trace] in Ht.
  rewrite <- !app_assoc in Ht.
  eexists. split; [exact Ht|].
  apply in_or_app. right. apply in_or_app. right.
  apply in_or_app. right. right. left. reflexivity.
Qed.

(** C8. A call succeeds only if WinHTTP reported the status code 200 and
    the response body, when the caller asked for it, could be read to its
    end.  Whatever status code was reported, any code other than 200 (201
    and 204 as well) makes the call return false, whether or not a body
    could be read; and the call returns true if and only if the code is 200
    and the body is not asked for or is readable, so that a read of the body
    that fails after a 200 makes the call return false.  And the status is
    what decides: with a WinHTTP that fails no step up to the status query
    and a request that passes the checks of the function, the call asks for
    the status code and returns, true or false as just said. *)
Theorem success_only_with_status_200 (this : HTTPTransport)
                                     (stack : list byte)
                                     (rb : option (list byte))
                                     (r : result unit) (w' : world) :
  ExecuteSynchronously this (initial_world stack rb) = (r, w') ->
  (r = Return true ->
   In (Called_WinHttpQueryHeaders (Some 200)) (trace w') /\
   (rb = None \/ readable (WinHttpReadData_script winhttp) = true)) /\
  (forall status_code,
     In (Called_WinHttpQueryHeaders (Some status_code)) (trace w') ->
     (status_code <> 200 -> r = Return false) /\
     (r = Return true <->
      status_code = 200 /\
      (rb = None \/ readable (WinHttpReadData_script winhttp) = true))) /\
  (forall status_code reads,
     serves_request winhttp ->
     (forall h, WinHttpQueryHeaders_result winhttp h = Some status_code) ->
     passes_checks this reads ->
     Z.of_nat (length stack) = sizeof_buf ->
     r = Return ((status_code =? 200)
                 && match rb with
                    | Some _ => readable (WinHttpReadData_script winhttp)
                    | None => true
                    end) /\
     In (Called_WinHttpQueryHeaders (Some status_code)) (trace w')).
Proof.
  intros Hrun. split; [|split].
  - apply ExecuteSynchronously_summary in Hrun.
    destruct Hrun as (evs & Ht & H). cbn [trace initial_world app] in Ht.
    rewrite Ht. clear Ht. intros Htrue.
    destruct H as [(Hr & _ & _)
                  | (pre & mid & post & -> & Hpre & Hpost & Hout)];
      [contradiction|].
    destruct (around_response pre mid post Hpre Hpost) as (Hs & _ & _).
    cbn [response_body initial_world] in Hout.
    apply response_outcome_status in Hout.
    destruct Hout as [(Hst & _ & [(_ & Hok & _) | (Hr & _)])
                     | (Hr & _)]; try congruence.
    split; [|exact Hok].
    apply status_codes_In. rewrite Hs, Hst. left. reflexivity.
  - apply ExecuteSynchronously_summary in Hrun.
    destruct Hrun as (evs & Ht & H). cbn [trace initial_world app] in Ht.
    rewrite Ht. clear Ht. intros c Hin. apply status_codes_In in Hin.
    destruct H as [(Hr & _ & Hall)
                  | (pre & mid & post & -> & Hpre & Hpost & Hout)].
    { destruct (before_status_quiet evs Hall) as (Hs & _ & _).
      rewrite Hs in Hin. contradiction. }
    destruct (around_response pre mid post Hpre Hpost) as (Hs & _ & _).
    rewrite Hs in Hin.
    cbn [response_body initial_world] in Hout.
    apply response_outcome_status in Hout.
    destruct Hout as [(Hst & _ & Hcase) | (Hr & _ & _ & Hst)].
    + rewrite Hst in Hin. destruct Hin as [Hin | []].
      inversion Hin; subst c. split; [intros Hne; congruence|].
      destruct Hcase as [(Hr & Hok & _) | (Hr & Hrb & Hrd & _)].
      * split; [intros _; split; [reflexivity | exact Hok]
               | intros _; exact Hr].
      * split; [intros Htrue; congruence|].
        intros (_ & [Hok | Hok]); congruence.
    + destruct Hst as [Hst | [Hst | (c' & Hne & Hst)]]; rewrite Hst in Hin.
      * contradiction.
      * destruct Hin as [Hin | []]. discriminate Hin.
      * destruct Hin as [Hin | []]. inversion Hin; subst c'.
        split; [intros _; exact Hr|].
        split; [intros Htrue; congruence | intros (H200 & _); contradiction].
  - intros status_code reads Hserves HQ Hchecks Hstack.
    pose proof Hserves as (Hopen & Htim & Hcrack & Hconn & Hreq & _).
    apply ExecuteSynchronously_walk in Hrun.
    destruct Hrun as
      [ w' HO Ht _
      | w' closing HO HS Ht Hc _
      | w' closing HO Ht Hc _ HS HC
      | w' uc HO HD H1 H2 Ht _ HS HC
      | w' uc closing HO HC HN Ht Hc _ Hok
      | w' uc closing HO HC HN HR Ht Hc _ Hok
      | r w2 w' uc closing HO HC HN HR Hsteps Ht Hc _ Hok ].
    + rewrite Hopen in HO. discriminate HO.
    + rewrite Htim in HS. discriminate HS.
    + destruct (Hcrack (trace (initial_world stack rb)
                        ++ [Called_WinHttpOpen;
                            Called_WinHttpSetTimeouts
                              (timeout_in_ms_of (timeout this))])
                       (UTF8ToUTF16 (url this))) as (uc & E & _).
      rewrite E in HC. discriminate HC.
    + destruct (Hcrack (trace (initial_world stack rb)
                        ++ [Called_WinHttpOpen;
                            Called_WinHttpSetTimeouts
                              (timeout_in_ms_of (timeout this))])
                       (UTF8ToUTF16 (url this))) as (uc' & E & Hscheme).
      rewrite E in HC. inversion HC; subst uc'.
      destruct Hscheme; contradiction.
    + rewrite Hconn in HN. discriminate HN.
    + rewrite Hreq in HR. discriminate HR.
    + apply (request_steps_run this reads status_code) in Hsteps;
        [ | exact Hserves | exact HQ | exact Hchecks
          | cbn [buf set_trace initial_world]; exact Hstack ].
      destruct Hsteps as (Hr & evs & Ht2 & Hin).
      cbn [response_body set_trace initial_world] in Hr.
      split; [exact Hr|].
      rewrite Ht, Ht2. apply in_or_app. left. apply in_or_app. right.
      exact Hin.
Qed.

End ExecuteSynchronously.

(** ** The theorems at work *)

Lemma chunked_body_round_trip_witness :
  exists w' sent chunks,
    send_loop true 64 (willing_winhttp 200 []) true
              (map read_bytes (sample_reads ++ [[]])) sample_world
    = (Continue tt, w') /\
    trace w' = trace sample_world ++ sent /\
    chunked_decode (wire_bytes sent) = Some (chunks, []) /\
    concat chunks = delivered_body (sample_reads ++ [[]]) /\
    (Forall (fun d => d <> []) sample_reads ->
     concat chunks = concat (sample_reads ++ [[]])) /\
    written_blocks sent = map chunk_frame chunks ++ [terminal_chunk] /\
    Forall (fun d => d <> []) chunks /\
    count_occ (list_eq_dec Byte.byte_eq_dec)
              (written_blocks sent) terminal_chunk = 1%nat.
Proof.
  apply (chunked_body_round_trip true 64 (willing_winhttp 200 [])
           sample_reads sample_world).
  - intros h bytes. reflexivity.
  - vm_compute. reflexivity.
  - repeat constructor; vm_compute; discriminate.
Defined.

Lemma chunk_size_rendering_witness :
  exists r w' digits field later,
    send_block true 64 (willing_winhttp 200 []) true
               (read_bytes sample_block) sample_world = (r, w') /\
    sub_bytes (buf w') offsetof_size sizeof_size = digits /\
    length digits = 8%nat /\
    forallb is_lower_hex digits = true /\
    hex_number digits = Z.of_nat (length sample_block) /\
    field = skipn (8 - length field) digits /\
    Forall (fun c => c = char_0) (firstn (8 - length field) digits) /\
    minimal_hex (Z.of_nat (length sample_block)) field /\
    trace w' = trace sample_world
               ++ Called_WinHttpWriteData (field ++ [CR; LF] ++ sample_block
                                           ++ [CR; LF]) :: later /\
    written_blocks later = [] /\
    Z.of_nat (length (field ++ [CR; LF] ++ sample_block ++ [CR; LF]))
    = Z.of_nat (length field) + 2 + Z.of_nat (length sample_block) + 2.
Proof.
  apply (chunk_size_rendering true 64 (willing_winhttp 200 [])
           sample_block sample_world).
  - vm_compute. split; discriminate.
  - vm_compute. reflexivity.
Defined.

Lemma terminal_chunk_is_written_witness :
  (exists r w' later,
     send_block true 64 (willing_winhttp 200 []) true (read_bytes [])
                sample_world = (r, w') /\
     trace w' = trace sample_world
                ++ Called_WinHttpWriteData [char_0; CR; LF; CR; LF] :: later /\
     written_blocks later = []) /\
  (exists w',
     send_block true 64 (willing_winhttp 200 []) false (read_bytes [])
                sample_world = (Continue 0, w') /\
     trace w' = trace sample_world).
Proof.
  apply (terminal_chunk_is_written true 64 (willing_winhttp 200 [])
           sample_world).
  vm_compute. reflexivity.
Defined.

Lemma fixed_length_passthrough_witness :
  exists r w' blocks,
    send_body true 64 (willing_winhttp 200 []) false 3
              (map read_bytes (sample_reads ++ [[]])) sample_world
    = (r, w') /\
    blocks = reads_until_eof (sample_reads ++ [[]]) /\
    trace w' = trace sample_world ++ map Called_WinHttpWriteData blocks /\
    Forall (fun d => d <> []) blocks /\
    total_written w' = Z.of_nat (length (concat blocks)) /\
    (r = Continue tt \/ r = Fatal check_failed) /\
    (true = true ->
     (r = Continue tt <-> Z.of_nat (length (concat blocks)) = 3)) /\
    (true = false -> r = Continue tt).
Proof.
  apply (fixed_length_passthrough true 64 (willing_winhttp 200 [])
           sample_reads sample_world 3).
  - intros h bytes. reflexivity.
  - vm_compute. reflexivity.
  - repeat constructor; vm_compute; discriminate.
  - vm_compute. reflexivity.
Defined.

Lemma framer_stores_in_bounds_witness :
  exists range w',
    frame_chunk true sizeof_data sample_world = (Continue range, w') /\
    Z.of_nat (length (buf w')) = sizeof_buf /\
    0 <= offsetof_data + sizeof_data /\
    offsetof_data + (sizeof_data + 1) < sizeof_buf /\
    load (buf w') (offsetof_data + sizeof_data) = CR /\
    load (buf w') (offsetof_data + (sizeof_data + 1)) = LF /\
    (sizeof_data = sizeof_data ->
     offsetof_data + sizeof_data = offsetof_crlf1 /\
     field_of_offset (offsetof_data + sizeof_data) = Some field_crlf1 /\
     field_of_offset (offsetof_data + (sizeof_data + 1)) = Some field_crlf1 /\
     sub_bytes (buf w') offsetof_crlf1 sizeof_crlf1 = [CR; LF]).
Proof.
  apply (framer_stores_in_bounds true sizeof_data sample_world).
  - vm_compute. split; discriminate.
  - vm_compute. reflexivity.
Defined.

(** One byte more than the data field holds, and the LF would be stored
    past the end of [buf]: the capacity of the data field is the bound. *)
Example framer_store_past_capacity :
  fst (frame_chunk false (sizeof_data + 1) sample_world)
  = Fatal out_of_bounds.
Proof. vm_compute. reflexivity. Qed.

Lemma content_length_selects_mode_witness :
  quiet (header_event sample_headers)
        (attach_headers true decimal_StringToSizeT (willing_winhttp 200 [])
                        sample_headers) /\
  (forall w0 r w1 line,
     attach_headers true decimal_StringToSizeT (willing_winhttp 200 [])
                    sample_headers w0 = (r, w1) ->
     In (Called_WinHttpAddRequestHeaders line) (trace w1) ->
     In (Called_WinHttpAddRequestHeaders line) (trace w0) \/
     line = name_value_line "Transfer-Encoding" "chunked" \/
     exists name value,
       In (name, value) sample_headers /\
       name <> "Content-Length"%string /\
       line = name_value_line name value) /\
  (forall v n,
     In (kContentLength, v) sample_headers ->
     decimal_StringToSizeT v = Some n ->
     attach_headers true decimal_StringToSizeT (willing_winhttp 200 [])
                    sample_headers sample_world =
     (Continue (false, Z.of_N n,
                match AssignIfInRange_DWORD (Z.of_N n) with
                | Some content_length_dword => content_length_dword
                | None => WINHTTP_IGNORE_REQUEST_TOTAL_LENGTH
                end),
      set_trace sample_world
        (trace sample_world ++ map Called_WinHttpAddRequestHeaders
                                 (forwarded_lines sample_headers)))) /\
  ((forall v, ~ In (kContentLength, v) sample_headers) ->
   attach_headers true decimal_StringToSizeT (willing_winhttp 200 [])
                  sample_headers sample_world =
   (Continue (true, 0, WINHTTP_IGNORE_REQUEST_TOTAL_LENGTH),
    set_trace sample_world
      (trace sample_world ++ map Called_WinHttpAddRequestHeaders
                               (map (fun h =>
                                       name_value_line (fst h) (snd h))
                                    sample_headers
                                ++ [name_value_line "Transfer-Encoding"
                                                    "chunked"])))) /\
  (forall name value,
     has_colon name = false ->
     read_header_line (name_value_line name value) = Some (name, value)).
Proof.
  apply (content_length_selects_mode true decimal_StringToSizeT
           (willing_winhttp 200 []) sample_headers sample_world).
  - intros h line. reflexivity.
  - repeat constructor; vm_compute; discriminate.
  - repeat constructor; simpl; intuition discriminate.
Defined.

(** C6 as stated fails: the name "content-length" is "Content-Length" but
    for letter case, and the entry is handed to WinHTTP as a literal header
    line, the mode stays chunked and the Transfer-Encoding line is added. *)
Lemma content_length_lowercase_is_forwarded :
  equal_ignoring_case "content-length" kContentLength = true /\
  fst (attach_headers true decimal_StringToSizeT (willing_winhttp 200 [])
                      lowercase_headers sample_world)
  = Continue (true, 0, WINHTTP_IGNORE_REQUEST_TOTAL_LENGTH) /\
  added_headers
    (trace (snd (attach_headers true decimal_StringToSizeT
                                (willing_winhttp 200 [])
                                lowercase_headers sample_world)))
  = [("content-length: 10" ++ CRLF_string)%string; kTransferEncodingHeader].
Proof. vm_compute. repeat split. Qed.

Lemma content_length_name_is_exact_witness :
  exists chunked content_length content_length_dword w',
    attach_headers true decimal_StringToSizeT (willing_winhttp 200 [])
                   lowercase_headers sample_world =
    (Continue (chunked, content_length, content_length_dword), w') /\
    (forall h, In h lowercase_headers -> fst h <> kContentLength ->
       In (Called_WinHttpAddRequestHeaders (header_string_of h))
          (trace w')) /\
    (chunked = false ->
     exists v n, In (kContentLength, v) lowercase_headers /\
                 decimal_StringToSizeT v = Some n) /\
    ((forall v, ~ In (kContentLength, v) lowercase_headers) ->
     chunked = true /\
     In (Called_WinHttpAddRequestHeaders kTransferEncodingHeader)
        (trace w')).
Proof.
  apply (content_length_name_is_exact true decimal_StringToSizeT
           (willing_winhttp 200 []) lowercase_headers sample_world).
  - intros h line. reflexivity.
  - repeat constructor; vm_compute; discriminate.
  - intros _. repeat constructor. vm_compute. discriminate.
Defined.

(** C7 as stated fails: with a Content-Length value that does not convert
    the call does not return false before the network is touched.  With
    DCHECKs compiled out it connects, sends the request in chunked mode and,
    on a 200, returns true; with DCHECKs compiled in it stops on the DCHECK,
    after it has connected and opened the request. *)
Lemma unconverted_content_length_is_sent :
  decimal_StringToSizeT "abc" = None /\
  (let run := ExecuteSynchronously false decimal_StringToSizeT 64
                (willing_winhttp 200 [])
                (upload unconverted_headers [read_bytes ["h"; "i"]%byte])
                sample_world in
   fst run = Return true /\
   trace (snd run) =
   [Called_WinHttpOpen;
    Called_WinHttpSetTimeouts 15000;
    Called_WinHttpCrackUrl "http://host/upload";
    Called_WinHttpConnect "host" 80;
    Called_WinHttpOpenRequest "POST" "/upload" false;
    Called_WinHttpAddRequestHeaders kTransferEncodingHeader;
    Called_WinHttpSendRequest WINHTTP_IGNORE_REQUEST_TOTAL_LENGTH;
    Called_WinHttpWriteData (chunk_frame ["h"; "i"]%byte);
    Called_WinHttpWriteData terminal_chunk;
    Called_WinHttpReceiveResponse;
    Called_WinHttpQueryHeaders (Some 200);
    Called_WinHttpCloseHandle request;
    Called_WinHttpCloseHandle connect;
    Called_WinHttpCloseHandle session]) /\
  (let run := ExecuteSynchronously true decimal_StringToSizeT 64
                (willing_winhttp 200 [])
                (upload unconverted_headers [read_bytes ["h"; "i"]%byte])
                sample_world in
   fst run = Fatal check_failed /\
   trace (snd run) =
   [Called_WinHttpOpen;
    Called_WinHttpSetTimeouts 15000;
    Called_WinHttpCrackUrl "http://host/upload";
    Called_WinHttpConnect "host" 80;
    Called_WinHttpOpenRequest "POST" "/upload" false]).
Proof. vm_compute. repeat split. Qed.

Lemma unconverted_content_length_witness :
  (false = false ->
   ExecuteSynchronously false decimal_StringToSizeT 64
     (willing_winhttp 200 [])
     (upload unconverted_headers [read_bytes ["h"; "i"]%byte]) sample_world
   = ExecuteSynchronously false decimal_StringToSizeT 64
       (willing_winhttp 200 [])
       (without_content_length
          (upload unconverted_headers [read_bytes ["h"; "i"]%byte]))
       sample_world) /\
  (false = true ->
   forall r w',
     ExecuteSynchronously false decimal_StringToSizeT 64
       (willing_winhttp 200 [])
       (upload unconverted_headers [read_bytes ["h"; "i"]%byte]) sample_world
     = (r, w') ->
     r <> Return true /\
     exists evs,
       trace w' = trace sample_world ++ evs /\
       Forall (fun e => setup_event e \/
                        header_event unconverted_headers e) evs).
Proof.
  apply (unconverted_content_length false decimal_StringToSizeT 64
           (willing_winhttp 200 [])
           (upload unconverted_headers [read_bytes ["h"; "i"]%byte])
           "abc" sample_world).
  - repeat constructor. simpl. intuition.
  - simpl. left. reflexivity.
  - reflexivity.
Defined.

(** The timeout in milliseconds, for 15 seconds, for the double nearest to
    0.29 (whose product with 1000 rounds to 290) and for 3000000 seconds
    (whose product no [int] holds). *)
Example timeouts_in_ms :
  timeout_in_ms_of 15 = 15000 /\
  timeout_in_ms_of 0x1.28f5c28f5c28fp-2 = 290 /\
  timeout_in_ms_of 3000000 = INT_MIN.
Proof. vm_compute. repeat split. Qed.

(** C8 as stated fails: WinHTTP reports the status code 200, the second
    read of the response body fails, and the call returns false. *)
Lemma status_200_unreadable_body_fails :
  let run := ExecuteSynchronously true decimal_StringToSizeT 64
               (willing_winhttp 200 [Some ["O"; "K"]%byte; None])
               (upload [] [read_bytes ["h"; "i"]%byte])
               (initial_world blank_stack (Some [])) in
  status_codes (trace (snd run)) = [Some 200] /\
  fst run = Return false.
Proof. vm_compute. split; reflexivity. Qed.

Lemma success_only_with_status_200_witness :
  let winhttp := willing_winhttp 201 [Some ["O"; "K"]%byte; Some []] in
  let this := upload [] [read_bytes ["h"; "i"]%byte] in
  let run := ExecuteSynchronously true decimal_StringToSizeT 64 winhttp
               this (initial_world blank_stack (Some [])) in
  (fst run = Return true ->
   In (Called_WinHttpQueryHeaders (Some 200)) (trace (snd run)) /\
   (Some (@nil byte) = None \/
    readable (WinHttpReadData_script winhttp) = true)) /\
  (forall status_code,
     In (Called_WinHttpQueryHeaders (Some status_code)) (trace (snd run)) ->
     (status_code <> 200 -> fst run = Return false) /\
     (fst run = Return true <->
      status_code = 200 /\
      (Some (@nil byte) = None \/
       readable (WinHttpReadData_script winhttp) = true))) /\
  (fst run = Return ((201 =? 200)
                     && readable (WinHttpReadData_script winhttp)) /\
   In (Called_WinHttpQueryHeaders (Some 201)) (trace (snd run))).
Proof.
  intros winhttp this run.
  destruct (success_only_with_status_200 true decimal_StringToSizeT 64
              winhttp this blank_stack (Some []) (fst run) (snd run)
              (surjective_pairing run)) as (HA & HB & HC).
  split; [exact HA|]. split; [exact HB|].
  apply (HC 201 [["h"; "i"]%byte]).
  - repeat split; intros; try reflexivity.
    eexists. split; [reflexivity | left; reflexivity].
  - intros h. reflexivity.
  - split; [constructor|]. split; [reflexivity|]. split.
    + repeat (constructor; [vm_compute; discriminate|]). constructor.
    + intros _. split; [constructor | intros H; discriminate H].
  - vm_compute. reflexivity.
Defined.

(** Two runs: a 201 with a readable body is a failure, a 200 with the body
    OK is a success with that body in the caller's string. *)
Example status_201_fails :
  fst (ExecuteSynchronously true decimal_StringToSizeT 64
         (willing_winhttp 201 [Some ["O"; "K"]%byte; Some []])
         (upload [] [read_bytes ["h"; "i"]%byte])
         (initial_world blank_stack (Some [])))
  = Return false.
Proof. vm_compute. reflexivity. Qed.

Example status_200_succeeds :
  let run := ExecuteSynchronously true decimal_StringToSizeT 64
               (willing_winhttp 200 [Some ["O"; "K"]%byte; Some []])
               (upload [] [read_bytes ["h"; "i"]%byte])
               (initial_world blank_stack (Some ["z"]%byte)) in
  fst run = Return true /\
  response_body (snd run) = Some ["O"; "K"]%byte.
Proof. vm_compute. split; reflexivity. Qed.

Lemma response_body_kept_until_200_witness :
  let winhttp := willing_winhttp 404 [Some ["O"; "K"]%byte; Some []] in
  let run := ExecuteSynchronously true decimal_StringToSizeT 64 winhttp
               (upload [] [read_bytes ["h"; "i"]%byte])
               (initial_world blank_stack (Some ["o"; "l"; "d"]%byte)) in
  (fst run <> Return true ->
   ~ In (LOG_ERROR_WinHttpMessage "WinHttpReadData") (trace (snd run)) ->
   response_body (snd run) = Some ["o"; "l"; "d"]%byte) /\
  (~ In (Called_WinHttpQueryHeaders (Some 200)) (trace (snd run)) ->
   response_body (snd run) = Some ["o"; "l"; "d"]%byte) /\
  (In (LOG_ERROR_WinHttpMessage "WinHttpReadData") (trace (snd run)) ->
   fst run = Return false /\
   In (Called_WinHttpQueryHeaders (Some 200)) (trace (snd run)) /\
   response_body (snd run) = Some (received_bytes (trace (snd run)))).
Proof.
  intros winhttp run.
  apply (response_body_kept_until_200 true decimal_StringToSizeT 64 winhttp
           (upload [] [read_bytes ["h"; "i"]%byte]) blank_stack
           ["o"; "l"; "d"]%byte (fst run) (snd run)).
  apply surjective_pairing.
Defined.

(** A read of the response body that fails after the 200: the call returns
    false and the bytes read before the failure are in the caller's
    string. *)
Example failed_read_leaves_prefix :
  let run := ExecuteSynchronously true decimal_StringToSizeT 64
               (willing_winhttp 200 [Some ["O"; "K"]%byte; None])
               (upload [] [read_bytes ["h"; "i"]%byte])
               (initial_world blank_stack (Some ["o"; "l"; "d"]%byte)) in
  fst run = Return false /\
  response_body (snd run) = Some ["O"; "K"]%byte.
Proof. vm_compute. split; reflexivity. Qed.

(** ** The further theorems at work *)

Lemma write_range_in_buf_witness :
  exists write_start write_size w',
    frame_chunk true 26 sample_world
    = (Continue (write_start, write_size), w') /\
    offsetof_size <= write_start /\
    0 <= write_size /\
    write_start + write_size <= sizeof_buf /\
    (true = true ->
     write_start < offsetof_crlf0 /\
     write_start + write_size = offsetof_data + 26 + sizeof_crlf1) /\
    (true = false ->
     write_start = offsetof_data /\
     write_start + write_size = offsetof_data + 26).
Proof.
  apply (write_range_in_buf true true 26 sample_world).
  - vm_compute. split; discriminate.
  - vm_compute. reflexivity.
Defined.

Lemma body_read_failure_ends_send_witness :
  exists w',
    send_body true 64 (willing_winhttp 200 []) true 0
              (map read_bytes sample_reads ++ [read_failed]) sample_world
    = (Return false, w') /\
    trace w' = trace sample_world
               ++ map Called_WinHttpWriteData (map chunk_frame sample_reads)
    /\
    response_body w' = response_body sample_world.
Proof.
  apply (body_read_failure_ends_send true 64 (willing_winhttp 200 [])
           true 0 sample_reads [] sample_world).
  - intros h bytes. reflexivity.
  - vm_compute. reflexivity.
  - repeat (constructor; [split; [discriminate | vm_compute; discriminate]|]).
    constructor.
Defined.

Lemma completed_send_wrote_whole_body_witness :
  let run := send_body true 64 (willing_winhttp 200 []) false 3
               (map read_bytes sample_reads) sample_world in
  exists evs,
    trace (snd run) = trace sample_world ++ evs /\
    Forall send_event evs /\
    written_blocks evs = body_blocks false sample_reads /\
    response_body (snd run) = response_body sample_world.
Proof.
  intros run.
  apply (completed_send_wrote_whole_body true 64 (willing_winhttp 200 [])
           false 3 sample_reads sample_world (snd run)).
  - vm_compute. reflexivity.
  - repeat (constructor; [vm_compute; discriminate|]). constructor.
  - assert (E : fst run = Continue tt) by (vm_compute; reflexivity).
    rewrite <- E. apply surjective_pairing.
Defined.

Lemma response_body_on_return_witness :
  let winhttp := willing_winhttp 200 [Some ["O"; "K"]%byte; Some []] in
  let run := ExecuteSynchronously true decimal_StringToSizeT 64 winhttp
               (upload [] [read_bytes ["h"; "i"]%byte])
               (initial_world blank_stack (Some ["z"]%byte)) in
  (fst run = Return true ->
   response_body (snd run)
   = Some (script_bytes (WinHttpReadData_script winhttp)) /\
   readable (WinHttpReadData_script winhttp) = true) /\
  (response_body (snd run) = Some ["z"]%byte \/
   response_body (snd run)
   = Some (script_bytes (WinHttpReadData_script winhttp))).
Proof.
  intros winhttp run.
  apply (response_body_on_return true decimal_StringToSizeT 64 winhttp
           (upload [] [read_bytes ["h"; "i"]%byte])
           (initial_world blank_stack (Some ["z"]%byte)) ["z"]%byte
           (fst run) (snd run)).
  - reflexivity.
  - apply surjective_pairing.
Defined.

Lemma null_response_body_is_not_read_witness :
  let run := ExecuteSynchronously true decimal_StringToSizeT 64
               (willing_winhttp 200 [Some ["O"; "K"]%byte; Some []])
               (upload [] [read_bytes ["h"; "i"]%byte])
               (initial_world blank_stack None) in
  response_body (snd run) = None /\
  (forall bytes, ~ In (Called_WinHttpReadData bytes) (trace (snd run))).
Proof.
  intros run.
  apply (null_response_body_is_not_read true decimal_StringToSizeT 64
           (willing_winhttp 200 [Some ["O"; "K"]%byte; Some []])
           (upload [] [read_bytes ["h"; "i"]%byte]) blank_stack
           (fst run) (snd run)).
  apply surjective_pairing.
Defined.

Lemma failure_ends_the_call_witness :
  let this := upload [] [read_bytes ["h"; "i"]%byte] in
  let run := ExecuteSynchronously true decimal_StringToSizeT 64
               (willing_winhttp 503 []) this sample_world in
  exists evs,
    trace (snd run) = trace sample_world ++ evs /\
    ((Forall (fun e => ~ failure_report e) evs /\
      (fst run = Return false -> In read_failed (body_stream this)))
     \/ (fst run = Return false /\
         exists pre e post,
           evs = pre ++ e :: post /\
           Forall (fun e => ~ failure_report e) pre /\
           failure_report e /\
           Forall closing_event post)).
Proof.
  intros this run.
  apply (failure_ends_the_call true decimal_StringToSizeT 64
           (willing_winhttp 503 []) this sample_world (fst run) (snd run)).
  apply surjective_pairing.
Defined.

Lemma handles_released_witness :
  let winhttp := willing_winhttp 200 [] in
  let run := ExecuteSynchronously true decimal_StringToSizeT 64 winhttp
               (upload [] [read_bytes ["h"; "i"]%byte]) sample_world in
  exists evs,
    trace (snd run) = trace sample_world ++ evs /\
    closed_handles evs
    = match fst run with
      | Fatal _ => []
      | _ => rev (acquired_handles winhttp (trace sample_world) evs)
      end.
Proof.
  intros winhttp run.
  apply (handles_released true decimal_StringToSizeT 64 winhttp
           (upload [] [read_bytes ["h"; "i"]%byte]) sample_world
           (fst run) (snd run)).
  apply surjective_pairing.
Defined.

Lemma request_is_opened_for_the_path_witness :
  let winhttp := willing_winhttp 200 [] in
  let this := upload [] [read_bytes ["h"; "i"]%byte] in
  let run := ExecuteSynchronously true decimal_StringToSizeT 64 winhttp
               this sample_world in
  exists evs,
    trace (snd run) = trace sample_world ++ evs /\
    forall verb path secure,
      In (Called_WinHttpOpenRequest verb path secure) evs ->
      exists uc,
        WinHttpCrackUrl_result winhttp
          (trace sample_world
           ++ [Called_WinHttpOpen;
               Called_WinHttpSetTimeouts (timeout_in_ms_of (timeout this))])
          (UTF8ToUTF16 (url this)) = Some uc /\
        verb = UTF8ToUTF16 (method this) /\
        path = lpszUrlPath uc /\
        secure = (nScheme uc =? INTERNET_SCHEME_HTTPS) /\
        In (Called_WinHttpConnect (lpszHostName uc) (nPort uc)) evs.
Proof.
  intros winhttp this run.
  apply (request_is_opened_for_the_path true decimal_StringToSizeT 64
           winhttp this sample_world (fst run) (snd run)).
  apply surjective_pairing.
Defined.

Lemma declared_total_length_witness :
  let this := upload sample_headers [read_bytes (repeat "x"%byte 10)] in
  let run := ExecuteSynchronously true decimal_StringToSizeT 64
               (willing_winhttp 200 []) this sample_world in
  exists evs,
    trace (snd run) = trace sample_world ++ evs /\
    (declared_lengths evs = [] \/
     declared_lengths evs
     = [length_to_declare decimal_StringToSizeT (headers this)]) /\
    0 <= length_to_declare decimal_StringToSizeT (headers this)
      <= UINT32_MAX /\
    ((forall v, ~ In (kContentLength, v) (headers this)) ->
     length_to_declare decimal_StringToSizeT (headers this)
     = WINHTTP_IGNORE_REQUEST_TOTAL_LENGTH) /\
    (forall v,
       NoDup (map fst (headers this)) ->
       In (kContentLength, v) (headers this) ->
       length_to_declare decimal_StringToSizeT (headers this)
       = match decimal_StringToSizeT v with
         | Some n => if Z.of_N n <=? UINT32_MAX then Z.of_N n
                     else WINHTTP_IGNORE_REQUEST_TOTAL_LENGTH
         | None => WINHTTP_IGNORE_REQUEST_TOTAL_LENGTH
         end).
Proof.
  intros this run.
  apply (declared_total_length true decimal_StringToSizeT 64
           (willing_winhttp 200 []) this sample_world (fst run) (snd run)).
  apply surjective_pairing.
Defined.

Lemma call_phases_witness :
  let this := upload sample_headers [read_bytes (repeat "x"%byte 10)] in
  let run := ExecuteSynchronously true decimal_StringToSizeT 64
               (willing_winhttp 200 []) this sample_world in
  exists opening hdrs sent body resp closing,
    trace (snd run)
    = trace sample_world ++ opening ++ hdrs ++ sent ++ body ++ resp
      ++ closing /\
    Forall opening_event opening /\
    Forall (header_event (headers this)) hdrs /\
    Forall send_request_event sent /\
    (length (declared_lengths sent) <= 1)%nat /\
    Forall send_event body /\
    Forall response_event resp /\
    Forall closing_event closing.
Proof.
  intros this run.
  apply (call_phases true decimal_StringToSizeT 64
           (willing_winhttp 200 []) this sample_world (fst run) (snd run)).
  apply surjective_pairing.
Defined.

Lemma successful_call_sent_whole_body_witness :
  let this := upload [] (map read_bytes sample_reads) in
  let run := ExecuteSynchronously true decimal_StringToSizeT 64
               (willing_winhttp 200 []) this sample_world in
  written_blocks (trace (snd run))
  = written_blocks (trace sample_world)
    ++ body_blocks (fst (mode_after decimal_StringToSizeT (headers this)
                           true 0))
         sample_reads.
Proof.
  intros this run.
  apply (successful_call_sent_whole_body true decimal_StringToSizeT 64
           (willing_winhttp 200 []) this sample_reads sample_world
           (snd run)).
  - vm_compute. reflexivity.
  - reflexivity.
  - repeat (constructor; [vm_compute; discriminate|]). constructor.
  - assert (E : fst run = Return true) by (vm_compute; reflexivity).
    rewrite <- E. apply surjective_pairing.
Defined.

Lemma unexpected_scheme_witness :
  let this := upload [] [read_bytes ["h"; "i"]%byte] in
  let uc := {| nScheme := INTERNET_SCHEME_FTP;
               lpszHostName := "host";
               nPort := 21;
               lpszUrlPath := "/upload";
               lpszExtraInfo := "" |} in
  let run := ExecuteSynchronously true decimal_StringToSizeT 64
               ftp_winhttp this sample_world in
  (true = true ->
   fst run = Fatal check_failed /\
   trace (snd run) = trace sample_world ++ cracked_events this) /\
  (true = false ->
   exists rest,
     trace (snd run) = trace sample_world ++ connected_events this uc
                       ++ rest).
Proof.
  intros this uc run.
  apply (unexpected_scheme true decimal_StringToSizeT 64 ftp_winhttp this uc
           sample_world (fst run) (snd run)).
  - reflexivity.
  - reflexivity.
  - reflexivity.
  - vm_compute. discriminate.
  - vm_compute. discriminate.
  - apply surjective_pairing.
Defined.
